(** * Tracker reconciliation engine: a shallow embedding of
      [cline_utils/dependency_system/io/tracker_io.py]

    Python dictionaries are finite maps ([gmap]); iterating a dictionary is
    [map_fold].  Lists that Python mutates by index are stdpp lists with
    [<[i:=x]>]; an index or key error that Python would raise is [None] in
    the [option] monad.  Strings are Rocq strings of 8-bit characters. *)

From Stdlib Require Import Ascii String.
From stdpp Require Import base option list sorting strings gmap fin_maps fin_sets.



(** ** Python primitives used by the source *)

(** [list(s)] : the characters of a string. *)
Definition chars (s : string) : list ascii := list_ascii_of_string s.

(** ["".join(row_list)] for a list of one-character strings. *)
Definition join (row : list ascii) : string := string_of_list_ascii row.

(** [l[i] = x] : raises [IndexError] when [i] is out of range. *)
Definition list_set {A} (l : list A) (i : nat) (x : A) : option (list A) :=
  if decide (i < length l) then Some (<[i:=x]> l) else None.

(** [{key: i for i, key in enumerate(keys)}] : a later occurrence of a key
    overwrites an earlier one. *)
Fixpoint key_to_idx_from (i : nat) (keys : list string) (m : gmap string nat)
  : gmap string nat :=
  match keys with
  | [] => m
  | k :: ks => key_to_idx_from (S i) ks (<[k:=i]> m)
  end.

Definition key_to_idx (keys : list string) : gmap string nat :=
  key_to_idx_from 0 keys ∅.

(** [keys.index(k)] : first position, [None] for [ValueError]. *)
Fixpoint list_index (k : string) (keys : list string) : option nat :=
  match keys with
  | [] => None
  | k' :: ks => if decide (k' = k) then Some 0 else S <$> list_index k ks
  end.

(** ** Text primitives

    Characters are code points below 256; the predicates follow Python's
    [str] methods and the [re] module on that range. *)

Definition code (c : ascii) : N := N_of_ascii c.

Definition between (lo hi : N) (c : ascii) : bool :=
  ((lo <=? code c) && (code c <=? hi))%N.

(** [c.isspace()], also the class [\s] of [re]. *)
Definition is_space (c : ascii) : bool :=
  between 9 13 c || between 28 32 c || (code c =? 133)%N || (code c =? 160)%N.

(** The class [[a-zA-Z0-9]]. *)
Definition is_alnum (c : ascii) : bool :=
  between 48 57 c || between 65 90 c || between 97 122 c.

(** The line boundaries of [str.splitlines]. *)
Definition is_linebreak (c : ascii) : bool :=
  between 10 13 c || between 28 30 c || (code c =? 133)%N.

Definition lower_char (c : ascii) : ascii :=
  if between 65 90 c then ascii_of_N (code c + 32) else c.

Definition upper_char (c : ascii) : ascii :=
  if between 97 122 c then ascii_of_N (code c - 32) else c.

Fixpoint map_string (f : ascii → ascii) (s : string) : string :=
  match s with
  | EmptyString => EmptyString
  | String c t => String (f c) (map_string f t)
  end.

(** [s.lower()] and [s.upper()] *)
Definition lower (s : string) : string := map_string lower_char s.
Definition upper (s : string) : string := map_string upper_char s.

Fixpoint lstrip (s : string) : string :=
  match s with
  | EmptyString => EmptyString
  | String c t => if is_space c then lstrip t else s
  end.

Definition rev_string (s : string) : string := join (reverse (chars s)).

(** [s.strip()] *)
Definition strip (s : string) : string :=
  rev_string (lstrip (rev_string (lstrip s))).

(** [s.startswith(p)]; the rest of [s] after [p]. *)
Fixpoint strip_prefix (p s : string) : option string :=
  match p, s with
  | EmptyString, _ => Some s
  | String a p', String b s' => if decide (a = b) then strip_prefix p' s' else None
  | String _ _, EmptyString => None
  end.

Definition startswith (s p : string) : bool :=
  bool_decide (is_Some (strip_prefix p s)).

(** The same, ignoring the case of letters ([re.IGNORECASE]). *)
Fixpoint strip_prefix_ci (p s : string) : option string :=
  match p, s with
  | EmptyString, _ => Some s
  | String a p', String b s' =>
      if decide (lower_char a = lower_char b) then strip_prefix_ci p' s' else None
  | String _ _, EmptyString => None
  end.

(** The leftmost occurrence of [p] in [s], ignoring case: the text before
    it and the text after it. *)
Fixpoint find_ci (p s : string) : option (string * string) :=
  match strip_prefix_ci p s with
  | Some rest => Some (EmptyString, rest)
  | None =>
      match s with
      | EmptyString => None
      | String c t =>
          match find_ci p t with
          | Some (before, rest) => Some (String c before, rest)
          | None => None
          end
      end
  end.

Definition newline : ascii := ascii_of_N 10.
Definition carriage_return : ascii := ascii_of_N 13.

(** The group of the section regular expression searched with [re.DOTALL]
    and [re.IGNORECASE]: start marker, line feed, a lazy group of any
    characters, line feed, end marker.  It is the text after the leftmost
    start marker and its line feed, up to the first line feed that the end
    marker follows. *)
Definition search_section (start_marker end_marker content : string)
  : option string :=
  match find_ci (start_marker +:+ String newline EmptyString) content with
  | Some (_, after) =>
      match find_ci (String newline end_marker) after with
      | Some (body, _) => Some body
      | None => None
      end
  | None => None
  end.

(** [s.splitlines()] *)
Fixpoint splitlines_from (cur : list ascii) (s : string) : list string :=
  match s with
  | EmptyString => match cur with [] => [] | _ => [join (reverse cur)] end
  | String c t =>
      if decide (c = carriage_return) then
        match t with
        | String c' t' =>
            if decide (c' = newline)
            then join (reverse cur) :: splitlines_from [] t'
            else join (reverse cur) :: splitlines_from [] t
        | EmptyString => [join (reverse cur)]
        end
      else if is_linebreak c then join (reverse cur) :: splitlines_from [] t
      else splitlines_from (c :: cur) t
  end.

Definition splitlines (s : string) : list string := splitlines_from [] s.

(** The text a file opened with [open(path, 'r')] delivers: [\r\n] and
    [\r] become [\n]. *)
Fixpoint universal_newlines (s : string) : string :=
  match s with
  | EmptyString => EmptyString
  | String c t =>
      if decide (c = carriage_return) then
        match t with
        | String c' t' =>
            if decide (c' = newline) then String newline (universal_newlines t')
            else String newline (universal_newlines t)
        | EmptyString => String newline EmptyString
        end
      else String c (universal_newlines t)
  end.

(** [f.readlines()]: the lines with their line feed. *)
Fixpoint readlines_from (cur : list ascii) (s : string) : list string :=
  match s with
  | EmptyString => match cur with [] => [] | _ => [join (reverse cur)] end
  | String c t =>
      if decide (c = newline) then join (reverse (c :: cur)) :: readlines_from [] t
      else readlines_from (c :: cur) t
  end.

Definition readlines (s : string) : list string := readlines_from [] s.

(** The longest prefix of characters of a class, and the rest. *)
Fixpoint span (f : ascii → bool) (s : string) : string * string :=
  match s with
  | EmptyString => (EmptyString, EmptyString)
  | String c t =>
      if f c then let '(a, b) := span f t in (String c a, b)
      else (EmptyString, s)
  end.

(** The groups of the line regular expression under [re.match]: one or
    more alphanumeric characters (the key), optional white space, the
    separator, optional white space, and the rest of the line (the value).
    The line holds no line feed. *)
Definition match_key_line (sep : ascii) (line : string)
  : option (string * string) :=
  let '(k, rest) := span is_alnum line in
  match k with
  | EmptyString => None
  | _ =>
      match lstrip rest with
      | String c rest' => if decide (c = sep) then Some (k, lstrip rest') else None
      | EmptyString => None
      end
  end.

(** The text up to the next line feed. *)
Fixpoint line_head (s : string) : string :=
  match s with
  | EmptyString => EmptyString
  | String c t => if decide (c = newline) then EmptyString else String c (line_head t)
  end.

(** The group of the audit regular expression searched with [re.MULTILINE]
    and [re.IGNORECASE]: at the start of a line the name, optional white
    space, a colon, optional white space, then the rest of that line.  The
    white space class contains the line feed, so the optional white space
    after the colon runs over line ends. *)
Definition match_audit (name s : string) : option string :=
  match strip_prefix_ci name s with
  | Some rest =>
      match lstrip rest with
      | String c rest' =>
          if decide (c = ":"%char) then Some (line_head (lstrip rest')) else None
      | EmptyString => None
      end
  | None => None
  end.

Fixpoint search_audit_from (at_line_start : bool) (name s : string)
  : option string :=
  match (if at_line_start then match_audit name s else None) with
  | Some v => Some v
  | None =>
      match s with
      | EmptyString => None
      | String c t => search_audit_from (bool_decide (c = newline)) name t
      end
  end.

Definition search_audit (name content : string) : option string :=
  search_audit_from true name content.

(** [sep.join(l)] *)
Fixpoint join_with (sep : string) (l : list string) : string :=
  match l with
  | [] => EmptyString
  | [x] => x
  | x :: xs => x +:+ sep +:+ join_with sep xs
  end.

(** [s.endswith(p)] *)
Definition endswith (s p : string) : bool :=
  startswith (rev_string s) (rev_string p).

(** The class [\d]. *)
Definition is_digit (c : ascii) : bool := between 48 57 c.

(** The shape of a backup timestamp: eight digits, six digits and six
    digits, separated by underscores ([true] stands for a digit). *)
Definition timestamp_shape : list bool :=
  replicate 8 true ++ [false] ++ replicate 6 true ++ [false] ++ replicate 6 true.

Fixpoint matches_shape (shape : list bool) (cs : list ascii) : bool :=
  match shape, cs with
  | [], [] => true
  | d :: shape', c :: cs' =>
      (if d then is_digit c else bool_decide (c = "_"%char))
      && matches_shape shape' cs'
  | _, _ => false
  end.

(** The group of the backup-name regular expression under [re.search]: a
    dot, a timestamp of the shape above and the ending [.bak], for a file
    name that ends in [.bak]. *)
Definition backup_timestamp_str (filename : string) : option string :=
  let r := reverse (chars filename) in
  let ts := reverse (take 22 (drop 4 r)) in
  if bool_decide (take 4 r = reverse (chars ".bak"))
     && matches_shape timestamp_shape ts
     && bool_decide (drop 26 r !! 0 = Some "."%char)
  then Some (join ts) else None.

(** [l.sort(key=fst, reverse=True)]: descending and stable. *)
Fixpoint insert_desc {A} (x : N * A) (l : list (N * A)) : list (N * A) :=
  match l with
  | [] => [x]
  | y :: l' => if (y.1 <=? x.1)%N then x :: l else y :: insert_desc x l'
  end.

Definition sort_desc {A} (l : list (N * A)) : list (N * A) :=
  foldr insert_desc [] l.

(** The order of [sort_desc]: later times first. *)
Definition later_first {A} (a b : N * A) : Prop := (b.1 ≤ a.1)%N.

(** ** Files

    A path is a directory and a file name; [os.path.dirname] and
    [os.path.basename] are the projections, [os.path.join] is the pairing,
    and tracker paths are taken as already normalised.  A file in
    [readonly] cannot be opened for writing nor removed: doing so raises
    [OSError]. *)

Definition Path : Type := string * string.

Record World := {
  files : gmap Path string;
  dirs : gset string;
  readonly : gset Path
}.

(** [os.makedirs(dirname, exist_ok=True)] *)
Definition makedirs (dirname : string) (w : World) : World :=
  {| files := files w; dirs := {[dirname]} ∪ dirs w; readonly := readonly w |}.

(** Writing a file: the text is handed over in one piece.  [None] is the
    [OSError] of an [open] that fails, which leaves everything as it was;
    otherwise all of the text is in the file.  An exception out of a later
    [f.write], which would leave the file cut short, is not part of the
    model. *)
Definition write_file (path : Path) (content : string) (w : World)
  : option World :=
  if decide (path ∈ readonly w) then None
  else Some {| files := <[path:=content]> (files w); dirs := dirs w;
               readonly := readonly w |}.

(** [os.remove(path)]; [None] is [OSError]. *)
Definition remove_file (path : Path) (w : World) : option World :=
  if decide (path ∈ readonly w) then None
  else match files w !! path with
       | Some _ => Some {| files := delete path (files w); dirs := dirs w;
                           readonly := readonly w |}
       | None => None
       end.

(** [os.listdir(d)] *)
Definition listdir (d : string) (w : World) : list string :=
  omap (λ p : Path, if decide (p.1 = d) then Some p.2 else None)
       (map_to_list (files w)).*1.

(** The dictionary [read_tracker_file] returns. *)
Record TrackerData := {
  td_keys : gmap string string;
  td_grid : gmap string string;
  td_last_key_edit : string;
  td_last_grid_edit : string
}.

Definition empty_tracker : TrackerData :=
  {| td_keys := ∅; td_grid := ∅;
     td_last_key_edit := EmptyString; td_last_grid_edit := EmptyString |}.

(** [list(d.keys())] *)
Definition dict_keys {V} (d : gmap string V) : list string := (map_to_list d).*1.

(** [enumerate(l)] *)
Definition enumerate {A} (l : list A) : list (nat * A) := imap pair l.

(** ** Reference collaborators

    Concrete collaborators that meet the contracts the engine asks for;
    the properties below are instantiated with them. *)

Module Ref.

(** Modelled from the spec: the placeholder and diagonal symbols of the
    relation alphabet (core/dependency_grid.py is not part of the sources);
    two distinct characters. *)
Definition PLACEHOLDER_CHAR : ascii := "p"%char.
Definition DIAGONAL_CHAR : ascii := "o"%char.

(** Modelled from the spec: a row codec with [decode(encode(s)) == s] whose
    decoder rejects malformed text (core/dependency_grid.py is not part of
    the sources).  A row is encoded behind a one-character tag. *)
Definition compress (s : string) : string := String "#"%char s.

Definition decompress (s : string) : option string :=
  match s with
  | String c t => if decide (c = "#"%char) then Some t else None
  | EmptyString => None
  end.

(** Modelled from the spec: the key format, one or more alphanumeric
    characters (core/key_manager.py is not part of the sources). *)
Definition validate_key (k : string) : bool :=
  negb (bool_decide (k = EmptyString)) && forallb is_alnum (chars k).

(** Modelled from the spec: the canonical forward-slash form of a path
    (utils/path_utils.py is not part of the sources). *)
Definition normalize_path (p : string) : string :=
  map_string (λ c, if decide (c = "\"%char) then "/"%char else c) p.

(** Modelled from the spec: a total, deterministic order over key strings
    (core/key_manager.py is not part of the sources); the dictionary order
    of the keys' characters. *)
Definition key_le (a b : string) : Prop := String.leb a b = true.

#[global] Instance key_le_dec : RelDecision key_le :=
  λ a b, decide (String.leb a b = true).

Definition sort_key_strings_hierarchically (keys : list string) : list string :=
  merge_sort key_le keys.

(** Modelled from the spec: validation that the grid is square over the key
    order (core/dependency_grid.py is not part of the sources): every key
    has a row that decodes to the key count with the diagonal symbol at the
    key's own index. *)
Definition validate_grid (grid : gmap string string) (keys : list string) : bool :=
  forallb (λ '(i, k),
      match grid !! k with
      | Some compressed =>
          match decompress compressed with
          | Some s =>
              bool_decide (length (chars s) = length keys)
              && bool_decide (chars s !! i = Some DIAGONAL_CHAR)
          | None => false
          end
      | None => false
      end) (enumerate keys).

(** Modelled from the spec: the time a backup timestamp denotes, its
    digits read as one number (the parsing of [datetime.strptime] rejects
    some digit strings, which is [None]; this one accepts all). *)
Definition strptime (s : string) : option N :=
  Some (foldl (λ n c, if is_digit c then (10 * n + (code c - 48))%N else n)
              0%N (chars s)).

(** Modelled from the spec: the global map from normalised paths to keys
    and its lookup (core/key_manager.py is not part of the sources); a
    path is given the key string on record for it. *)
Definition KeyInfoMap : Type := gmap string string.

Definition get_key_string_from_path (path : string)
    (path_to_key_info : KeyInfoMap) : option string :=
  path_to_key_info !! path.

(** Modelled from the spec: the third symbol of the relation alphabet,
    for a pair known to be unrelated (core/dependency_grid.py is not part
    of the sources); distinct from the other two. *)
Definition EMPTY_CHAR : ascii := "."%char.

(** Stand-ins for the [csv] and [json] libraries, to run the export on
    the sample data: a row as its fields between commas, and the data as
    its two audit strings. *)
Definition csv_writerow (row : list string) : string :=
  String.concat "," row +:+ String (ascii_of_N 13) (String (ascii_of_N 10) "").

Definition json_dump (data : TrackerData) : string :=
  "{last_key_edit: " +:+ td_last_key_edit data
  +:+ ", last_grid_edit: " +:+ td_last_grid_edit data +:+ "}".

End Ref.

(** ** Sample data

    A small project with three tracked files, used to run the engine on
    concrete inputs. *)

Module Sample.

Local Open Scope string_scope.

Definition tracker_path : Path :=
  ("/proj/cline_docs", "module_relationship_tracker.md").

Definition other_path : Path := ("/proj/cline_docs", "doc_tracker.md").

Definition backup_dir : string := "/proj/cline_docs/backups".

(** Nothing on disk yet. *)
Definition no_files : World := {| files := ∅; dirs := ∅; readonly := ∅ |}.

(** A tracker file from an earlier run is on disk. *)
Definition old_world : World :=
  {| files := {[tracker_path := "previous content"]}; dirs := {[tracker_path.1]};
     readonly := ∅ |}.

Definition key_defs : gmap string string :=
  list_to_map [("1A", "/proj/a.py"); ("1B", "/proj/b.py"); ("2A", "/proj/lib/c.py")].

Definition keys_list : list string := ["1A"; "1B"; "2A"].

(** A square grid over [keys_list], rows encoded by [Ref.compress]. *)
Definition grid : gmap string string :=
  list_to_map [("1A", "#o<x"); ("1B", "#>op"); ("2A", "#xpo")].

(** A grid whose second row is one symbol short. *)
Definition ragged_grid : gmap string string :=
  list_to_map [("1A", "#o<x"); ("1B", "#>o"); ("2A", "#xpo")].

(** A tracker over the first two keys and one over all three that
    disagrees with it on the pair (1A, 1B). *)
Definition primary_keys : list string := ["1A"; "1B"].

Definition primary_grid : gmap string string :=
  list_to_map [("1A", "#o<"); ("1B", "#po")].

Definition secondary_grid : gmap string string :=
  list_to_map [("1A", "#o>x"); ("1B", "#<od"); ("2A", "#ppo")].

(** A second tracker, which shares the key "1B" with the first. *)
Definition other_key_defs : gmap string string :=
  list_to_map [("1B", "/proj/b.py"); ("3A", "/proj/d.py")].

Definition other_grid : gmap string string :=
  list_to_map [("1B", "#od"); ("3A", "#po")].

(** A grid over the first two keys that also holds a row under "3A", a
    key its tracker does not define; and the key order after "1B" leaves
    and "3A" joins that tracker. *)
Definition stale_grid : gmap string string :=
  list_to_map [("1A", "#op"); ("1B", "#po"); ("3A", "#xd")].

Definition joined_keys : list string := ["1A"; "3A"].

(** A grid over [keys_list] that is not square: the row of "1B" holds a
    relation symbol where the diagonal symbol belongs. *)
Definition skewed_grid : gmap string string :=
  list_to_map [("1A", "#o<x"); ("1B", "#>xp"); ("2A", "#xpo")].

(** The lines of a tracker file that defines three keys and has no row for
    the last of them. *)
Definition gappy_lines : list string :=
  ["---KEY_DEFINITIONS_START---"; "Key Definitions:";
   "1A: /proj/a.py"; "1B: /proj/b.py"; "2A: /proj/lib/c.py";
   "---KEY_DEFINITIONS_END---"; "";
   "last_KEY_edit: Initial keys"; "last_GRID_edit: Initial grid"; "";
   "---GRID_START---"; "X 1A 1B 2A";
   "1A = #o<x"; "1B = #>op";
   "---GRID_END---"].

(** The keys on record for the files of the project. *)
Definition path_to_key_info : Ref.KeyInfoMap :=
  list_to_map [("/proj/a.py", "1A"); ("/proj/b.py", "1B");
               ("/proj/lib/c.py", "2A"); ("/proj/d.py", "3A")].

(** The key order after "1B" leaves and "3A" joins. *)
Definition next_keys : list string := ["1A"; "2A"; "3A"].

Definition decoded_grid : gmap string (list ascii) :=
  list_to_map [("1A", chars "o<p"); ("1B", chars ">op"); ("2A", chars "ppo")].

Definition suggestions : gmap string (list (string * ascii)) :=
  list_to_map [("1A", [("1B", ">"%char); ("2A", "x"%char)]);
               ("2A", [("1A", "x"%char)])].

(** Three backups of the same tracker, one a day. *)
Definition runs : list (Path * string) :=
  [(tracker_path, "20240101_120000_000000");
   (tracker_path, "20240102_120000_000000");
   (tracker_path, "20240103_120000_000000")].

End Sample.

(** ** The engine, over the external collaborators

    [compress]/[decompress] (core/dependency_grid.py), the three symbol
    constants and [sort_key_strings_hierarchically] (core/key_manager.py)
    are imported by the module and are taken as parameters here.
    [decompress] may raise, which is [None]. *)

Section Engine.

Set Default Proof Using "Type".

Variable PLACEHOLDER_CHAR DIAGONAL_CHAR : ascii.
Variable compress : string → string.
Variable decompress : string → option string.

(** The contract of the row codec: decoding inverts encoding. *)
Hypothesis decompress_compress : ∀ s, decompress (compress s) = Some s.

(** [row = [PLACEHOLDER_CHAR] * n; row[i] = DIAGONAL_CHAR] *)
Definition fresh_row (n i : nat) : option (list ascii) :=
  list_set (replicate n PLACEHOLDER_CHAR) i DIAGONAL_CHAR.

(** *** [_merge_grids] (lines 270-317) *)

(** Lines 277-279: the merged grid initialised with placeholders and the
    diagonal, one row per enumerated key. *)
Fixpoint merge_init_from (n i : nat) (keys : list string)
    (g : gmap string (list ascii)) : option (gmap string (list ascii)) :=
  match keys with
  | [] => Some g
  | row_key :: ks =>
      row ← fresh_row n i;
      merge_init_from n (S i) ks (<[row_key:=row]> g)
  end.

(** Lines 282-291: rows that decompress to the expected length, for keys of
    the key list; everything else is skipped with a warning. *)
Definition safe_decompress (grid_data : gmap string string)
    (keys_list : list string) : gmap string (list ascii) :=
  let k2i := key_to_idx keys_list in
  let expected_len := length keys_list in
  map_fold (λ key compressed decomp_grid,
      match k2i !! key with
      | None => decomp_grid
      | Some _ =>
          match decompress compressed with
          | Some s =>
              let decomp := chars s in
              if decide (length decomp = expected_len)
              then <[key:=decomp]> decomp_grid
              else decomp_grid
          | None => decomp_grid
          end
      end) ∅ grid_data.

(** Lines 303-310: the value one input grid holds for a pair, Python's
    [None] when the row or the column is not there. *)
Definition source_val (decomp : gmap string (list ascii))
    (k2i : gmap string nat) (row_key col_key : string) : option ascii :=
  match decomp !! row_key, k2i !! col_key with
  | Some row, Some col_idx =>
      if decide (col_idx < length row) then row !! col_idx else None
  | _, _ => None
  end.

(** Lines 312-314: primary wins unless it is absent or a placeholder. *)
Definition final_val (primary_val secondary_val : option ascii) : ascii :=
  match primary_val with
  | Some v =>
      if decide (v ≠ PLACEHOLDER_CHAR) then v
      else match secondary_val with
           | Some w => if decide (w ≠ PLACEHOLDER_CHAR) then w else PLACEHOLDER_CHAR
           | None => PLACEHOLDER_CHAR
           end
  | None =>
      match secondary_val with
      | Some w => if decide (w ≠ PLACEHOLDER_CHAR) then w else PLACEHOLDER_CHAR
      | None => PLACEHOLDER_CHAR
      end
  end.

(** Lines 299-315: the body of the column loop. *)
Definition merge_cell (primary_decomp secondary_decomp : gmap string (list ascii))
    (k2m k2p k2s : gmap string nat) (row_key : string) (merged_row_idx : nat)
    (g : gmap string (list ascii)) (col_key : string)
  : option (gmap string (list ascii)) :=
  merged_col_idx ← k2m !! col_key;
  if decide (merged_row_idx = merged_col_idx) then Some g
  else
    let primary_val := source_val primary_decomp k2p row_key col_key in
    let secondary_val := source_val secondary_decomp k2s row_key col_key in
    row ← g !! row_key;
    row' ← list_set row merged_col_idx (final_val primary_val secondary_val);
    Some (<[row_key:=row']> g).

(** A [for] loop whose body may raise. *)
Fixpoint for_each {A S} (body : S → A → option S) (l : list A) (s : S)
  : option S :=
  match l with
  | [] => Some s
  | x :: xs => s' ← body s x; for_each body xs s'
  end.

(** Lines 297-315: the row loop. *)
Definition merge_row (primary_decomp secondary_decomp : gmap string (list ascii))
    (k2m k2p k2s : gmap string nat) (merged_keys_list : list string)
    (g : gmap string (list ascii)) (row_key : string)
  : option (gmap string (list ascii)) :=
  merged_row_idx ← k2m !! row_key;
  for_each (merge_cell primary_decomp secondary_decomp k2m k2p k2s
              row_key merged_row_idx) merged_keys_list g.

Definition _merge_grids (primary_grid secondary_grid : gmap string string)
    (primary_keys_list secondary_keys_list merged_keys_list : list string)
  : option (gmap string string) :=
  let merged_size := length merged_keys_list in
  let k2m := key_to_idx merged_keys_list in
  g0 ← merge_init_from merged_size 0 merged_keys_list ∅;
  let primary_decomp := safe_decompress primary_grid primary_keys_list in
  let secondary_decomp := safe_decompress secondary_grid secondary_keys_list in
  let k2p := key_to_idx primary_keys_list in
  let k2s := key_to_idx secondary_keys_list in
  g ← for_each (S:=gmap string (list ascii))
        (merge_row primary_decomp secondary_decomp k2m k2p k2s
           merged_keys_list) merged_keys_list g0;
  Some ((λ row_list, compress (join row_list))
          <$> (g : gmap string (list ascii))).

(** *** [update_tracker]: the grid engine (lines 798-849)

    The type-specific part of [update_tracker] (lines 547-729) chooses the
    key definitions and the suggestions of the tracker; the engine below is
    the common part that follows it. *)

(** Lines 806-809: the new grid over the final key list. *)
Fixpoint update_init (n : nat) (final_key_to_idx : gmap string nat)
    (keys : list string) (temp : gmap string (list ascii))
  : option (gmap string (list ascii)) :=
  match keys with
  | [] => Some temp
  | row_key :: ks =>
      let row_list := replicate n PLACEHOLDER_CHAR in
      row_list' ← match final_key_to_idx !! row_key with
                  | Some row_idx => list_set row_list row_idx DIAGONAL_CHAR
                  | None => Some row_list
                  end;
      update_init n final_key_to_idx ks (<[row_key:=row_list']> temp)
  end.

(** Lines 816-822: one old column copied to its new position. *)
Definition copy_cell (old_keys_list : list string)
    (final_key_to_idx : gmap string nat) (old_row_key : string)
    (temp : gmap string (list ascii)) (cell : nat * ascii)
  : option (gmap string (list ascii)) :=
  let '(old_col_idx, value) := cell in
  if decide (old_col_idx < length old_keys_list) then
    old_col_key ← old_keys_list !! old_col_idx;
    match final_key_to_idx !! old_col_key with
    | Some new_col_idx =>
        new_row_idx ← final_key_to_idx !! old_row_key;
        if decide (new_row_idx ≠ new_col_idx) then
          row ← temp !! old_row_key;
          row' ← list_set row new_col_idx value;
          Some (<[old_row_key:=row']> temp)
        else Some temp
    | None => Some temp
    end
  else Some temp.

(** A loop inside [try: ... except Exception: <log>]: the rows are mutated
    in place, so what was written before the exception stays. *)
Fixpoint for_each_caught {A S} (body : S → A → option S) (l : list A) (s : S)
  : S :=
  match l with
  | [] => s
  | x :: xs =>
      match body s x with
      | Some s' => for_each_caught body xs s'
      | None => s
      end
  end.

(** Lines 811-824: the body of the loop over the old rows. *)
Definition copy_row (old_keys_list : list string)
    (final_key_to_idx : gmap string nat) (old_row_key compressed_row : string)
    (temp : gmap string (list ascii)) : gmap string (list ascii) :=
  match final_key_to_idx !! old_row_key with
  | Some _ =>
      match decompress compressed_row with
      | Some s =>
          let decomp_row := chars s in
          if decide (length decomp_row = length old_keys_list) then
            for_each_caught (copy_cell old_keys_list final_key_to_idx old_row_key)
              (enumerate decomp_row) temp
          else temp
      | None => temp
      end
  | None => temp
  end.

(** Lines 801-824. *)
Definition rebuild_grid (existing_grid : gmap string string)
    (old_keys_list final_sorted_keys_list : list string)
  : option (gmap string (list ascii)) :=
  let final_key_to_idx := key_to_idx final_sorted_keys_list in
  temp ← update_init (length final_sorted_keys_list) final_key_to_idx
           final_sorted_keys_list ∅;
  Some (map_fold (copy_row old_keys_list final_key_to_idx) temp existing_grid).

(** The conflict warning of lines 844-845. *)
Record Conflict := {
  conflict_row : string;
  conflict_col : string;
  conflict_existing : ascii;
  conflict_suggested : ascii
}.

(** The state of the suggestion loop: the row being filled, the
    [suggestion_applied] flag and the warnings logged so far. *)
Record FillState := {
  fill_row : list ascii;
  fill_applied : bool;
  fill_warnings : list Conflict
}.

(** Lines 834-845: one suggestion [(col_key, dep_char)] for [row_key]. *)
Definition apply_dep (final_key_to_idx : gmap string nat) (row_key : string)
    (st : FillState) (dep : string * ascii) : option FillState :=
  let '(col_key, dep_char) := dep in
  match final_key_to_idx !! col_key with
  | None => Some st
  | Some col_idx =>
      if decide (row_key = col_key) then Some st
      else
        existing_char ← fill_row st !! col_idx;
        if decide (existing_char = PLACEHOLDER_CHAR ∧ dep_char ≠ PLACEHOLDER_CHAR)
        then
          row' ← list_set (fill_row st) col_idx dep_char;
          Some {| fill_row := row'; fill_applied := true;
                  fill_warnings := fill_warnings st |}
        else if decide (existing_char ≠ PLACEHOLDER_CHAR
                        ∧ existing_char ≠ DIAGONAL_CHAR
                        ∧ existing_char ≠ dep_char)
        then
          Some {| fill_row := fill_row st; fill_applied := fill_applied st;
                  fill_warnings := fill_warnings st ++
                    [{| conflict_row := row_key; conflict_col := col_key;
                        conflict_existing := existing_char;
                        conflict_suggested := dep_char |}] |}
        else Some st
  end.

(** The state of the loop over the suggestion dictionary. *)
Record GridState := {
  gs_grid : gmap string (list ascii);
  gs_applied : bool;
  gs_warnings : list Conflict
}.

(** Lines 830-846: the suggestions of one source key. *)
Definition apply_row_deps (final_key_to_idx : gmap string nat)
    (row_key : string) (deps : list (string * ascii)) (gs : GridState)
  : option GridState :=
  match final_key_to_idx !! row_key with
  | None => Some gs
  | Some _ =>
      match gs_grid gs !! row_key with
      | None | Some [] => Some gs
      | Some current_decomp_row =>
          st ← for_each (apply_dep final_key_to_idx row_key) deps
                 {| fill_row := current_decomp_row;
                    fill_applied := gs_applied gs;
                    fill_warnings := gs_warnings gs |};
          Some {| gs_grid := <[row_key:=fill_row st]> (gs_grid gs);
                  gs_applied := fill_applied st;
                  gs_warnings := fill_warnings st |}
      end
  end.

(** Lines 827-846. *)
Definition apply_suggestions (final_key_to_idx : gmap string nat)
    (final_suggestions_to_apply : gmap string (list (string * ascii)))
    (temp_decomp_grid : gmap string (list ascii)) : option GridState :=
  map_fold (λ row_key deps acc,
              gs ← acc; apply_row_deps final_key_to_idx row_key deps gs)
    (Some {| gs_grid := temp_decomp_grid; gs_applied := false;
             gs_warnings := [] |})
    final_suggestions_to_apply.

(** ** Reading a cell of a compressed grid *)

(** The symbol a compressed row holds for column [c] under a key order: the
    row decompressed to the width of the order, at the index of [c]. *)
Definition row_cell (grid : gmap string string) (keys : list string)
    (r c : string) : option ascii :=
  compressed ← grid !! r;
  s ← decompress compressed;
  if decide (length (chars s) = length keys) then
    i ← list_index c keys; chars s !! i
  else None.

(** The relation a tracker (grid and key order) records from [r] to [c]:
    both are keys of the tracker and the row of [r] is decodable. *)
Definition grid_cell (grid : gmap string string) (keys : list string)
    (r c : string) : option ascii :=
  _ ← list_index r keys; row_cell grid keys r c.

(** The same for a grid of decompressed rows. *)
Definition decomp_cell (g : gmap string (list ascii)) (keys : list string)
    (r c : string) : option ascii :=
  row ← g !! r; i ← list_index c keys; row !! i.

(** *** The collaborators of the tracker store

    [validate_key] and [sort_key_strings_hierarchically]
    (core/key_manager.py), [normalize_path] (utils/path_utils.py) and
    [validate_grid] (core/dependency_grid.py) are imported and taken as
    parameters. *)

Variable validate_key : string → bool.
Variable normalize_path : string → string.
Variable sort_key_strings_hierarchically : list string → list string.
Variable validate_grid : gmap string string → list string → bool.

(** *** [read_tracker_file] (lines 84-134) *)

Definition nl : string := String newline EmptyString.

(** Lines 102-109: one line of the key definition section. *)
Definition read_key_line (keys : gmap string string) (line0 : string)
  : gmap string string :=
  let line := strip line0 in
  if bool_decide (line = EmptyString)
     || startswith (lower line) "key definitions:" then keys
  else
    match match_key_line ":" line with
    | Some (k, v) =>
        if validate_key k then <[k:=normalize_path (strip v)]> keys else keys
    | None => keys
    end.

(** Lines 117-123: one line of the grid section. *)
Definition read_grid_line (grid : gmap string string) (line0 : string)
  : gmap string string :=
  let line := strip line0 in
  match match_key_line "=" line with
  | Some (k, v) => if validate_key k then <[k:=strip v]> grid else grid
  | None => grid
  end.

(** Line 116: the header line of the grid section. *)
Definition is_grid_header (line : string) : bool :=
  startswith (upper (strip line)) "X " || bool_decide (strip line = "X"%string).

Definition parse_tracker (content : string) : TrackerData :=
  let keys :=
    match search_section "---KEY_DEFINITIONS_START---"
            "---KEY_DEFINITIONS_END---" content with
    | Some key_section_content =>
        foldl read_key_line ∅ (splitlines key_section_content)
    | None => ∅
    end in
  let grid :=
    match search_section "---GRID_START---" "---GRID_END---" content with
    | Some grid_section_content =>
        let lines := splitlines (strip grid_section_content) in
        let lines := match lines with
                     | l0 :: rest => if is_grid_header l0 then rest else lines
                     | [] => lines
                     end in
        foldl read_grid_line ∅ lines
    | None => ∅
    end in
  let last_key_edit :=
    match search_audit "last_KEY_edit" content with
    | Some v => strip v
    | None => EmptyString
    end in
  let last_grid_edit :=
    match search_audit "last_GRID_edit" content with
    | Some v => strip v
    | None => EmptyString
    end in
  {| td_keys := keys; td_grid := grid;
     td_last_key_edit := last_key_edit; td_last_grid_edit := last_grid_edit |}.

Definition read_tracker_file (w : World) (tracker_path : Path) : TrackerData :=
  match files w !! tracker_path with
  | None => empty_tracker
  | Some raw => parse_tracker (universal_newlines raw)
  end.

(** *** [_read_existing_keys] and [_read_existing_grid] (lines 380-409) *)

(** [re.compile('^MARKER$', re.IGNORECASE).match(line.strip())] *)
Definition is_marker (marker line : string) : bool :=
  bool_decide (strip_prefix_ci marker (strip line) = Some EmptyString).

Fixpoint read_existing_keys_from (in_section : bool)
    (key_map : gmap string string) (lines : list string) : gmap string string :=
  match lines with
  | [] => key_map
  | line :: rest =>
      if is_marker "---KEY_DEFINITIONS_END---" line then key_map
      else if in_section then
        let line_content := strip line in
        if bool_decide (line_content = EmptyString)
           || startswith (lower line_content) "key definitions:"
        then read_existing_keys_from in_section key_map rest
        else
          match match_key_line ":" line_content with
          | Some (k, v) =>
              if validate_key k
              then read_existing_keys_from in_section
                     (<[k:=normalize_path (strip v)]> key_map) rest
              else read_existing_keys_from in_section key_map rest
          | None => read_existing_keys_from in_section key_map rest
          end
      else if is_marker "---KEY_DEFINITIONS_START---" line
      then read_existing_keys_from true key_map rest
      else read_existing_keys_from in_section key_map rest
  end.

Definition _read_existing_keys (lines : list string) : gmap string string :=
  read_existing_keys_from false ∅ lines.

Fixpoint read_existing_grid_from (in_section : bool)
    (grid_map : gmap string string) (lines : list string) : gmap string string :=
  match lines with
  | [] => grid_map
  | line :: rest =>
      if is_marker "---GRID_END---" line then grid_map
      else if in_section then
        let line_content := strip line in
        if startswith (upper line_content) "X "
           || bool_decide (line_content = "X"%string)
        then read_existing_grid_from in_section grid_map rest
        else
          match match_key_line "=" line_content with
          | Some (k, v) =>
              if validate_key k
              then read_existing_grid_from in_section (<[k:=strip v]> grid_map) rest
              else read_existing_grid_from in_section grid_map rest
          | None => read_existing_grid_from in_section grid_map rest
          end
      else if is_marker "---GRID_START---" line
      then read_existing_grid_from true grid_map rest
      else read_existing_grid_from in_section grid_map rest
  end.

Definition _read_existing_grid (lines : list string) : gmap string string :=
  read_existing_grid_from false ∅ lines.

(** *** [write_tracker_file] (lines 137-214) *)

(** Lines 172-185: the row written for one key, repaired when the given row
    is missing, does not decompress or has the wrong length. *)
Definition fix_row (grid_to_write : gmap string string) (expected_len : nat)
    (k2i : gmap string nat) (row_key : string) : option string :=
  let row_list :=
    match grid_to_write !! row_key with
    | Some compressed_row =>
        match decompress compressed_row with
        | Some decompressed_row =>
            if decide (length (chars decompressed_row) = expected_len)
            then Some (chars decompressed_row) else None
        | None => None
        end
    | None => None
    end in
  row_list' ← match row_list with
              | Some row_list => Some row_list
              | None =>
                  let row_list := replicate expected_len PLACEHOLDER_CHAR in
                  match k2i !! row_key with
                  | Some row_idx => list_set row_list row_idx DIAGONAL_CHAR
                  | None => Some row_list
                  end
              end;
  Some (compress (join row_list')).

Fixpoint fix_grid_from (grid_to_write : gmap string string) (expected_len : nat)
    (k2i : gmap string nat) (keys : list string) (final_grid : gmap string string)
  : option (gmap string string) :=
  match keys with
  | [] => Some final_grid
  | row_key :: ks =>
      row ← fix_row grid_to_write expected_len k2i row_key;
      fix_grid_from grid_to_write expected_len k2i ks (<[row_key:=row]> final_grid)
  end.

(** Lines 169-185. *)
Definition fix_grid (grid_to_write : gmap string string)
    (sorted_keys_list : list string) : option (gmap string string) :=
  fix_grid_from grid_to_write (length sorted_keys_list)
    (key_to_idx sorted_keys_list) sorted_keys_list ∅.

(** Lines 191-192: the key definition lines; [key_defs_to_write[key]] raises
    for a key that is not there, after the lines before it were written. *)
Fixpoint write_key_lines (key_defs_to_write : gmap string string)
    (keys : list string) (out : string) : string * bool :=
  match keys with
  | [] => (out, true)
  | key :: ks =>
      match key_defs_to_write !! key with
      | Some v =>
          write_key_lines key_defs_to_write ks
            (out +:+ key +:+ ": " +:+ normalize_path v +:+ nl)
      | None => (out, false)
      end
  end.

(** Lines 202-203: the grid rows. *)
Definition write_grid_lines (final_grid : gmap string string)
    (keys : list string) : string :=
  String.concat EmptyString
    ((λ key, key +:+ " = " +:+ default EmptyString (final_grid !! key) +:+ nl)
       <$> keys).

(** Lines 188-205: what is written to the open file, and whether all of it
    was. *)
Definition tracker_content (key_defs_to_write final_grid : gmap string string)
    (sorted_keys_list : list string) (last_key_edit last_grid_edit : string)
  : string * bool :=
  let out := "---KEY_DEFINITIONS_START---" +:+ nl +:+ "Key Definitions:" +:+ nl in
  match write_key_lines key_defs_to_write sorted_keys_list out with
  | (out, false) => (out, false)
  | (out, true) =>
      let out := out +:+ "---KEY_DEFINITIONS_END---" +:+ nl +:+ nl in
      let out := out +:+ "last_KEY_edit: " +:+ last_key_edit +:+ nl
                     +:+ "last_GRID_edit: " +:+ last_grid_edit +:+ nl +:+ nl in
      let out := out +:+ "---GRID_START---" +:+ nl in
      let out :=
        match sorted_keys_list with
        | [] => out +:+ "X " +:+ nl
        | _ => out +:+ "X " +:+ join_with " " sorted_keys_list +:+ nl
                   +:+ write_grid_lines final_grid sorted_keys_list
        end in
      (out +:+ "---GRID_END---" +:+ nl, true)
  end.

Definition write_tracker_file (w : World) (tracker_path : Path)
    (key_defs_to_write grid_to_write : gmap string string)
    (last_key_edit last_grid_edit : string) : bool * World :=
  let w := makedirs tracker_path.1 w in
  let sorted_keys_list :=
    sort_key_strings_hierarchically (dict_keys key_defs_to_write) in
  if negb (validate_grid grid_to_write sorted_keys_list) then (false, w)
  else
    match fix_grid grid_to_write sorted_keys_list with
    | None => (false, w)
    | Some final_grid =>
        let '(content, complete) :=
          tracker_content key_defs_to_write final_grid sorted_keys_list
            last_key_edit last_grid_edit in
        match write_file tracker_path content w with
        | None => (false, w)
        | Some w' => (complete, w')
        end
    end.

(** *** [backup_tracker_file] (lines 218-266)

    [backup_dir] is the configured backup directory under the project
    root; [strptime] parses a timestamp into its time, [None] being
    [ValueError].  The time of the backup is the argument [timestamp], the
    formatted value of [datetime.datetime.now()]. *)

Variable backup_dir : string.
Variable strptime : string → option N.

Definition backup_name (base_name timestamp : string) : string :=
  base_name +:+ "." +:+ timestamp +:+ ".bak".

(** Lines 244-255: the backups found for a base name, with their times. *)
Definition backup_entry (base_name filename : string) : option (N * Path) :=
  if startswith filename (base_name +:+ ".") && endswith filename ".bak" then
    timestamp_str ← backup_timestamp_str filename;
    file_timestamp ← strptime timestamp_str;
    Some (file_timestamp, (backup_dir, filename))
  else None.

Definition backup_files_of (base_name : string) (w : World) : list (N * Path) :=
  omap (backup_entry base_name) (listdir backup_dir w).

(** Lines 260-262: a failed delete is logged. *)
Definition remove_logged (w : World) (entry : N * Path) : World :=
  match remove_file entry.2 w with
  | Some w' => w'
  | None => w
  end.

(** Lines 241-263. *)
Definition cleanup_backups (base_name : string) (w : World) : World :=
  let backup_files := sort_desc (backup_files_of base_name w) in
  if decide (2 < length backup_files)
  then foldl remove_logged w (drop 2 backup_files)
  else w.

(** The result is the path of the backup, [None] for the empty string. *)
Definition backup_tracker_file (w : World) (tracker_path : Path)
    (timestamp : string) : option Path * World :=
  match files w !! tracker_path with
  | None => (None, w)
  | Some content =>
      let w := makedirs backup_dir w in
      let base_name := tracker_path.2 in
      let backup_path := (backup_dir, backup_name base_name timestamp) in
      match write_file backup_path content w with
      | None => (None, w)
      | Some w => (Some backup_path, cleanup_backups base_name w)
      end
  end.

(** *** [merge_trackers] (lines 320-377) *)

(** Lines 336-338: the backup of the file that is about to be overwritten. *)
Definition merge_backup (w : World) (primary_tracker_path secondary_tracker_path
    output_path : Path) (timestamp : string) : World :=
  if bool_decide (output_path = primary_tracker_path
                  ∧ is_Some (files w !! primary_tracker_path))
  then (backup_tracker_file w primary_tracker_path timestamp).2
  else if bool_decide (output_path = secondary_tracker_path
                       ∧ is_Some (files w !! secondary_tracker_path))
  then (backup_tracker_file w secondary_tracker_path timestamp).2
  else w.

(** [a or b] on strings. *)
Definition str_or (a b : string) : string :=
  if bool_decide (a = EmptyString) then b else a.

(** Lines 341-366: the merged data; the outer [None] is both trackers
    empty, the inner one an exception out of [_merge_grids]. *)
Definition merged_tracker_data (primary_data secondary_data : TrackerData)
    (primary_name secondary_name now_iso : string)
  : option (option TrackerData) :=
  let primary_keys := td_keys primary_data in
  let secondary_keys := td_keys secondary_data in
  if bool_decide (primary_keys = ∅) && bool_decide (secondary_keys = ∅) then None
  else if bool_decide (primary_keys = ∅) then Some (Some secondary_data)
  else if bool_decide (secondary_keys = ∅) then Some (Some primary_data)
  else
    let merged_keys_map := primary_keys ∪ secondary_keys in
    let merged_keys_list :=
      sort_key_strings_hierarchically (dict_keys merged_keys_map) in
    Some (
      merged_compressed_grid ←
        _merge_grids (td_grid primary_data) (td_grid secondary_data)
          (sort_key_strings_hierarchically (dict_keys primary_keys))
          (sort_key_strings_hierarchically (dict_keys secondary_keys))
          merged_keys_list;
      Some {| td_keys := merged_keys_map;
              td_grid := merged_compressed_grid;
              td_last_key_edit :=
                str_or (td_last_key_edit primary_data)
                       (td_last_key_edit secondary_data);
              td_last_grid_edit :=
                "Merged from " +:+ primary_name +:+ " and " +:+ secondary_name
                  +:+ " on " +:+ now_iso |}).

(** What a call does: it returns a value or raises. *)
Inductive Outcome (A : Type) :=
  | Returned (x : A)
  | Raised.
Arguments Returned {A} x.
Arguments Raised {A}.

Definition merge_trackers (w : World)
    (primary_tracker_path secondary_tracker_path : Path)
    (output_path : option Path) (timestamp now_iso : string)
  : Outcome (option TrackerData) * World :=
  let output_path := default primary_tracker_path output_path in
  let w := merge_backup w primary_tracker_path secondary_tracker_path
             output_path timestamp in
  let primary_data := read_tracker_file w primary_tracker_path in
  let secondary_data := read_tracker_file w secondary_tracker_path in
  match merged_tracker_data primary_data secondary_data
          primary_tracker_path.2 secondary_tracker_path.2 now_iso with
  | None => (Returned None, w)
  | Some None => (Raised, w)
  | Some (Some merged_data) =>
      match write_tracker_file w output_path (td_keys merged_data)
              (td_grid merged_data) (td_last_key_edit merged_data)
              (td_last_grid_edit merged_data) with
      | (true, w') => (Returned (Some merged_data), w')
      | (false, w') => (Returned None, w')
      end
  end.

(** *** [remove_key_from_tracker] (lines 1036-1110) *)

(** Lines 1090-1094 and 1095-1099: a row that cannot be spliced is made
    anew over the final key list. *)
Definition reinit_row (final_sorted_keys_list : list string)
    (old_row_key : string) : option string :=
  let row_list := replicate (length final_sorted_keys_list) PLACEHOLDER_CHAR in
  row_list' ← match list_index old_row_key final_sorted_keys_list with
              | Some i => list_set row_list i DIAGONAL_CHAR
              | None => Some row_list
              end;
  Some (compress (join row_list')).

(** Lines 1083-1099: the body of the loop over the old rows; the outer
    [None] is an exception inside the [except] handler, which leaves the
    function. *)
Definition remove_column (old_keys_list final_sorted_keys_list : list string)
    (key_to_remove : string) (idx_to_remove : nat)
    (old_row_key compressed_row : string)
    (final_grid : option (gmap string string)) : option (gmap string string) :=
  final_grid ← final_grid;
  if decide (old_row_key ≠ key_to_remove) then
    match decompress compressed_row with
    | Some s =>
        let decomp_row := chars s in
        if decide (length decomp_row = length old_keys_list) then
          let new_decomp_row_list :=
            take idx_to_remove decomp_row ++ drop (S idx_to_remove) decomp_row in
          Some (<[old_row_key:=compress (join new_decomp_row_list)]> final_grid)
        else
          row ← reinit_row final_sorted_keys_list old_row_key;
          Some (<[old_row_key:=row]> final_grid)
    | None =>
        row ← reinit_row final_sorted_keys_list old_row_key;
        Some (<[old_row_key:=row]> final_grid)
    end
  else Some final_grid.

(** Lines 1075-1099. *)
Definition removal_grid (existing_key_defs existing_grid : gmap string string)
    (key_to_remove : string) : option (gmap string string) :=
  let final_key_defs := delete key_to_remove existing_key_defs in
  let final_sorted_keys_list :=
    sort_key_strings_hierarchically (dict_keys final_key_defs) in
  let old_keys_list :=
    sort_key_strings_hierarchically (dict_keys existing_key_defs) in
  match list_index key_to_remove old_keys_list with
  | None => Some (delete key_to_remove existing_grid)
  | Some idx_to_remove =>
      map_fold (remove_column old_keys_list final_sorted_keys_list
                  key_to_remove idx_to_remove) (Some ∅) existing_grid
  end.

(** How a call of [remove_key_from_tracker] ends. *)
Inductive Removal :=
  | RemovalDone
  | RemovalNoChange
  | RaisedFileNotFoundError
  | RaisedIOError
  | RaisedOther.

Definition remove_key_from_tracker (w : World) (output_file : Path)
    (key_to_remove timestamp : string) : Removal * World :=
  match files w !! output_file with
  | None => (RaisedFileNotFoundError, w)
  | Some _ =>
      let w := (backup_tracker_file w output_file timestamp).2 in
      match files w !! output_file with
      | None => (RaisedIOError, w)
      | Some raw =>
          let lines := readlines (universal_newlines raw) in
          let existing_key_defs := _read_existing_keys lines in
          let existing_grid := _read_existing_grid lines in
          match existing_key_defs !! key_to_remove with
          | None => (RemovalNoChange, w)
          | Some path_removed =>
              let final_key_defs := delete key_to_remove existing_key_defs in
              let final_last_key_edit :=
                "Removed key: " +:+ key_to_remove +:+ " (Path: "
                  +:+ path_removed +:+ ")" in
              let final_last_grid_edit :=
                "Grid adjusted for removal of key: " +:+ key_to_remove in
              match removal_grid existing_key_defs existing_grid key_to_remove with
              | None => (RaisedOther, w)
              | Some final_grid =>
                  match write_tracker_file w output_file final_key_defs
                          final_grid final_last_key_edit final_last_grid_edit with
                  | (true, w') => (RemovalDone, w')
                  | (false, w') => (RaisedIOError, w')
                  end
              end
          end
      end
  end.

(** A series of backups, each of a tracker file at a timestamp. *)
Fixpoint take_backups (w : World) (runs : list (Path * string)) : World :=
  match runs with
  | [] => w
  | (tracker_path, timestamp) :: rest =>
      take_backups (backup_tracker_file w tracker_path timestamp).2 rest
  end.

(** The entry of the backup taken of a base name at a timestamp. *)
Definition backup_entry_of (base_name timestamp : string) : N * Path :=
  (default 0%N (strptime timestamp),
   (backup_dir, backup_name base_name timestamp)).

(** The last two of a series, after the two given. *)
Definition last_two {X} (d : X * X) (l : list X) : X * X :=
  foldl (λ xy z, (xy.2, z)) d l.

(** The first timestamp denotes an earlier time than the second. *)
Definition earlier (timestamp timestamp' : string) : Prop :=
  ∃ t t', strptime timestamp = Some t ∧ strptime timestamp' = Some t'
    ∧ (t < t')%N.

(** ** Notions used in the statements *)

(** The canonical key order of a dictionary of key definitions. *)
Definition sorted_keys (key_defs : gmap string string) : list string :=
  sort_key_strings_hierarchically (dict_keys key_defs).

(** A grid is square over a key order: every key has a row that decodes to
    the key count, with the diagonal symbol at the key's own index. *)
Definition square_over (grid : gmap string string) (keys : list string) : Prop :=
  ∀ i k, keys !! i = Some k →
    ∃ compressed s, grid !! k = Some compressed
      ∧ decompress compressed = Some s
      ∧ length (chars s) = length keys
      ∧ chars s !! i = Some DIAGONAL_CHAR.

(** Every key but [except] has a row, and such a row has the diagonal
    symbol at the key's own index when it decodes to the key count; a row
    may fail to decode. *)
Definition rows_with_diagonal (grid : gmap string string) (keys : list string)
    (except : string) : Prop :=
  ∀ i k, keys !! i = Some k → k ≠ except →
    ∃ compressed, grid !! k = Some compressed
      ∧ ∀ s, decompress compressed = Some s →
          length (chars s) = length keys →
          chars s !! i = Some DIAGONAL_CHAR.

(** A row of [n] placeholders with the diagonal symbol at [i]. *)
Definition diag_row (n i : nat) : list ascii :=
  <[i:=DIAGONAL_CHAR]> (replicate n PLACEHOLDER_CHAR).

(** Every key of [keys] has a row of width [n]. *)
Definition rows_of_width (n : nat) (keys : list string)
    (g : gmap string (list ascii)) : Prop :=
  ∀ k, k ∈ keys → ∃ row, g !! k = Some row ∧ length row = n.

(** Lines 798-846 in one piece: rebuild, then fill in the suggestions. *)
Definition update_grid (existing_grid : gmap string string)
    (old_keys_list final_sorted_keys_list : list string)
    (final_suggestions_to_apply : gmap string (list (string * ascii)))
  : option GridState :=
  temp_decomp_grid ← rebuild_grid existing_grid old_keys_list
                        final_sorted_keys_list;
  apply_suggestions (key_to_idx final_sorted_keys_list)
    final_suggestions_to_apply temp_decomp_grid.

(** Line 849: the final grid, compressed. *)
Definition compress_grid (g : gmap string (list ascii)) : gmap string string :=
  (λ row_list, compress (join row_list)) <$> g.

(** [row'] keeps every symbol of [row] that is not the placeholder. *)
Definition row_fills (row row' : list ascii) : Prop :=
  length row' = length row
  ∧ ∀ j v, row !! j = Some v → v ≠ PLACEHOLDER_CHAR → row' !! j = Some v.

(** The grid [g'] has a row for every row of [g], with every symbol of [g]
    that is not the placeholder still in place. *)
Definition grid_fills (g g' : gmap string (list ascii)) : Prop :=
  ∀ k row, g !! k = Some row →
    ∃ row', g' !! k = Some row' ∧ row_fills row row'.

(** The row of [row_key] at the moment the suggestion loop of lines 834-845
    has gone through [deps], having started from [row]. *)
Definition row_reached (final_key_to_idx : gmap string nat) (row_key : string)
    (row : list ascii) (deps : list (string * ascii)) : option (list ascii) :=
  fill_row <$> for_each (apply_dep final_key_to_idx row_key) deps
                 {| fill_row := row; fill_applied := false;
                    fill_warnings := [] |}.

(** *** [remove_file_from_tracker] (lines 962-1034)

    The global map [path_to_key_info] and its lookup
    [get_key_string_from_path] (core/key_manager.py) are taken as they
    come: the map is passed through to the lookup, which gives the key
    string of a path or [None]. *)

Variable KeyInfoMap : Type.
Variable get_key_string_from_path : string → KeyInfoMap → option string.

(** [os.path.basename(p)]: what follows the last slash. *)
Fixpoint basename_from (cs acc : list ascii) : list ascii :=
  match cs with
  | [] => acc
  | c :: cs' =>
      if decide (c = "/"%char) then basename_from cs' []
      else basename_from cs' (acc ++ [c])
  end.

Definition basename (p : string) : string := join (basename_from (chars p) []).

Definition remove_file_from_tracker (w : World) (output_file : Path)
    (file_to_remove : string) (path_to_key_info : KeyInfoMap)
    (timestamp : string) : Removal * World :=
  let file_to_remove_norm := normalize_path file_to_remove in
  match files w !! output_file with
  | None => (RaisedFileNotFoundError, w)
  | Some _ =>
      let w := (backup_tracker_file w output_file timestamp).2 in
      match files w !! output_file with
      | None => (RaisedIOError, w)
      | Some raw =>
          let lines := readlines (universal_newlines raw) in
          let existing_key_defs := _read_existing_keys lines in
          let existing_grid := _read_existing_grid lines in
          match get_key_string_from_path file_to_remove_norm path_to_key_info with
          | None => (RemovalNoChange, w)
          | Some key_to_remove =>
              match existing_key_defs !! key_to_remove with
              | None => (RemovalNoChange, w)
              | Some _ =>
                  let final_key_defs := delete key_to_remove existing_key_defs in
                  let final_last_key_edit :=
                    "Removed key: " +:+ key_to_remove +:+ " ("
                      +:+ basename file_to_remove_norm +:+ ")" in
                  let final_last_grid_edit :=
                    "Grid adjusted for removal of key: " +:+ key_to_remove in
                  match removal_grid existing_key_defs existing_grid
                          key_to_remove with
                  | None => (RaisedOther, w)
                  | Some final_grid =>
                      match write_tracker_file w output_file final_key_defs
                              final_grid final_last_key_edit
                              final_last_grid_edit with
                      | (true, w') => (RemovalDone, w')
                      | (false, w') => (RaisedIOError, w')
                      end
                  end
              end
          end
      end
  end.

(** *** [_write_key_definitions] and [_write_grid] (lines 412-443)

    The two writers that [update_tracker] and [create_mini_tracker] use;
    what they write to the file object is the string returned. *)

(** Lines 416-419: one definition line; a key without a path, and a path
    that is the text [PATH_ERROR], write nothing. *)
Definition key_definition_line (key_map : gmap string string) (k : string)
  : string :=
  let v := default "PATH_ERROR" (key_map !! k) in
  if decide (v ≠ "PATH_ERROR") then k +:+ ": " +:+ normalize_path v +:+ nl
  else EmptyString.

Definition _write_key_definitions (key_map : gmap string string)
    (sorted_keys_list : list string) : string :=
  "---KEY_DEFINITIONS_START---" +:+ nl +:+ "Key Definitions:" +:+ nl
  +:+ String.concat EmptyString (key_definition_line key_map <$> sorted_keys_list)
  +:+ "---KEY_DEFINITIONS_END---" +:+ nl.

(** Lines 430-442: the row written for a key: the row it has, as it is,
    when that decodes to the expected length, and a fresh row otherwise;
    [None] is an exception out of the function. *)
Definition write_grid_row (grid : gmap string string) (expected_len : nat)
    (k2i : gmap string nat) (row_key : string) : option string :=
  let final_compressed_row :=
    match grid !! row_key with
    | Some compressed_row =>
        match decompress compressed_row with
        | Some decompressed =>
            if decide (length (chars decompressed) = expected_len)
            then Some compressed_row else None
        | None => None
        end
    | None => None
    end in
  final_compressed_row ←
    match final_compressed_row with
    | Some row => Some row
    | None =>
        let row_list := replicate expected_len PLACEHOLDER_CHAR in
        row_list ← match k2i !! row_key with
                   | Some row_idx => list_set row_list row_idx DIAGONAL_CHAR
                   | None => Some row_list
                   end;
        Some (compress (join row_list))
    end;
  Some (row_key +:+ " = " +:+ final_compressed_row +:+ nl).

Definition _write_grid (sorted_keys_list : list string)
    (grid : gmap string string) : option string :=
  match sorted_keys_list with
  | [] => Some ("---GRID_START---" +:+ nl +:+ "X " +:+ nl
                +:+ "---GRID_END---" +:+ nl)
  | _ =>
      rows ← mapM (write_grid_row grid (length sorted_keys_list)
                     (key_to_idx sorted_keys_list)) sorted_keys_list;
      Some ("---GRID_START---" +:+ nl
            +:+ "X " +:+ join_with " " sorted_keys_list +:+ nl
            +:+ String.concat EmptyString rows
            +:+ "---GRID_END---" +:+ nl)
  end.

(** Lines 866-869 of [update_tracker]: the tracker data section of a main
    or doc tracker, which is the whole file. *)
Definition update_section (final_key_defs final_grid : gmap string string)
    (final_sorted_keys_list : list string)
    (final_last_key_edit final_last_grid_edit : string) : option string :=
  grid_section ← _write_grid final_sorted_keys_list final_grid;
  Some (_write_key_definitions final_key_defs final_sorted_keys_list +:+ nl
        +:+ "last_KEY_edit: " +:+ final_last_key_edit +:+ nl
        +:+ "last_GRID_edit: " +:+ final_last_grid_edit +:+ nl +:+ nl
        +:+ grid_section).

(** *** [export_tracker] (lines 886-958)

    [EMPTY_CHAR] is the third symbol constant of core/dependency_grid.py;
    [json_dump] is the text [json.dump(data, f, indent=2,
    ensure_ascii=False)] writes and [csv_writerow] the text
    [csv.writer(f).writerow(row)] writes. *)

Variable EMPTY_CHAR : ascii.
Variable json_dump : TrackerData → string.
Variable csv_writerow : list string → string.

(** The double quote, as a string. *)
Definition dq : string := String (ascii_of_N 34) EmptyString.

(** [s.replace(old, new)] for a one-character [old]. *)
Fixpoint replace_char (old : ascii) (new : string) (s : string) : string :=
  match s with
  | EmptyString => EmptyString
  | String c t =>
      if decide (c = old) then new +:+ replace_char old new t
      else String c (replace_char old new t)
  end.

(** [os.path.splitext(name)[0]] for a file name: the name without its
    last dot and what follows, unless only dots come before that dot. *)
Definition splitext_root (name : string) : string :=
  let cs := chars name in
  match list_find (λ c, c = "."%char) (reverse cs) with
  | Some (i, _) =>
      let root := take (length cs - S i) cs in
      if forallb (λ c, bool_decide (c = "."%char)) root then name
      else join root
  | None => name
  end.

(** Lines 914-921 and 931-946: the loops of the CSV and of the DOT export
    are the same; they visit, for each key in order whose row is not empty
    and decodes to the key count, the columns whose symbol is none of the
    empty, diagonal and placeholder symbols. *)
Definition export_row_edges (sorted_keys_list : list string)
    (source_key : string) (decompressed_row : string)
  : list (string * string * ascii) :=
  omap (λ '(j, dep_type),
          if bool_decide (dep_type ≠ EMPTY_CHAR ∧ dep_type ≠ DIAGONAL_CHAR
                          ∧ dep_type ≠ PLACEHOLDER_CHAR)
          then target_key ← sorted_keys_list !! j;
               Some (source_key, target_key, dep_type)
          else None)
       (enumerate (chars decompressed_row)).

Definition export_edges (grid : gmap string string)
    (sorted_keys_list : list string) : list (string * string * ascii) :=
  sorted_keys_list ≫= λ source_key,
    match grid !! source_key with
    | Some compressed_row =>
        if bool_decide (compressed_row = EmptyString) then []
        else
          match decompress compressed_row with
          | Some decompressed_row =>
              if decide (length (chars decompressed_row)
                         = length sorted_keys_list)
              then export_row_edges sorted_keys_list source_key
                     decompressed_row
              else []
          | None => []
          end
    | None => []
    end.

(** Lines 910-921: the text of the CSV export. *)
Definition export_csv (keys_map grid : gmap string string)
    (sorted_keys_list : list string) : string :=
  csv_writerow ["Source Key"; "Source Path"; "Target Key"; "Target Path";
                 "Dependency Type"]
  +:+ String.concat EmptyString
        ((λ '(source_key, target_key, dep_type),
            csv_writerow
              [source_key; default EmptyString (keys_map !! source_key);
               target_key; default EmptyString (keys_map !! target_key);
               String dep_type EmptyString])
           <$> export_edges grid sorted_keys_list).

(** Lines 936-942: the colour, style and arrow head of an edge. *)
Definition dot_edge_attrs (dep_type : ascii) : string * string * string :=
  if decide (dep_type = ">"%char) then ("blue", "solid", "normal")
  else if decide (dep_type = "<"%char) then ("green", "solid", "oinv")
  else if decide (dep_type = "x"%char) then ("red", "dashed", "odot")
  else if decide (dep_type = "d"%char) then ("orange", "solid", "normal")
  else if decide (dep_type = "s"%char) then ("grey", "dotted", "normal")
  else if decide (dep_type = "S"%char) then ("dimgrey", "bold", "normal")
  else ("black", "solid", "normal").

(** Lines 923-947: the text of the DOT export. *)
Definition export_dot (keys_map grid : gmap string string)
    (sorted_keys_list : list string) : string :=
  "digraph Dependencies {" +:+ nl +:+ "  rankdir=LR;" +:+ nl
  +:+ "  node [shape=box, style=" +:+ dq +:+ "filled" +:+ dq
  +:+ ", fillcolor=" +:+ dq +:+ "#EFEFEF" +:+ dq
  +:+ ", fontname=" +:+ dq +:+ "Arial" +:+ dq +:+ "];" +:+ nl
  +:+ "  edge [fontsize=10, fontname=" +:+ dq +:+ "Arial" +:+ dq +:+ "];"
  +:+ nl +:+ nl
  +:+ String.concat EmptyString
        ((λ key,
            let label_path :=
              replace_char (ascii_of_N 34) ("\" +:+ dq)
                (replace_char "\"%char "/"
                   (basename (default EmptyString (keys_map !! key)))) in
            let label := key +:+ "\n" +:+ label_path in
            "  " +:+ dq +:+ key +:+ dq +:+ " [label=" +:+ dq +:+ label +:+ dq
            +:+ "];" +:+ nl) <$> sorted_keys_list)
  +:+ nl
  +:+ String.concat EmptyString
        ((λ '(source_key, target_key, dep_type),
            let '(color, style, arrowhead) := dot_edge_attrs dep_type in
            "  " +:+ dq +:+ source_key +:+ dq +:+ " -> "
            +:+ dq +:+ target_key +:+ dq
            +:+ " [label=" +:+ dq +:+ String dep_type EmptyString +:+ dq
            +:+ ", color=" +:+ dq +:+ color +:+ dq
            +:+ ", style=" +:+ dq +:+ style +:+ dq
            +:+ ", arrowhead=" +:+ dq +:+ arrowhead +:+ dq +:+ "];" +:+ nl)
           <$> export_edges grid sorted_keys_list)
  +:+ "}" +:+ nl.

(** What [export_tracker] returns: the path of the exported file, or one
    of its error messages, told apart by their fixed text. *)
Inductive Export :=
  | Exported (output_path : Path)
  | CannotExportEmpty
  | UnsupportedFormat
  | ExportIOError.

Definition export_tracker (w : World) (tracker_path : Path)
    (output_format : string) (output_path : option Path) : Export * World :=
  let tracker_data := read_tracker_file w tracker_path in
  if bool_decide (td_keys tracker_data = ∅) then (CannotExportEmpty, w)
  else
    let output_path :=
      match output_path with
      | None => (tracker_path.1,
                 splitext_root tracker_path.2 +:+ "_export." +:+ output_format)
      | Some output_path => output_path
      end in
    let w := makedirs output_path.1 w in
    let keys_map := td_keys tracker_data in
    let grid := td_grid tracker_data in
    let sorted_keys_list :=
      sort_key_strings_hierarchically (dict_keys keys_map) in
    let written (content : string) :=
      match write_file output_path content w with
      | Some w' => (Exported output_path, w')
      | None => (ExportIOError, w)
      end in
    if bool_decide (output_format = "md") then
      match files w !! tracker_path with
      | Some raw =>
          if bool_decide (output_path = tracker_path) then (ExportIOError, w)
          else written raw
      | None => (ExportIOError, w)
      end
    else if bool_decide (output_format = "json") then
      written (json_dump tracker_data)
    else if bool_decide (output_format = "csv") then
      written (export_csv keys_map grid sorted_keys_list)
    else if bool_decide (output_format = "dot") then
      written (export_dot keys_map grid sorted_keys_list)
    else (UnsupportedFormat, w).

(** ** Text that survives a round trip through a tracker file *)

(** A key as the line patterns read it: one or more alphanumeric
    characters. *)
Definition plain_key (k : string) : bool :=
  negb (bool_decide (k = EmptyString)) && forallb is_alnum (chars k).

(** No white space at either end, and not empty. *)
Definition trimmed (s : string) : bool :=
  match chars s with c :: _ => negb (is_space c) | [] => false end
  && match reverse (chars s) with c :: _ => negb (is_space c) | [] => false end.

(** A value that a line holds unchanged: trimmed, with no line boundary
    in it. *)
Definition plain_value (v : string) : bool :=
  forallb (λ c, negb (is_linebreak c)) (chars v) && trimmed v.

(** No line boundary in the text. *)
Definition single_line (l : string) : bool :=
  forallb (λ c, negb (is_linebreak c)) (chars l).

(** The lines, each ended by a line feed. *)
Definition unlines (ls : list string) : string :=
  String.concat EmptyString ((λ l, l +:+ nl) <$> ls).

(** Some end of the text is the marker, letter case apart. *)
Fixpoint has_suffix_ci (marker l : string) : bool :=
  bool_decide (lower l = lower marker)
  || match l with
     | String _ t => has_suffix_ci marker t
     | EmptyString => false
     end.

(** ** The tracker file format

    The format as the specification gives it (External interfaces): the
    key definition block with one [key: path] line per key, a blank line,
    the two audit lines, a blank line, and the grid block with its header
    line and one [key = encoded row] line per key.  The paths are the
    normalised ones. *)
Definition key_line (key_defs : gmap string string) (k : string) : string :=
  k +:+ ": " +:+ normalize_path (default EmptyString (key_defs !! k)).

Definition grid_line (final_grid : gmap string string) (k : string) : string :=
  k +:+ " = " +:+ default EmptyString (final_grid !! k).

Definition tracker_lines (key_defs final_grid : gmap string string)
    (keys : list string) (last_key_edit last_grid_edit : string)
  : list string :=
  ["---KEY_DEFINITIONS_START---"; "Key Definitions:"]
  ++ (key_line key_defs <$> keys)
  ++ ["---KEY_DEFINITIONS_END---"; EmptyString;
      "last_KEY_edit: " +:+ last_key_edit;
      "last_GRID_edit: " +:+ last_grid_edit; EmptyString;
      "---GRID_START---"; "X " +:+ join_with " " keys]
  ++ (grid_line final_grid <$> keys)
  ++ ["---GRID_END---"].

(* ================================================================== *)
(** * Properties *)

(** Propositional goals are closed without the collaborators in the
    context, so that no proof depends on one it does not need. *)
Local Ltac drop_collaborators :=
  repeat match goal with
    | H : string → bool |- _ => clear H
    | H : string → string |- _ => clear H
    | H : string → option string |- _ => clear H
    | H : string → option N |- _ => clear H
    | H : string → _ → option string |- _ => clear H
    | H : TrackerData → string |- _ => clear H
    | H : string |- _ => clear H
    | H : list string → string |- _ => clear H
    | H : Type |- _ => clear H
    | H : list string → list string |- _ => clear H
    | H : gmap string string → list string → bool |- _ => clear H
    | H : relation string |- _ => clear H
    | H : ∀ s, _ = Some s |- _ => clear H
    | H : ∀ keys, _ ≡ₚ keys |- _ => clear H
    | H : ∀ keys, StronglySorted _ _ |- _ => clear H
    | H : ∀ grid keys, _ = true ↔ _ |- _ => clear H
    | H : Transitive _ |- _ => clear H
    | H : AntiSymm _ _ |- _ => clear H
    end.

Local Ltac prop_solver := drop_collaborators; naive_solver.

(** The contract of the key ordering service: the sorted list is the
    permutation of its input that is ordered by one total order. *)
Variable key_le : relation string.
Hypothesis key_le_antisymm : AntiSymm (=) key_le.
Hypothesis sort_Permutation :
  ∀ keys, sort_key_strings_hierarchically keys ≡ₚ keys.
Hypothesis sort_StronglySorted :
  ∀ keys, StronglySorted key_le (sort_key_strings_hierarchically keys).

(** The contract of grid validation: it accepts the square grids. *)
Hypothesis validate_grid_square :
  ∀ grid keys, validate_grid grid keys = true ↔ square_over grid keys.

Lemma chars_join row : chars (join row) = row.
Proof. apply list_ascii_of_string_of_list_ascii. Qed.

Lemma join_chars s : join (chars s) = s.
Proof. apply string_of_list_ascii_of_string. Qed.

(** ** Index maps *)

Lemma list_index_Some k keys j :
  list_index k keys = Some j → keys !! j = Some k.
Proof.
  revert j. induction keys as [|k' ks IH]; intros j; simpl; [done|].
  case_decide as Hk.
  - intros [= <-]. by subst.
  - destruct (list_index k ks) as [j'|] eqn:E; simpl; [|done].
    intros [= <-]. simpl. by apply IH.
Qed.

Lemma list_index_None k keys : list_index k keys = None ↔ k ∉ keys.
Proof.
  induction keys as [|k' ks IH]; simpl.
  - split; [intros _; apply not_elem_of_nil | done].
  - case_decide as Hk.
    + subst. split; [done|]. intros Hn. exfalso. apply Hn. left.
    + destruct (list_index k ks) eqn:E; simpl.
      * split; [done|]. intros Hn. exfalso.
        assert (k ∈ ks) as Hin.
        { destruct (decide (k ∈ ks)) as [|Hno]; [done|].
          apply IH in Hno. done. }
        apply Hn. by right.
      * split; [|done]. intros _ Hin.
        apply elem_of_cons in Hin as [->|Hin]; [done|].
        by apply (proj1 IH).
Qed.

Lemma list_index_is_Some k keys : is_Some (list_index k keys) ↔ k ∈ keys.
Proof.
  rewrite <-not_eq_None_Some, list_index_None.
  split; [apply dec_stable | eauto].
Qed.

Lemma list_index_lookup keys j k :
  NoDup keys → keys !! j = Some k → list_index k keys = Some j.
Proof.
  intros Hnd. revert j. induction Hnd as [|k' ks Hnotin Hnd IH]; intros j; [done|].
  destruct j as [|j]; simpl.
  - intros [= ->]. by rewrite decide_True.
  - intros Hj. rewrite decide_False.
    + by rewrite (IH j Hj).
    + intros ->. apply Hnotin. by eapply list_elem_of_lookup_2.
Qed.

Lemma list_index_lt k keys j : list_index k keys = Some j → j < length keys.
Proof. intros H. apply list_index_Some in H. by eapply lookup_lt_Some. Qed.

Lemma key_to_idx_from_spec i keys m k :
  NoDup keys →
  key_to_idx_from i keys m !! k =
    match list_index k keys with
    | Some j => Some (i + j)
    | None => m !! k
    end.
Proof.
  intros Hnd. revert i m.
  induction Hnd as [|k' ks Hnotin Hnd IH]; intros i m; simpl; [done|].
  rewrite IH. case_decide as Hk.
  - subst. apply list_index_None in Hnotin. rewrite Hnotin.
    rewrite lookup_insert_eq. f_equal. lia.
  - destruct (list_index k ks) as [j|]; simpl.
    + f_equal. lia.
    + by rewrite lookup_insert_ne.
Qed.

Lemma key_to_idx_spec keys k :
  NoDup keys → key_to_idx keys !! k = list_index k keys.
Proof.
  intros Hnd. unfold key_to_idx. rewrite key_to_idx_from_spec by done.
  destruct (list_index k keys); [done|apply lookup_empty].
Qed.

(** ** Python list and loop primitives *)

Lemma list_set_Some {A} (l : list A) i x :
  i < length l → list_set l i x = Some (<[i:=x]> l).
Proof. intros. unfold list_set. by rewrite decide_True. Qed.

Lemma fresh_row_Some n i : i < n → fresh_row n i = Some (diag_row n i).
Proof. intros. unfold fresh_row. rewrite list_set_Some; [done|]. by rewrite length_replicate. Qed.

Lemma length_diag_row n i : length (diag_row n i) = n.
Proof. unfold diag_row. by rewrite length_insert, length_replicate. Qed.

Lemma diag_row_lookup n i j :
  j < n →
  diag_row n i !! j = Some (if decide (i = j) then DIAGONAL_CHAR else PLACEHOLDER_CHAR).
Proof.
  intros Hj. unfold diag_row. case_decide as Hij.
  - subst. rewrite list_lookup_insert_eq; [done|]. by rewrite length_replicate.
  - rewrite list_lookup_insert_ne by done. by apply lookup_replicate_2.
Qed.

(** ** [_merge_grids] *)

Lemma merge_init_from_spec n i keys g :
  NoDup keys → i + length keys ≤ n →
  ∃ g', merge_init_from n i keys g = Some g' ∧
    ∀ k, g' !! k = match list_index k keys with
                   | Some j => Some (diag_row n (i + j))
                   | None => g !! k
                   end.
Proof.
  intros Hnd. revert i g.
  induction Hnd as [|k' ks Hnotin Hnd IH]; intros i g Hlen; simpl in *.
  - by exists g.
  - rewrite fresh_row_Some by lia. simpl.
    destruct (IH (S i) (<[k':=diag_row n i]> g)) as (g' & -> & Hg'); [lia|].
    exists g'. split; [done|]. intros k. rewrite Hg'.
    case_decide as Hk.
    + subst. apply list_index_None in Hnotin. rewrite Hnotin.
      rewrite lookup_insert_eq. do 2 f_equal. lia.
    + destruct (list_index k ks) as [j|]; simpl.
      * do 2 f_equal. lia.
      * by rewrite lookup_insert_ne.
Qed.

Lemma safe_decompress_lookup grid_data keys_list k :
  safe_decompress grid_data keys_list !! k =
    (_ ← key_to_idx keys_list !! k;
     compressed ← grid_data !! k;
     s ← decompress compressed;
     if decide (length (chars s) = length keys_list) then Some (chars s) else None).
Proof.
  unfold safe_decompress. revert k.
  apply (map_fold_weak_ind (λ r m, ∀ k, r !! k =
    (_ ← key_to_idx keys_list !! k; compressed ← m !! k; s ← decompress compressed;
     if decide (length (chars s) = length keys_list) then Some (chars s) else None))).
  - intros k. rewrite lookup_empty. by destruct (key_to_idx keys_list !! k).
  - intros i x m r Hi IH k.
    destruct (decide (i = k)) as [->|Hne].
    + rewrite lookup_insert_eq.
      destruct (key_to_idx keys_list !! k) eqn:Ek; simpl.
      * destruct (decompress x) as [s|]; simpl.
        -- case_decide; [by rewrite lookup_insert_eq|].
           rewrite IH, Ek, Hi. done.
        -- rewrite IH, Ek, Hi. done.
      * rewrite IH, Ek. done.
    + rewrite (lookup_insert_ne m) by done.
      rewrite <-IH.
      destruct (key_to_idx keys_list !! i); [|done].
      destruct (decompress x); [|done].
      case_decide; [|done]. by rewrite lookup_insert_ne.
Qed.

Lemma source_val_spec grid keys r c :
  NoDup keys →
  source_val (safe_decompress grid keys) (key_to_idx keys) r c
  = grid_cell grid keys r c.
Proof.
  intros Hnd. unfold source_val, grid_cell, row_cell.
  rewrite safe_decompress_lookup, !key_to_idx_spec by done.
  destruct (list_index r keys); simpl; [|done].
  destruct (grid !! r) as [cr|]; simpl; [|done].
  destruct (decompress cr) as [s|]; simpl; [|done].
  case_decide; [|done].
  destruct (list_index c keys) as [ci|] eqn:Ec; simpl; [|done].
  case_decide as Hlt; [done|].
  symmetry. apply lookup_ge_None. lia.
Qed.

Section MergeLoops.

Variables primary_decomp secondary_decomp : gmap string (list ascii).
Variables k2p k2s : gmap string nat.
Variable merged_keys_list : list string.
Hypothesis merged_nodup : NoDup merged_keys_list.

Let n := length merged_keys_list.
Let k2m := key_to_idx merged_keys_list.
Let fv (r c : string) : ascii :=
  final_val (source_val primary_decomp k2p r c)
            (source_val secondary_decomp k2s r c).

Lemma k2m_lookup k : k2m !! k = list_index k merged_keys_list.
Proof using k2m merged_keys_list merged_nodup n. by apply key_to_idx_spec. Qed.

Lemma merge_cols_spec r ri cols g row :
  list_index r merged_keys_list = Some ri →
  cols ⊆ merged_keys_list →
  g !! r = Some row → length row = n →
  ∃ row',
    for_each (merge_cell primary_decomp secondary_decomp k2m k2p k2s r ri) cols g
      = Some (<[r:=row']> g)
    ∧ length row' = n
    ∧ ∀ j c, merged_keys_list !! j = Some c →
        row' !! j = if decide (c ∈ cols ∧ c ≠ r) then Some (fv r c) else row !! j.
Proof using PLACEHOLDER_CHAR fv k2m k2p k2s merged_keys_list merged_nodup n.
  intros Hri. revert g row.
  induction cols as [|c0 cs IH]; intros g row Hsub Hg Hlen; simpl.
  - exists row. rewrite insert_id by done. split_and!; [done..|].
    intros j c _. done.
  - assert (c0 ∈ merged_keys_list) as Hc0 by (apply Hsub; left).
    assert (cs ⊆ merged_keys_list) as Hcs by (intros x Hx; apply Hsub; by right).
    apply list_index_is_Some in Hc0 as [j0 Hj0].
    assert (j0 < length row) as Hj0lt.
    { apply list_index_lt in Hj0. fold n in Hj0. lia. }
    destruct (decide (ri = j0)) as [Hd|Hd].
    + assert (merge_cell primary_decomp secondary_decomp k2m k2p k2s r ri g c0
              = Some g) as ->.
      { unfold merge_cell. rewrite k2m_lookup, Hj0. simpl. by rewrite decide_True. }
      simpl. subst j0.
      assert (c0 = r) as ->.
      { apply list_index_Some in Hj0, Hri. congruence. }
      destruct (IH g row Hcs Hg Hlen) as (row' & -> & Hlen' & Hrow').
      exists row'. split_and!; [done..|].
      intros j c Hj. rewrite (Hrow' j c Hj).
      apply decide_ext. rewrite elem_of_cons. prop_solver.
    + assert (merge_cell primary_decomp secondary_decomp k2m k2p k2s r ri g c0
              = Some (<[r:=<[j0:=fv r c0]> row]> g)) as ->.
      { unfold merge_cell. rewrite k2m_lookup, Hj0. simpl.
        rewrite decide_False by done. rewrite Hg. simpl.
        by rewrite list_set_Some. }
      simpl.
      destruct (IH (<[r:=<[j0:=fv r c0]> row]> g) (<[j0:=fv r c0]> row) Hcs)
        as (row' & Hrun & Hlen' & Hrow').
      { by rewrite lookup_insert_eq. }
      { by rewrite length_insert. }
      exists row'. rewrite Hrun, insert_insert_eq.
      split_and!; [done..|].
      intros j c Hj. rewrite (Hrow' j c Hj).
      assert (c0 ≠ r) as Hc0r.
      { intros ->. congruence. }
      destruct (decide (c = c0)) as [->|Hcc0].
      * assert (j = j0) as ->.
        { pose proof (list_index_lookup _ _ _ merged_nodup Hj). congruence. }
        rewrite (decide_True (P:=c0 ∈ c0 :: cs ∧ c0 ≠ r)) by (split; [left|done]).
        case_decide; [done|].
        by apply list_lookup_insert_eq.
      * assert (j ≠ j0) as Hjj0.
        { intros ->. apply list_index_Some in Hj0. congruence. }
        rewrite list_lookup_insert_ne by done.
        apply decide_ext. rewrite elem_of_cons. prop_solver.
Qed.

Lemma merge_rows_spec rows g :
  rows ⊆ merged_keys_list →
  rows_of_width n merged_keys_list g →
  ∃ g',
    for_each (merge_row primary_decomp secondary_decomp k2m k2p k2s
                merged_keys_list) rows g = Some g'
    ∧ (∀ k, k ∉ merged_keys_list → g' !! k = g !! k)
    ∧ ∀ r row, r ∈ merged_keys_list → g !! r = Some row →
        ∃ row', g' !! r = Some row' ∧ length row' = n
          ∧ ∀ j c, merged_keys_list !! j = Some c →
              row' !! j =
                if decide (r ∈ rows ∧ c ≠ r) then Some (fv r c) else row !! j.
Proof using PLACEHOLDER_CHAR fv k2m k2p k2s merged_keys_list merged_nodup n.
  revert g. induction rows as [|r0 rs IH]; intros g Hsub Hwf; simpl.
  - exists g. split_and!; [done..|]. intros r row Hr Hg.
    destruct (Hwf r Hr) as (row0 & Hrow0 & Hlen0).
    exists row. split_and!; [done|congruence|].
    intros j c _. done.
  - assert (r0 ∈ merged_keys_list) as Hr0 by (apply Hsub; left).
    assert (rs ⊆ merged_keys_list) as Hrs by (intros x Hx; apply Hsub; by right).
    destruct (Hwf r0 Hr0) as (row0 & Hrow0 & Hlen0).
    pose proof Hr0 as Hr0'. apply list_index_is_Some in Hr0' as [ri0 Hri0].
    destruct (merge_cols_spec r0 ri0 merged_keys_list g row0 Hri0 (reflexivity _) Hrow0 Hlen0)
      as (row0' & Hrun & Hlen0' & Hcells0).
    assert (merge_row primary_decomp secondary_decomp k2m k2p k2s
              merged_keys_list g r0 = Some (<[r0:=row0']> g)) as ->.
    { unfold merge_row. rewrite k2m_lookup, Hri0. simpl. apply Hrun. }
    simpl.
    destruct (IH (<[r0:=row0']> g) Hrs) as (g' & Hrun' & Hout & Hg').
    { intros k Hk. destruct (decide (k = r0)) as [->|Hne].
      - exists row0'. by rewrite lookup_insert_eq.
      - rewrite lookup_insert_ne by done. by apply Hwf. }
    exists g'. split_and!; [done| |].
    { intros k Hk. rewrite Hout by done. apply lookup_insert_ne. by intros ->. }
    intros r row Hr Hg.
    destruct (decide (r = r0)) as [->|Hne].
    + destruct (Hg' r0 row0' Hr0) as (row' & Hrow' & Hlen' & Hcells').
      { by rewrite lookup_insert_eq. }
      exists row'. split_and!; [done..|].
      intros j c Hj. rewrite (Hcells' j c Hj), (Hcells0 j c Hj).
      assert (row = row0) as -> by congruence.
      assert (c ∈ merged_keys_list) as Hc by (by eapply list_elem_of_lookup_2).
      destruct (decide (c = r0)) as [->|Hcr].
      * rewrite !decide_False by prop_solver. done.
      * rewrite (decide_True (P:=c ∈ merged_keys_list ∧ c ≠ r0)) by done.
        rewrite (decide_True (P:=r0 ∈ r0 :: rs ∧ c ≠ r0)) by (split; [left|done]).
        by destruct (decide (r0 ∈ rs ∧ c ≠ r0)).
    + destruct (Hg' r row Hr) as (row' & Hrow' & Hlen' & Hcells').
      { by rewrite lookup_insert_ne. }
      exists row'. split_and!; [done..|].
      intros j c Hj. rewrite (Hcells' j c Hj).
      apply decide_ext. rewrite elem_of_cons. prop_solver.
Qed.

End MergeLoops.

Lemma merge_grids_rows pg sg pk sk mk :
  NoDup pk → NoDup sk → NoDup mk →
  ∃ mg, _merge_grids pg sg pk sk mk = Some mg
    ∧ (∀ k, k ∉ mk → mg !! k = None)
    ∧ ∀ r ri, list_index r mk = Some ri →
        ∃ row, mg !! r = Some (compress (join row))
          ∧ length row = length mk
          ∧ row !! ri = Some DIAGONAL_CHAR
          ∧ ∀ j c, mk !! j = Some c → c ≠ r →
              row !! j = Some (final_val (grid_cell pg pk r c) (grid_cell sg sk r c)).
Proof.
  intros Hp Hs Hm. unfold _merge_grids.
  destruct (merge_init_from_spec (length mk) 0 mk ∅ Hm) as (g0 & -> & Hg0); [lia|].
  simpl.
  destruct (merge_rows_spec (safe_decompress pg pk) (safe_decompress sg sk)
              (key_to_idx pk) (key_to_idx sk) mk Hm mk g0 (reflexivity _))
    as (g & -> & Hout & Hrows).
  { intros k Hk. apply list_index_is_Some in Hk as [j Hj].
    exists (diag_row (length mk) j). rewrite Hg0, Hj. by rewrite length_diag_row. }
  simpl. eexists. split_and!; [done| |].
  - intros k Hk. rewrite lookup_fmap, Hout, Hg0 by done.
    apply list_index_None in Hk. by rewrite Hk, lookup_empty.
  - intros r ri Hri.
    destruct (Hrows r (diag_row (length mk) ri)) as (row & Hrow & Hlen & Hcells).
    { apply list_index_is_Some. eauto. }
    { by rewrite Hg0, Hri. }
    exists row. rewrite lookup_fmap, Hrow. split_and!; [done..| |].
    + rewrite (Hcells ri r) by (by apply list_index_Some).
      rewrite decide_False by prop_solver.
      rewrite diag_row_lookup by (by eapply list_index_lt).
      by rewrite decide_True.
    + intros j c Hj Hc. rewrite (Hcells j c Hj).
      rewrite decide_True.
      * by rewrite !source_val_spec.
      * split; [|done]. apply list_index_is_Some. eauto.
Qed.

Lemma merge_grids_cell pg sg pk sk mk mg r c :
  NoDup pk → NoDup sk → NoDup mk →
  _merge_grids pg sg pk sk mk = Some mg →
  r ∈ mk → c ∈ mk → r ≠ c →
  grid_cell mg mk r c
  = Some (final_val (grid_cell pg pk r c) (grid_cell sg sk r c)).
Proof using DIAGONAL_CHAR PLACEHOLDER_CHAR compress decompress decompress_compress.
  intros Hp Hs Hm Hrun Hr Hc Hrc.
  destruct (merge_grids_rows pg sg pk sk mk Hp Hs Hm) as (mg' & Hrun' & _ & Hrows).
  assert (mg' = mg) as -> by congruence.
  apply list_index_is_Some in Hr as [ri Hri].
  apply list_index_is_Some in Hc as [ci Hci].
  destruct (Hrows r ri Hri) as (row & Hrow & Hlen & _ & Hcells).
  unfold grid_cell at 1, row_cell. rewrite Hri, Hrow. simpl.
  rewrite decompress_compress. simpl. rewrite chars_join, decide_True by done.
  rewrite Hci. simpl. apply Hcells; [by apply list_index_Some | congruence].
Qed.

(** C2 ([_merge_grids], lines 297-317).  For an off-diagonal pair of keys of
    the merged order, the merged cell is primary's relation when primary
    holds the pair with a value other than the placeholder; otherwise
    secondary's relation under the same condition; otherwise the
    placeholder.  In particular two different committed relations for one
    pair are resolved in favour of primary. *)
Theorem merge_grids_primary_precedence pg sg pk sk mk r c :
  NoDup pk → NoDup sk → NoDup mk →
  r ∈ mk → c ∈ mk → r ≠ c →
  ∃ mg, _merge_grids pg sg pk sk mk = Some mg
    ∧ (∀ v, grid_cell pg pk r c = Some v → v ≠ PLACEHOLDER_CHAR →
          grid_cell mg mk r c = Some v)
    ∧ (∀ w, grid_cell pg pk r c = None
            ∨ grid_cell pg pk r c = Some PLACEHOLDER_CHAR →
          grid_cell sg sk r c = Some w → w ≠ PLACEHOLDER_CHAR →
          grid_cell mg mk r c = Some w)
    ∧ (grid_cell pg pk r c = None
         ∨ grid_cell pg pk r c = Some PLACEHOLDER_CHAR →
       grid_cell sg sk r c = None
         ∨ grid_cell sg sk r c = Some PLACEHOLDER_CHAR →
       grid_cell mg mk r c = Some PLACEHOLDER_CHAR)
    ∧ (∀ v w, grid_cell pg pk r c = Some v → grid_cell sg sk r c = Some w →
          v ≠ PLACEHOLDER_CHAR → w ≠ PLACEHOLDER_CHAR → v ≠ w →
          grid_cell mg mk r c = Some v).
Proof using DIAGONAL_CHAR PLACEHOLDER_CHAR compress decompress decompress_compress.
  intros Hp Hs Hm Hr Hc Hrc.
  destruct (merge_grids_rows pg sg pk sk mk Hp Hs Hm) as (mg & Hrun & _).
  exists mg. split; [done|].
  rewrite (merge_grids_cell pg sg pk sk mk mg r c) by done.
  unfold final_val. split_and!.
  - intros v -> Hv. by rewrite decide_True.
  - intros w [->| ->] -> Hw.
    + by rewrite decide_True.
    + rewrite decide_False by (by intros ?). by rewrite decide_True.
  - intros [->| ->] [->| ->]; try done.
    + by rewrite decide_False by (by intros ?).
    + by rewrite decide_False by (by intros ?).
    + rewrite decide_False by (by intros ?). by rewrite decide_False by (by intros ?).
  - intros v w -> -> Hv _ _. by rewrite decide_True.
Qed.

(** ** [update_tracker]: rebuilding the grid *)

Section RebuildLoops.

Variables old_keys_list final_sorted_keys_list : list string.
Hypothesis old_nodup : NoDup old_keys_list.
Hypothesis final_nodup : NoDup final_sorted_keys_list.

Let n := length final_sorted_keys_list.
Let k2f := key_to_idx final_sorted_keys_list.

Lemma k2f_lookup k : k2f !! k = list_index k final_sorted_keys_list.
Proof using final_nodup final_sorted_keys_list k2f n. by apply key_to_idx_spec. Qed.

Lemma update_init_spec ks temp :
  ks ⊆ final_sorted_keys_list →
  ∃ temp', update_init n k2f ks temp = Some temp'
    ∧ ∀ k, temp' !! k =
        if decide (k ∈ ks)
        then i ← list_index k final_sorted_keys_list; Some (diag_row n i)
        else temp !! k.
Proof using DIAGONAL_CHAR PLACEHOLDER_CHAR final_nodup final_sorted_keys_list k2f n.
  revert temp. induction ks as [|k0 ks IH]; intros temp Hsub; simpl.
  - by exists temp.
  - assert (k0 ∈ final_sorted_keys_list) as Hk0 by (apply Hsub; left).
    assert (ks ⊆ final_sorted_keys_list) as Hks by (intros x Hx; apply Hsub; by right).
    apply list_index_is_Some in Hk0 as [i0 Hi0].
    rewrite k2f_lookup, Hi0.
    rewrite list_set_Some
      by (rewrite length_replicate; apply list_index_lt in Hi0; by fold n in Hi0).
    simpl. fold (diag_row n i0).
    destruct (IH (<[k0:=diag_row n i0]> temp) Hks) as (temp' & -> & Htemp').
    exists temp'. split; [done|]. intros k. rewrite Htemp'.
    destruct (decide (k = k0)) as [->|Hne].
    + rewrite (decide_True (P:=k0 ∈ k0 :: ks)) by left.
      case_decide; [done|]. by rewrite lookup_insert_eq, Hi0.
    + rewrite lookup_insert_ne by done.
      apply decide_ext. rewrite elem_of_cons. prop_solver.
Qed.

Lemma copy_cell_spec r ri off v0 temp row :
  list_index r final_sorted_keys_list = Some ri →
  temp !! r = Some row → length row = n →
  ∃ row1,
    copy_cell old_keys_list k2f r temp (off, v0) = Some (<[r:=row1]> temp)
    ∧ length row1 = n
    ∧ ∀ j c, final_sorted_keys_list !! j = Some c →
        row1 !! j =
          if decide (list_index c old_keys_list = Some off ∧ c ≠ r)
          then Some v0 else row !! j.
Proof using final_nodup final_sorted_keys_list k2f n old_keys_list old_nodup.
  intros Hri Htemp Hlen. unfold copy_cell.
  case_decide as Hoff.
  - destruct (lookup_lt_is_Some_2 _ _ Hoff) as [c0 Hc0]. rewrite Hc0. simpl.
    pose proof (list_index_lookup _ _ _ old_nodup Hc0) as Hc0i.
    rewrite k2f_lookup.
    destruct (list_index c0 final_sorted_keys_list) as [j0|] eqn:Hj0.
    + rewrite k2f_lookup, Hri. simpl.
      case_decide as Hd.
      * rewrite Htemp. simpl.
        assert (j0 < length row) as Hj0lt.
        { apply list_index_lt in Hj0. fold n in Hj0. lia. }
        rewrite list_set_Some by done. simpl.
        exists (<[j0:=v0]> row). split_and!; [done|by rewrite length_insert|].
        intros j c Hj.
        assert (c0 ≠ r) as Hc0r by (intros ->; congruence).
        destruct (decide (c = c0)) as [->|Hcc0].
        -- assert (j = j0) as ->.
           { pose proof (list_index_lookup _ _ _ final_nodup Hj). congruence. }
           rewrite decide_True by done. by apply list_lookup_insert_eq.
        -- assert (j ≠ j0) as Hjj0.
           { intros ->. apply list_index_Some in Hj0. congruence. }
           rewrite list_lookup_insert_ne by done.
           rewrite decide_False; [done|]. intros [Hi _].
           apply list_index_Some in Hi. congruence.
      * exists row. rewrite insert_id by done. split_and!; [done..|].
        intros j c Hj. rewrite decide_False; [done|]. intros [Hi Hcr].
        apply list_index_Some in Hi.
        assert (c = c0) as -> by congruence.
        subst j0. apply list_index_Some in Hj0, Hri. congruence.
    + exists row. rewrite insert_id by done. split_and!; [done..|].
      intros j c Hj. rewrite decide_False; [done|]. intros [Hi _].
      apply list_index_Some in Hi.
      assert (c = c0) as -> by congruence.
      apply list_index_None in Hj0. apply Hj0. by eapply list_elem_of_lookup_2.
  - exists row. rewrite insert_id by done. split_and!; [done..|].
    intros j c Hj. rewrite decide_False; [done|]. intros [Hi _].
    apply list_index_lt in Hi. lia.
Qed.

Lemma copy_cells_spec r ri l off temp row :
  list_index r final_sorted_keys_list = Some ri →
  temp !! r = Some row → length row = n →
  ∃ row',
    for_each_caught (copy_cell old_keys_list k2f r)
      (imap (λ i, pair (off + i)) l) temp = <[r:=row']> temp
    ∧ length row' = n
    ∧ ∀ j c, final_sorted_keys_list !! j = Some c →
        row' !! j =
          match list_index c old_keys_list with
          | Some i =>
              if decide (c ≠ r ∧ off ≤ i < off + length l)
              then l !! (i - off) else row !! j
          | None => row !! j
          end.
Proof using final_nodup final_sorted_keys_list k2f n old_keys_list old_nodup.
  intros Hri. revert off temp row.
  induction l as [|v0 l IH]; intros off temp row Htemp Hlen.
  - simpl. exists row. rewrite insert_id by done. split_and!; [done..|].
    intros j c _. destruct (list_index c old_keys_list); [|done].
    rewrite decide_False; [done|lia].
  - rewrite imap_cons. cbn [for_each_caught].
    destruct (copy_cell_spec r ri (off + 0) v0 temp row Hri Htemp Hlen)
      as (row1 & -> & Hlen1 & Hcells1).
    rewrite (imap_ext _ (λ i, pair (S off + i))) by (intros; simpl; f_equal; lia).
    destruct (IH (S off) (<[r:=row1]> temp) row1) as (row' & -> & Hlen' & Hcells').
    { by rewrite lookup_insert_eq. }
    { done. }
    exists row'. rewrite insert_insert_eq. split_and!; [done..|].
    intros j c Hj. rewrite (Hcells' j c Hj), (Hcells1 j c Hj). cbn [length].
    destruct (list_index c old_keys_list) as [i|] eqn:Hi.
    + destruct (decide (c = r)) as [->|Hcr].
      * rewrite !decide_False by prop_solver. done.
      * destruct (decide (i = off)) as [->|Hio].
        -- rewrite decide_False by lia.
           rewrite decide_True by (split; [f_equal; lia|done]).
           rewrite decide_True by (split; [done|lia]).
           by replace (off - off) with 0 by lia.
        -- rewrite (decide_False (P:=Some i = Some (off + 0) ∧ c ≠ r))
             by (intros [[=] _]; lia).
           destruct (decide (S off ≤ i < S off + length l)) as [Hin|Hout].
           ++ rewrite decide_True by done. rewrite decide_True by (split; [done|lia]).
              by replace (i - off) with (S (i - S off)) by lia.
           ++ rewrite decide_False by prop_solver.
              rewrite decide_False; [done|]. intros [_ ?]. lia.
    + rewrite decide_False; [done|]. by intros [? _].
Qed.

Lemma rebuild_rows_spec existing_grid temp0 :
  rows_of_width n final_sorted_keys_list temp0 →
  (∀ k, k ∉ final_sorted_keys_list →
     map_fold (copy_row old_keys_list k2f) temp0 existing_grid !! k = temp0 !! k)
  ∧ ∀ r row0, r ∈ final_sorted_keys_list → temp0 !! r = Some row0 →
      ∃ row,
        map_fold (copy_row old_keys_list k2f) temp0 existing_grid !! r = Some row
        ∧ length row = n
        ∧ ∀ j c, final_sorted_keys_list !! j = Some c →
            row !! j =
              match row_cell existing_grid old_keys_list r c with
              | Some v => if decide (c ≠ r) then Some v else row0 !! j
              | None => row0 !! j
              end.
Proof using decompress final_nodup final_sorted_keys_list k2f n old_keys_list old_nodup.
  intros Hwf.
  apply (map_fold_weak_ind (λ g m,
    (∀ k, k ∉ final_sorted_keys_list → g !! k = temp0 !! k)
    ∧ ∀ r row0, r ∈ final_sorted_keys_list → temp0 !! r = Some row0 →
        ∃ row, g !! r = Some row ∧ length row = n
          ∧ ∀ j c, final_sorted_keys_list !! j = Some c →
              row !! j =
                match row_cell m old_keys_list r c with
                | Some v => if decide (c ≠ r) then Some v else row0 !! j
                | None => row0 !! j
                end)).
  - split; [done|]. intros r row0 Hr Hrow0.
    destruct (Hwf r Hr) as (row & Hrow & Hlen).
    exists row0. split_and!; [done|congruence|].
    intros j c _. unfold row_cell. by rewrite lookup_empty.
  - intros i x m g Hmi [IHout IHrows]. unfold copy_row.
    rewrite k2f_lookup.
    destruct (list_index i final_sorted_keys_list) as [ri|] eqn:Hri.
    + assert (i ∈ final_sorted_keys_list) as Hi by (apply list_index_is_Some; eauto).
      destruct (Hwf i Hi) as (rowi0 & Hrowi0 & _).
      destruct (IHrows i rowi0 Hi Hrowi0) as (rowi & Hrowi & Hleni & Hcellsi).
      assert (∀ r c, r ≠ i → row_cell (<[i:=x]> m) old_keys_list r c
                             = row_cell m old_keys_list r c) as Hother.
      { intros r c Hne. unfold row_cell. by rewrite lookup_insert_ne. }
      assert (∀ j c, final_sorted_keys_list !! j = Some c → rowi !! j = rowi0 !! j)
        as Hrowi_init.
      { intros j c Hj. rewrite (Hcellsi j c Hj). unfold row_cell. by rewrite Hmi. }
      destruct (decompress x) as [s|] eqn:Hs.
      * case_decide as Hlen.
        -- destruct (copy_cells_spec i ri (chars s) 0 g rowi Hri Hrowi Hleni)
             as (row' & Hrun & Hlen' & Hcells').
           unfold enumerate.
           change (imap pair (chars s)) with (imap (λ i, pair (0 + i)) (chars s)).
           rewrite Hrun.
           split.
           ++ intros k Hk. rewrite lookup_insert_ne by (by intros ->). by apply IHout.
           ++ intros r row0 Hr Hrow0.
              destruct (decide (r = i)) as [->|Hne].
              ** exists row'. rewrite lookup_insert_eq. split_and!; [done..|].
                 intros j c Hj. rewrite (Hcells' j c Hj).
                 assert (row0 = rowi0) as -> by congruence.
                 unfold row_cell. rewrite lookup_insert_eq. simpl. rewrite Hs. simpl.
                 rewrite decide_True by done.
                 destruct (list_index c old_keys_list) as [ii|] eqn:Hii; simpl.
                 --- pose proof (list_index_lt _ _ _ Hii) as Hlt.
                     destruct (lookup_lt_is_Some_2 (chars s) ii) as [v Hv]; [lia|].
                     rewrite Hv. replace (ii - 0) with ii by lia.
                     destruct (decide (c = i)) as [->|Hci].
                     +++ rewrite !decide_False by prop_solver. by eapply Hrowi_init.
                     +++ rewrite decide_True by (split; [done|lia]).
                         by rewrite decide_True.
                 --- by eapply Hrowi_init.
              ** rewrite lookup_insert_ne by done.
                 destruct (IHrows r row0 Hr Hrow0) as (row & Hrow & Hlenr & Hcells).
                 exists row. split_and!; [done..|].
                 intros j c Hj. rewrite Hother by done. by apply Hcells.
        -- split; [done|]. intros r row0 Hr Hrow0.
           destruct (IHrows r row0 Hr Hrow0) as (row & Hrow & Hlenr & Hcells).
           exists row. split_and!; [done..|].
           intros j c Hj. rewrite (Hcells j c Hj).
           destruct (decide (r = i)) as [->|Hne]; [|by rewrite Hother].
           unfold row_cell. rewrite lookup_insert_eq, Hmi. simpl. rewrite Hs. simpl.
           by rewrite decide_False.
      * split; [done|]. intros r row0 Hr Hrow0.
        destruct (IHrows r row0 Hr Hrow0) as (row & Hrow & Hlenr & Hcells).
        exists row. split_and!; [done..|].
        intros j c Hj. rewrite (Hcells j c Hj).
        destruct (decide (r = i)) as [->|Hne]; [|by rewrite Hother].
        unfold row_cell. rewrite lookup_insert_eq, Hmi. simpl. by rewrite Hs.
    + split; [done|]. intros r row0 Hr Hrow0.
      destruct (IHrows r row0 Hr Hrow0) as (row & Hrow & Hlenr & Hcells).
      exists row. split_and!; [done..|].
      intros j c Hj. rewrite (Hcells j c Hj).
      assert (r ≠ i) as Hne.
      { intros ->. apply list_index_None in Hri. done. }
      unfold row_cell. by rewrite lookup_insert_ne.
Qed.

End RebuildLoops.

Lemma rebuild_grid_rows existing_grid old_keys_list final_sorted_keys_list :
  NoDup old_keys_list → NoDup final_sorted_keys_list →
  ∃ g, rebuild_grid existing_grid old_keys_list final_sorted_keys_list = Some g
    ∧ (∀ k, k ∉ final_sorted_keys_list → g !! k = None)
    ∧ ∀ r ri, list_index r final_sorted_keys_list = Some ri →
        ∃ row, g !! r = Some row
          ∧ length row = length final_sorted_keys_list
          ∧ row !! ri = Some DIAGONAL_CHAR
          ∧ ∀ j c, final_sorted_keys_list !! j = Some c → c ≠ r →
              row !! j = Some (default PLACEHOLDER_CHAR
                                 (row_cell existing_grid old_keys_list r c)).
Proof.
  intros Hold Hfinal. unfold rebuild_grid.
  destruct (update_init_spec final_sorted_keys_list Hfinal
              final_sorted_keys_list ∅ (reflexivity _)) as (temp0 & -> & Htemp0).
  simpl.
  assert (rows_of_width (length final_sorted_keys_list) final_sorted_keys_list temp0)
    as Hwf.
  { intros k Hk. rewrite Htemp0, decide_True by done.
    apply list_index_is_Some in Hk as [i ->]. simpl.
    eexists. split; [done|]. apply length_diag_row. }
  destruct (rebuild_rows_spec old_keys_list final_sorted_keys_list Hold Hfinal
              existing_grid temp0 Hwf) as [Hout Hrows].
  eexists. split_and!; [done| |].
  - intros k Hk. rewrite Hout, Htemp0 by done. by rewrite decide_False.
  - intros r ri Hri.
    assert (r ∈ final_sorted_keys_list) as Hr by (apply list_index_is_Some; eauto).
    destruct (Hrows r (diag_row (length final_sorted_keys_list) ri) Hr)
      as (row & Hrow & Hlen & Hcells).
    { rewrite Htemp0, decide_True by done. by rewrite Hri. }
    exists row. split_and!; [done..| |].
    + rewrite (Hcells ri r) by (by apply list_index_Some).
      rewrite diag_row_lookup by (by eapply list_index_lt).
      rewrite decide_True by done.
      destruct (row_cell existing_grid old_keys_list r r); [|done].
      by rewrite decide_False by prop_solver.
    + intros j c Hj Hc. rewrite (Hcells j c Hj).
      rewrite diag_row_lookup by (by eapply lookup_lt_Some).
      destruct (row_cell existing_grid old_keys_list r c); simpl.
      * by rewrite decide_True.
      * rewrite decide_False; [done|]. intros ->.
        apply list_index_Some in Hri. congruence.
Qed.

Lemma rebuild_grid_width existing_grid old_keys_list final_sorted_keys_list g :
  NoDup old_keys_list → NoDup final_sorted_keys_list →
  rebuild_grid existing_grid old_keys_list final_sorted_keys_list = Some g →
  rows_of_width (length final_sorted_keys_list) final_sorted_keys_list g.
Proof.
  intros Hold Hfinal Hrun k Hk.
  destruct (rebuild_grid_rows existing_grid _ _ Hold Hfinal) as (g' & Hrun' & _ & Hrows).
  assert (g' = g) as -> by congruence.
  apply list_index_is_Some in Hk as [i Hi].
  destruct (Hrows k i Hi) as (row & ? & ? & _). eauto.
Qed.

(** ** [update_tracker]: applying the suggestions *)

Lemma row_fills_refl row : row_fills row row.
Proof. by split. Qed.

Lemma row_fills_trans row1 row2 row3 :
  row_fills row1 row2 → row_fills row2 row3 → row_fills row1 row3.
Proof.
  intros [Hl12 H12] [Hl23 H23]. split; [congruence|].
  intros j v Hj Hv. apply H23; [|done]. by apply H12.
Qed.

Section Suggestions.

Variable final_sorted_keys_list : list string.
Hypothesis final_nodup : NoDup final_sorted_keys_list.

Let n := length final_sorted_keys_list.
Let k2f := key_to_idx final_sorted_keys_list.

Lemma apply_dep_fills row_key st dep :
  length (fill_row st) = n →
  ∃ st', apply_dep k2f row_key st dep = Some st'
    ∧ row_fills (fill_row st) (fill_row st').
Proof using DIAGONAL_CHAR PLACEHOLDER_CHAR final_nodup final_sorted_keys_list k2f n.
  intros Hlen. destruct dep as [col_key dep_char]. unfold apply_dep.
  rewrite (k2f_lookup final_sorted_keys_list final_nodup).
  destruct (list_index col_key final_sorted_keys_list) as [col_idx|] eqn:Hci;
    [|exists st; split; [done|apply row_fills_refl]].
  case_decide; [exists st; split; [done|apply row_fills_refl]|].
  assert (col_idx < length (fill_row st)) as Hlt.
  { apply list_index_lt in Hci. fold n in Hci. lia. }
  destruct (lookup_lt_is_Some_2 _ _ Hlt) as [existing_char Hex].
  rewrite Hex. simpl.
  case_decide as Hfill.
  - rewrite list_set_Some by done. simpl. eexists. split; [done|]. simpl.
    split; [by rewrite length_insert|].
    intros j v Hj Hv. destruct (decide (j = col_idx)) as [->|Hne].
    + destruct Hfill as [-> _]. congruence.
    + by rewrite list_lookup_insert_ne.
  - case_decide; (eexists; split; [done|apply row_fills_refl]).
Qed.

Lemma apply_deps_fills row_key deps st :
  length (fill_row st) = n →
  ∃ st', for_each (apply_dep k2f row_key) deps st = Some st'
    ∧ row_fills (fill_row st) (fill_row st').
Proof using DIAGONAL_CHAR PLACEHOLDER_CHAR final_nodup final_sorted_keys_list k2f n.
  revert st. induction deps as [|dep deps IH]; intros st Hlen.
  - exists st. split; [done|apply row_fills_refl].
  - cbn [for_each].
    destruct (apply_dep_fills row_key st dep Hlen) as (st1 & -> & Hfill1).
    simpl. destruct (IH st1) as (st' & -> & Hfill').
    { destruct Hfill1 as [-> _]. done. }
    exists st'. split; [done|]. by eapply row_fills_trans.
Qed.

Lemma grid_fills_refl g : grid_fills g g.
Proof. intros k row Hk. exists row. split; [done|apply row_fills_refl]. Qed.

Lemma grid_fills_trans g1 g2 g3 :
  grid_fills g1 g2 → grid_fills g2 g3 → grid_fills g1 g3.
Proof.
  intros H12 H23 k row Hk.
  destruct (H12 k row Hk) as (row2 & Hk2 & Hf2).
  destruct (H23 k row2 Hk2) as (row3 & Hk3 & Hf3).
  exists row3. split; [done|]. by eapply row_fills_trans.
Qed.

Lemma apply_row_deps_fills row_key deps gs :
  (∀ k row, gs_grid gs !! k = Some row → k ∈ final_sorted_keys_list → length row = n) →
  ∃ gs', apply_row_deps k2f row_key deps gs = Some gs'
    ∧ grid_fills (gs_grid gs) (gs_grid gs').
Proof using DIAGONAL_CHAR PLACEHOLDER_CHAR final_nodup final_sorted_keys_list k2f n.
  intros Hwf. unfold apply_row_deps.
  rewrite (k2f_lookup final_sorted_keys_list final_nodup).
  destruct (list_index row_key final_sorted_keys_list) as [ri|] eqn:Hri;
    [|exists gs; split; [done|apply grid_fills_refl]].
  destruct (gs_grid gs !! row_key) as [row|] eqn:Hrow;
    [|exists gs; split; [done|apply grid_fills_refl]].
  destruct row as [|x row]; [exists gs; split; [done|apply grid_fills_refl]|].
  destruct (apply_deps_fills row_key deps
              {| fill_row := x :: row; fill_applied := gs_applied gs;
                 fill_warnings := gs_warnings gs |}) as (st & -> & Hfill).
  { cbn [fill_row]. eapply Hwf; [done|]. apply list_index_is_Some. eauto. }
  simpl. eexists. split; [done|]. simpl.
  intros k rowk Hk. destruct (decide (k = row_key)) as [->|Hne].
  - rewrite lookup_insert_eq. exists (fill_row st). split; [done|].
    simpl in Hfill. congruence.
  - rewrite lookup_insert_ne by done. exists rowk. split; [done|apply row_fills_refl].
Qed.

Lemma apply_suggestions_fills suggestions g :
  rows_of_width n final_sorted_keys_list g →
  ∃ gs, apply_suggestions k2f suggestions g = Some gs
    ∧ grid_fills g (gs_grid gs).
Proof using DIAGONAL_CHAR PLACEHOLDER_CHAR final_nodup final_sorted_keys_list k2f n.
  intros Hwf. unfold apply_suggestions.
  apply (map_fold_weak_ind (λ acc (_ : gmap string (list (string * ascii))),
           ∃ gs, acc = Some gs ∧ grid_fills g (gs_grid gs))).
  - eexists. split; [done|]. apply grid_fills_refl.
  - intros row_key deps m acc _ (gs & -> & Hfill). simpl.
    destruct (apply_row_deps_fills row_key deps gs) as (gs' & -> & Hfill').
    + intros k row Hk Hin. destruct (Hwf k Hin) as (row0 & Hrow0 & Hlen0).
      destruct (Hfill k row0 Hrow0) as (row' & Hrow' & [Hl _]). congruence.
    + exists gs'. split; [done|]. by eapply grid_fills_trans.
Qed.

(** The row that a run of suggestions leaves does not depend on the flags
    and warnings carried along. *)
Lemma apply_dep_row row_key st st0 dep :
  fill_row st = fill_row st0 →
  fill_row <$> apply_dep k2f row_key st dep
  = fill_row <$> apply_dep k2f row_key st0 dep.
Proof.
  intros Hrow. destruct dep as [col_key dep_char]. unfold apply_dep.
  destruct (k2f !! col_key) as [col_idx|]; [|by simpl; f_equal].
  case_decide; [by simpl; f_equal|].
  rewrite Hrow. destruct (fill_row st0 !! col_idx) as [existing_char|]; [|done].
  simpl. case_decide.
  - by destruct (list_set (fill_row st0) col_idx dep_char).
  - case_decide; simpl; by f_equal.
Qed.

Lemma for_each_app {A S} (body : S → A → option S) l1 l2 s :
  for_each body (l1 ++ l2) s = s' ← for_each body l1 s; for_each body l2 s'.
Proof.
  revert s. induction l1 as [|x l1 IH]; intros s; simpl; [done|].
  destruct (body s x); simpl; [apply IH|done].
Qed.

Lemma apply_deps_row row_key deps st st0 :
  fill_row st = fill_row st0 →
  fill_row <$> for_each (apply_dep k2f row_key) deps st
  = fill_row <$> for_each (apply_dep k2f row_key) deps st0.
Proof.
  revert st st0. induction deps as [|dep deps IH]; intros st st0 Hrow;
    simpl; [by f_equal|].
  pose proof (apply_dep_row row_key st st0 dep Hrow) as Hstep.
  destruct (apply_dep k2f row_key st dep) as [st1|],
    (apply_dep k2f row_key st0 dep) as [st2|]; simpl in *; try done.
  apply IH. congruence.
Qed.

Lemma row_reached_app row_key row deps1 deps2 :
  row_reached k2f row_key row (deps1 ++ deps2)
  = current ← row_reached k2f row_key row deps1;
    row_reached k2f row_key current deps2.
Proof.
  unfold row_reached. rewrite for_each_app.
  destruct (for_each _ deps1 _) as [st|]; simpl; [|done].
  by apply apply_deps_row.
Qed.

Lemma row_reached_run row_key deps st :
  fill_row <$> for_each (apply_dep k2f row_key) deps st
  = row_reached k2f row_key (fill_row st) deps.
Proof. by apply apply_deps_row. Qed.

(** One suggestion on a placeholder cell, and on a cell that holds another
    symbol. *)
Lemma row_reached_fill row_key col_key col_idx dep_char current :
  list_index col_key final_sorted_keys_list = Some col_idx →
  row_key ≠ col_key →
  current !! col_idx = Some PLACEHOLDER_CHAR →
  row_reached k2f row_key current [(col_key, dep_char)]
  = Some (<[col_idx:=dep_char]> current).
Proof using DIAGONAL_CHAR PLACEHOLDER_CHAR final_nodup final_sorted_keys_list k2f n.
  intros Hc Hne Hcell. unfold row_reached. cbn [for_each]. unfold apply_dep.
  rewrite (k2f_lookup final_sorted_keys_list final_nodup), Hc.
  rewrite decide_False by done. cbn [fill_row]. rewrite Hcell. simpl.
  destruct (decide (dep_char = PLACEHOLDER_CHAR)) as [->|Hdep].
  - rewrite decide_False by prop_solver.
    rewrite decide_False by prop_solver. simpl. by rewrite list_insert_id.
  - rewrite decide_True by done.
    rewrite list_set_Some by (by eapply lookup_lt_Some). done.
Qed.

Lemma apply_dep_conflict row_key col_key col_idx dep_char st existing_char :
  list_index col_key final_sorted_keys_list = Some col_idx →
  row_key ≠ col_key →
  fill_row st !! col_idx = Some existing_char →
  existing_char ≠ PLACEHOLDER_CHAR → existing_char ≠ DIAGONAL_CHAR →
  existing_char ≠ dep_char →
  apply_dep k2f row_key st (col_key, dep_char)
  = Some {| fill_row := fill_row st; fill_applied := fill_applied st;
            fill_warnings := fill_warnings st ++
              [{| conflict_row := row_key; conflict_col := col_key;
                  conflict_existing := existing_char;
                  conflict_suggested := dep_char |}] |}.
Proof using DIAGONAL_CHAR PLACEHOLDER_CHAR final_nodup final_sorted_keys_list k2f n.
  intros Hc Hne Hcell Hp Hd Hs. unfold apply_dep.
  rewrite (k2f_lookup final_sorted_keys_list final_nodup), Hc.
  rewrite decide_False by done. rewrite Hcell. simpl.
  rewrite decide_False by prop_solver. by rewrite decide_True.
Qed.

Lemma row_reached_keep row_key col_key col_idx dep_char current existing_char :
  list_index col_key final_sorted_keys_list = Some col_idx →
  row_key ≠ col_key →
  current !! col_idx = Some existing_char →
  existing_char ≠ PLACEHOLDER_CHAR →
  row_reached k2f row_key current [(col_key, dep_char)] = Some current.
Proof using DIAGONAL_CHAR PLACEHOLDER_CHAR final_nodup final_sorted_keys_list k2f n.
  intros Hc Hne Hcell Hp. unfold row_reached. cbn [for_each]. unfold apply_dep.
  rewrite (k2f_lookup final_sorted_keys_list final_nodup), Hc.
  rewrite decide_False by done. cbn [fill_row]. rewrite Hcell. simpl.
  rewrite decide_False by prop_solver. by case_decide.
Qed.

(** Warnings are only ever added. *)
Lemma apply_dep_warnings row_key st dep st' :
  apply_dep k2f row_key st dep = Some st' →
  ∃ extra, fill_warnings st' = fill_warnings st ++ extra.
Proof.
  destruct dep as [col_key dep_char]. unfold apply_dep. intros Hrun.
  assert (st' = st → ∃ extra, fill_warnings st' = fill_warnings st ++ extra)
    as Hsame by (intros ->; exists []; by rewrite app_nil_r).
  destruct (k2f !! col_key) as [col_idx|]; [|apply Hsame; congruence].
  case_decide; [apply Hsame; congruence|].
  destruct (fill_row st !! col_idx) as [existing_char|]; [|done].
  simpl in Hrun. case_decide.
  - destruct (list_set (fill_row st) col_idx dep_char); [|done].
    injection Hrun as <-. exists []. by rewrite app_nil_r.
  - case_decide; [|apply Hsame; congruence].
    injection Hrun as <-. by eexists.
Qed.

Lemma apply_deps_warnings row_key deps st st' :
  for_each (apply_dep k2f row_key) deps st = Some st' →
  ∃ extra, fill_warnings st' = fill_warnings st ++ extra.
Proof.
  revert st. induction deps as [|dep deps IH]; intros st; simpl.
  - intros [= <-]. exists []. by rewrite app_nil_r.
  - destruct (apply_dep k2f row_key st dep) as [st1|] eqn:Hstep; [|done].
    simpl. intros Hrun.
    destruct (apply_dep_warnings _ _ _ _ Hstep) as [extra1 H1].
    destruct (IH _ Hrun) as [extra2 H2].
    exists (extra1 ++ extra2). by rewrite H2, H1, app_assoc.
Qed.

(** The suggestions of one row key, from a row of the final width: the
    loop ends, the row it leaves is the row reached at the end, a row
    reached on the way only gets filled further, and every conflict met on
    the way is among the warnings. *)
Lemma apply_deps_spec row_key deps st :
  length (fill_row st) = n →
  ∃ st', for_each (apply_dep k2f row_key) deps st = Some st'
    ∧ row_reached k2f row_key (fill_row st) deps = Some (fill_row st')
    ∧ length (fill_row st') = n
    ∧ (∃ extra, fill_warnings st' = fill_warnings st ++ extra)
    ∧ ∀ deps_before col_key dep_char deps_after col_idx,
        deps = deps_before ++ (col_key, dep_char) :: deps_after →
        list_index col_key final_sorted_keys_list = Some col_idx →
        row_key ≠ col_key →
        ∃ current,
          row_reached k2f row_key (fill_row st) deps_before = Some current
          ∧ length current = n
          ∧ (∀ after,
               row_reached k2f row_key current [(col_key, dep_char)]
                 = Some after →
               row_fills after (fill_row st'))
          ∧ ∀ existing_char,
              current !! col_idx = Some existing_char →
              existing_char ≠ PLACEHOLDER_CHAR →
              existing_char ≠ DIAGONAL_CHAR →
              existing_char ≠ dep_char →
              {| conflict_row := row_key; conflict_col := col_key;
                 conflict_existing := existing_char;
                 conflict_suggested := dep_char |} ∈ fill_warnings st'.
Proof using DIAGONAL_CHAR PLACEHOLDER_CHAR final_nodup final_sorted_keys_list k2f n.
  intros Hlen.
  destruct (apply_deps_fills row_key deps st Hlen) as (st' & Hrun & Hfill).
  exists st'. split; [done|].
  assert (row_reached k2f row_key (fill_row st) deps = Some (fill_row st'))
    as Hreached by (by rewrite <- row_reached_run, Hrun).
  split; [done|]. split; [destruct Hfill as [-> _]; done|].
  split; [by eapply apply_deps_warnings|].
  intros deps_before col_key dep_char deps_after col_idx -> Hc Hne.
  rewrite for_each_app in Hrun.
  destruct (apply_deps_fills row_key deps_before st Hlen)
    as (st1 & Hrun1 & Hfill1).
  rewrite Hrun1 in Hrun. cbn [mbind option_bind for_each] in Hrun.
  assert (length (fill_row st1) = n) as Hlen1
    by (destruct Hfill1 as [-> _]; done).
  destruct (apply_dep_fills row_key st1 (col_key, dep_char) Hlen1)
    as (st2 & Hrun2 & Hfill2).
  rewrite Hrun2 in Hrun. cbn [mbind option_bind] in Hrun.
  assert (length (fill_row st2) = n) as Hlen2
    by (destruct Hfill2 as [-> _]; done).
  destruct (apply_deps_fills row_key deps_after st2 Hlen2)
    as (st3 & Hrun3 & Hfill3).
  assert (st3 = st') as -> by congruence.
  exists (fill_row st1). split_and!.
  - by rewrite <- row_reached_run, Hrun1.
  - done.
  - intros after Hafter.
    rewrite <- row_reached_run in Hafter. cbn [for_each] in Hafter.
    rewrite Hrun2 in Hafter. simpl in Hafter. injection Hafter as <-. done.
  - intros existing_char Hcell Hp Hd Hs.
    rewrite (apply_dep_conflict row_key col_key col_idx dep_char st1
               existing_char) in Hrun2 by done.
    injection Hrun2 as <-.
    destruct (apply_deps_warnings _ _ _ _ Hrun3) as [extra ->].
    cbn [fill_warnings]. rewrite !elem_of_app, list_elem_of_singleton.
    left. by right.
Qed.

(** The whole loop over the suggestion dictionary: a row without
    suggestions is as it was, the row of a key with suggestions is the row
    reached at the end of its list, and every conflict met is among the
    warnings at the end. *)
Lemma apply_suggestions_rows suggestions g :
  rows_of_width n final_sorted_keys_list g →
  ∃ gs, apply_suggestions k2f suggestions g = Some gs
    ∧ (∀ k, suggestions !! k = None → gs_grid gs !! k = g !! k)
    ∧ ∀ row_key deps row,
        suggestions !! row_key = Some deps →
        row_key ∈ final_sorted_keys_list →
        g !! row_key = Some row →
        gs_grid gs !! row_key = row_reached k2f row_key row deps
        ∧ ∀ deps_before col_key dep_char deps_after col_idx current
            existing_char,
            deps = deps_before ++ (col_key, dep_char) :: deps_after →
            list_index col_key final_sorted_keys_list = Some col_idx →
            row_key ≠ col_key →
            row_reached k2f row_key row deps_before = Some current →
            current !! col_idx = Some existing_char →
            existing_char ≠ PLACEHOLDER_CHAR →
            existing_char ≠ DIAGONAL_CHAR →
            existing_char ≠ dep_char →
            {| conflict_row := row_key; conflict_col := col_key;
               conflict_existing := existing_char;
               conflict_suggested := dep_char |} ∈ gs_warnings gs.
Proof using DIAGONAL_CHAR PLACEHOLDER_CHAR final_nodup final_sorted_keys_list k2f n.
  intros Hwf. unfold apply_suggestions.
  apply (map_fold_weak_ind (λ acc (m : gmap string (list (string * ascii))),
    ∃ gs, acc = Some gs
      ∧ (∀ k, m !! k = None → gs_grid gs !! k = g !! k)
      ∧ ∀ row_key deps row,
          m !! row_key = Some deps →
          row_key ∈ final_sorted_keys_list →
          g !! row_key = Some row →
          gs_grid gs !! row_key = row_reached k2f row_key row deps
          ∧ ∀ deps_before col_key dep_char deps_after col_idx current
              existing_char,
              deps = deps_before ++ (col_key, dep_char) :: deps_after →
              list_index col_key final_sorted_keys_list = Some col_idx →
              row_key ≠ col_key →
              row_reached k2f row_key row deps_before = Some current →
              current !! col_idx = Some existing_char →
              existing_char ≠ PLACEHOLDER_CHAR →
              existing_char ≠ DIAGONAL_CHAR →
              existing_char ≠ dep_char →
              {| conflict_row := row_key; conflict_col := col_key;
                 conflict_existing := existing_char;
                 conflict_suggested := dep_char |} ∈ gs_warnings gs)).
  - eexists. split; [done|]. split; [done|].
    intros row_key deps row Hm. by rewrite lookup_empty in Hm.
  - intros i x m acc Hi (gs & -> & Hrest & Hdone). simpl.
    unfold apply_row_deps.
    rewrite (k2f_lookup final_sorted_keys_list final_nodup).
    destruct (list_index i final_sorted_keys_list) as [ri|] eqn:Hri.
    2:{ exists gs. split; [done|]. split.
        - intros k Hk. apply Hrest.
          apply lookup_insert_None in Hk as [? _]. done.
        - intros row_key deps row Hm Hin Hrow.
          destruct (decide (row_key = i)) as [->|Hne].
          + apply list_index_is_Some in Hin as [? ?]. congruence.
          + rewrite lookup_insert_ne in Hm by done. by apply Hdone. }
    assert (i ∈ final_sorted_keys_list) as Hin
      by (apply list_index_is_Some; eauto).
    destruct (Hwf i Hin) as (row & Hrow & Hlen).
    rewrite (Hrest i Hi), Hrow.
    destruct row as [|a row].
    { apply list_index_lt in Hri. simpl in Hlen. fold n in Hri. lia. }
    destruct (apply_deps_spec i x
                {| fill_row := a :: row; fill_applied := gs_applied gs;
                   fill_warnings := gs_warnings gs |} Hlen)
      as (st' & Hrun & Hreached & _ & [extra Hextra] & Hfacts).
    rewrite Hrun. simpl. eexists. split; [done|]. simpl. split.
    + intros k Hk. apply lookup_insert_None in Hk as [Hk Hne].
      rewrite lookup_insert_ne by done. by apply Hrest.
    + intros row_key deps row0 Hm Hin0 Hrow0.
      destruct (decide (row_key = i)) as [->|Hne].
      * rewrite lookup_insert_eq in Hm. injection Hm as <-.
        rewrite lookup_insert_eq.
        assert (row0 = a :: row) as -> by congruence.
        split; [done|].
        intros deps_before col_key dep_char deps_after col_idx current
          existing_char Hdeps Hc Hnec Hcur Hcell Hp Hd Hs.
        destruct (Hfacts deps_before col_key dep_char deps_after col_idx
                    Hdeps Hc Hnec) as (current' & Hcur' & _ & _ & Hwarn).
        cbn [fill_row] in Hcur'.
        assert (current' = current) as -> by congruence.
        by eapply Hwarn.
      * rewrite lookup_insert_ne in Hm by done.
        rewrite lookup_insert_ne by done.
        destruct (Hdone row_key deps row0 Hm Hin0 Hrow0) as [Hfinal Hwarn].
        split; [done|].
        intros deps_before col_key dep_char deps_after col_idx current
          existing_char Hdeps Hc Hnec Hcur Hcell Hp Hd Hs.
        rewrite Hextra. cbn [fill_warnings]. apply elem_of_app. left.
        by eapply Hwarn.
Qed.

End Suggestions.

Lemma diag_row_eq n ri row :
  ri < n → length row = n → row !! ri = Some DIAGONAL_CHAR →
  (∀ j, j < n → j ≠ ri → row !! j = Some PLACEHOLDER_CHAR) →
  row = diag_row n ri.
Proof.
  intros Hri Hlen Hd Hp. apply list_eq. intros j.
  destruct (decide (j < n)) as [Hj|Hj].
  - rewrite diag_row_lookup by done. case_decide; [by subst|]. apply Hp; [done|congruence].
  - rewrite !lookup_ge_None_2; [done|rewrite length_diag_row; lia|lia].
Qed.

Lemma rebuild_grid_fresh_row existing_grid old_keys_list final_sorted_keys_list g r ri :
  NoDup old_keys_list → NoDup final_sorted_keys_list →
  rebuild_grid existing_grid old_keys_list final_sorted_keys_list = Some g →
  list_index r final_sorted_keys_list = Some ri →
  existing_grid !! r = None →
  g !! r = Some (diag_row (length final_sorted_keys_list) ri).
Proof.
  intros Hold Hfinal Hrun Hri Hnone.
  destruct (rebuild_grid_rows existing_grid _ _ Hold Hfinal) as (g' & Hrun' & _ & Hrows).
  assert (g' = g) as -> by congruence.
  destruct (Hrows r ri Hri) as (row & Hrow & Hlen & Hdiag & Hcells).
  rewrite Hrow. f_equal. apply diag_row_eq; [by eapply list_index_lt|done..|].
  intros j Hj Hne.
  destruct (lookup_lt_is_Some_2 final_sorted_keys_list j Hj) as [c Hc].
  rewrite (Hcells j c Hc).
  - unfold row_cell. by rewrite Hnone.
  - intros ->. apply (list_index_lookup _ _ _ Hfinal) in Hc. congruence.
Qed.

(** C5 ([update_tracker], lines 798-824).  The rebuild is an
    index remap: a cell whose row and column keys are in the old and in the
    new key set keeps the symbol of the old row, when that row decodes to
    the old key count; a removed key has neither row nor column afterwards;
    the row of a key for which the old grid holds no row, as it is for a
    brand-new key of a tracker whose rows are keyed by its own keys, is a
    fresh row, placeholders with the diagonal symbol at its own index.  All
    rows are fresh when the old grid is empty, and when the old and new key
    sets are disjoint, whatever the old grid holds. *)
Theorem rebuild_grid_remaps_surviving_cells
    existing_grid old_keys_list final_sorted_keys_list :
  NoDup old_keys_list → NoDup final_sorted_keys_list →
  ∃ g, rebuild_grid existing_grid old_keys_list final_sorted_keys_list = Some g
    ∧ (∀ r c compressed s,
         r ∈ old_keys_list → r ∈ final_sorted_keys_list →
         c ∈ old_keys_list → c ∈ final_sorted_keys_list → r ≠ c →
         existing_grid !! r = Some compressed → decompress compressed = Some s →
         length (chars s) = length old_keys_list →
         is_Some (grid_cell existing_grid old_keys_list r c)
         ∧ decomp_cell g final_sorted_keys_list r c
           = grid_cell existing_grid old_keys_list r c)
    ∧ (∀ k, k ∈ old_keys_list → k ∉ final_sorted_keys_list →
         g !! k = None
         ∧ (∀ r row, g !! r = Some row →
              length row = length final_sorted_keys_list)
         ∧ ∀ x, decomp_cell g final_sorted_keys_list k x = None
                ∧ decomp_cell g final_sorted_keys_list x k = None)
    ∧ (∀ r ri, list_index r final_sorted_keys_list = Some ri →
         existing_grid !! r = None →
         g !! r = Some (diag_row (length final_sorted_keys_list) ri))
    ∧ (existing_grid = ∅ →
       ∀ r ri, list_index r final_sorted_keys_list = Some ri →
         g !! r = Some (diag_row (length final_sorted_keys_list) ri))
    ∧ ((∀ k, k ∈ old_keys_list → k ∉ final_sorted_keys_list) →
       ∀ r ri, list_index r final_sorted_keys_list = Some ri →
         g !! r = Some (diag_row (length final_sorted_keys_list) ri)).
Proof.
  intros Hold Hfinal.
  destruct (rebuild_grid_rows existing_grid _ _ Hold Hfinal) as (g & Hrun & Hout & Hrows).
  exists g. split_and!; [done|..].
  - intros r c compressed s Hro Hrf Hco Hcf Hrc Hrow Hs Hlen.
    apply list_index_is_Some in Hro as [roi Hroi].
    apply list_index_is_Some in Hrf as [ri Hri].
    apply list_index_is_Some in Hco as [coi Hcoi].
    apply list_index_is_Some in Hcf as [ci Hci].
    assert (coi < length (chars s)) as Hlt by (apply list_index_lt in Hcoi; lia).
    destruct (lookup_lt_is_Some_2 _ _ Hlt) as [v Hv].
    assert (row_cell existing_grid old_keys_list r c = Some v) as Hcell.
    { unfold row_cell. rewrite Hrow. simpl. rewrite Hs. simpl.
      rewrite decide_True by done. by rewrite Hcoi. }
    unfold grid_cell. rewrite Hroi. simpl. rewrite Hcell. split; [eauto|].
    destruct (Hrows r ri Hri) as (row & Hg & _ & _ & Hcells).
    unfold decomp_cell. rewrite Hg. simpl. rewrite Hci. simpl.
    rewrite (Hcells ci c) by (by apply list_index_Some || congruence).
    by rewrite Hcell.
  - intros k Hko Hkf. split_and!; [by apply Hout| |].
    + intros r row Hr.
      destruct (list_index r final_sorted_keys_list) as [ri|] eqn:Hri.
      * destruct (Hrows r ri Hri) as (row' & Hg & Hlen & _). congruence.
      * apply list_index_None in Hri. rewrite Hout in Hr by done. done.
    + intros x. unfold decomp_cell. rewrite Hout by done. split; [done|].
      apply list_index_None in Hkf. rewrite Hkf.
      by destruct (g !! x).
  - intros r ri Hri Hnone.
    by apply (rebuild_grid_fresh_row existing_grid old_keys_list
                final_sorted_keys_list g r ri).
  - intros Hempty r ri Hri.
    apply (rebuild_grid_fresh_row existing_grid old_keys_list
             final_sorted_keys_list g r ri); [done..|].
    rewrite Hempty. apply lookup_empty.
  - intros Hdisj r ri Hri.
    destruct (Hrows r ri Hri) as (row & Hrow & Hlen & Hdiag & Hcells).
    rewrite Hrow. f_equal.
    apply diag_row_eq; [by eapply list_index_lt|done..|].
    intros j Hj Hne.
    destruct (lookup_lt_is_Some_2 final_sorted_keys_list j Hj) as [c Hc].
    rewrite (Hcells j c Hc).
    2:{ intros ->. apply (list_index_lookup _ _ _ Hfinal) in Hc. congruence. }
    assert (list_index c old_keys_list = None) as Hnot.
    { apply list_index_None. intros Hin. apply (Hdisj c Hin).
      by eapply list_elem_of_lookup_2. }
    unfold row_cell. destruct (existing_grid !! r) as [compressed|]; [|done].
    simpl. destruct (decompress compressed) as [s|]; [|done]. simpl.
    case_decide; [|done]. by rewrite Hnot.
Qed.

(** C1 ([update_tracker], lines 826-846).  The loop over the suggestions,
    run on a grid whose rows have the final width (the rebuilt grid of
    lines 806-824 is one), ends without an exception, and no cell that
    holds anything but the placeholder changes.  For every suggestion
    [(row_key, col_key, dep_char)] of the dictionary with both keys in the
    final grid and [row_key ≠ col_key], [current] being the row of
    [row_key] when the loop reaches the suggestion: if the cell holds the
    placeholder the suggestion sets it to exactly [dep_char], and the
    symbol is the one the grid holds when the loop is through; if the cell
    holds a committed symbol (neither placeholder nor diagonal) other than
    [dep_char], the row is left as it is, the grid holds that symbol when
    the loop is through, and the conflict is among the warnings. *)
Theorem apply_suggestions_monotone_fill final_sorted_keys_list suggestions g :
  NoDup final_sorted_keys_list →
  rows_of_width (length final_sorted_keys_list) final_sorted_keys_list g →
  ∃ gs,
    apply_suggestions (key_to_idx final_sorted_keys_list) suggestions g
      = Some gs
    ∧ (∀ r c v,
         decomp_cell g final_sorted_keys_list r c = Some v →
         v ≠ PLACEHOLDER_CHAR →
         decomp_cell (gs_grid gs) final_sorted_keys_list r c = Some v)
    ∧ ∀ row_key deps_before col_key dep_char deps_after col_idx,
        suggestions !! row_key
          = Some (deps_before ++ (col_key, dep_char) :: deps_after) →
        row_key ∈ final_sorted_keys_list →
        list_index col_key final_sorted_keys_list = Some col_idx →
        row_key ≠ col_key →
        ∃ row current,
          g !! row_key = Some row
          ∧ row_reached (key_to_idx final_sorted_keys_list) row_key row
              deps_before = Some current
          ∧ (current !! col_idx = Some PLACEHOLDER_CHAR →
               row_reached (key_to_idx final_sorted_keys_list) row_key row
                 (deps_before ++ [(col_key, dep_char)])
               = Some (<[col_idx:=dep_char]> current)
               ∧ (dep_char ≠ PLACEHOLDER_CHAR →
                    decomp_cell (gs_grid gs) final_sorted_keys_list
                      row_key col_key = Some dep_char))
          ∧ ∀ existing_char,
              current !! col_idx = Some existing_char →
              existing_char ≠ PLACEHOLDER_CHAR →
              existing_char ≠ DIAGONAL_CHAR →
              existing_char ≠ dep_char →
              row_reached (key_to_idx final_sorted_keys_list) row_key row
                (deps_before ++ [(col_key, dep_char)]) = Some current
              ∧ decomp_cell (gs_grid gs) final_sorted_keys_list
                  row_key col_key = Some existing_char
              ∧ {| conflict_row := row_key; conflict_col := col_key;
                   conflict_existing := existing_char;
                   conflict_suggested := dep_char |} ∈ gs_warnings gs.
Proof.
  intros Hfinal Hwf.
  destruct (apply_suggestions_fills final_sorted_keys_list Hfinal suggestions
              g Hwf) as (gs & Hrun & Hfill).
  destruct (apply_suggestions_rows final_sorted_keys_list Hfinal suggestions
              g Hwf) as (gs' & Hrun' & _ & Hrows).
  assert (gs' = gs) as -> by congruence.
  exists gs. split; [done|]. split.
  { intros r c v Hcell Hv. unfold decomp_cell in *.
    destruct (g !! r) as [row|] eqn:Hrow; [|done]. simpl in Hcell.
    destruct (Hfill r row Hrow) as (row' & -> & _ & Hkeep). simpl.
    destruct (list_index c final_sorted_keys_list) as [ci|]; [|done].
    simpl in *. by apply Hkeep. }
  intros row_key deps_before col_key dep_char deps_after col_idx
    Hdeps Hin Hc Hne.
  destruct (Hwf row_key Hin) as (row & Hrow & Hlen).
  destruct (Hrows row_key _ row Hdeps Hin Hrow) as [Hgrid Hwarn].
  destruct (apply_deps_spec final_sorted_keys_list Hfinal row_key
              (deps_before ++ (col_key, dep_char) :: deps_after)
              {| fill_row := row; fill_applied := false;
                 fill_warnings := [] |} Hlen)
    as (st' & _ & Hreached & _ & _ & Hfacts).
  cbn [fill_row] in Hreached, Hfacts.
  destruct (Hfacts deps_before col_key dep_char deps_after col_idx
              eq_refl Hc Hne) as (current & Hcur & Hlenc & Hafter & _).
  rewrite Hreached in Hgrid.
  assert (∀ after v,
            row_reached (key_to_idx final_sorted_keys_list) row_key current
              [(col_key, dep_char)] = Some after →
            after !! col_idx = Some v → v ≠ PLACEHOLDER_CHAR →
            decomp_cell (gs_grid gs) final_sorted_keys_list row_key col_key
            = Some v) as Hcell.
  { intros after v Hstep Hv Hp. unfold decomp_cell.
    rewrite Hgrid, Hc. simpl.
    destruct (Hafter after Hstep) as [_ Hkeep]. by apply Hkeep. }
  exists row, current. split_and!; [done..| |].
  - intros Hp.
    pose proof (row_reached_fill final_sorted_keys_list Hfinal row_key col_key
                  col_idx dep_char current Hc Hne Hp) as Hstep.
    split.
    + rewrite (row_reached_app final_sorted_keys_list), Hcur. done.
    + intros Hdep. apply (Hcell _ dep_char Hstep); [|done].
      apply list_lookup_insert_eq. by eapply lookup_lt_Some.
  - intros existing_char Hex Hp Hd Hs.
    pose proof (row_reached_keep final_sorted_keys_list Hfinal row_key col_key
                  col_idx dep_char current existing_char Hc Hne Hex Hp)
      as Hstep.
    split_and!.
    + rewrite (row_reached_app final_sorted_keys_list), Hcur. done.
    + by apply (Hcell _ existing_char Hstep).
    + by eapply Hwarn.
Qed.

(** ** The canonical key order *)

Lemma dict_keys_elem {V} (d : gmap string V) k : k ∈ dict_keys d ↔ is_Some (d !! k).
Proof.
  unfold dict_keys. rewrite list_elem_of_fmap. split.
  - intros ([k' v] & -> & Hin). apply elem_of_map_to_list in Hin. eauto.
  - intros [v Hv]. exists (k, v). split; [done|]. by apply elem_of_map_to_list.
Qed.

Lemma dict_keys_NoDup {V} (d : gmap string V) : NoDup (dict_keys d).
Proof. apply NoDup_fst_map_to_list. Qed.

Lemma dict_keys_length {V} (d : gmap string V) : length (dict_keys d) = size d.
Proof. unfold dict_keys. by rewrite length_fmap, length_map_to_list. Qed.

Lemma sorted_keys_NoDup key_defs : NoDup (sorted_keys key_defs).
Proof using sort_Permutation sort_key_strings_hierarchically.
  unfold sorted_keys. rewrite sort_Permutation. apply dict_keys_NoDup.
Qed.

Lemma sorted_keys_elem key_defs k :
  k ∈ sorted_keys key_defs ↔ is_Some (key_defs !! k).
Proof using sort_Permutation sort_key_strings_hierarchically. unfold sorted_keys. by rewrite sort_Permutation, dict_keys_elem. Qed.

Lemma sorted_keys_length key_defs : length (sorted_keys key_defs) = size key_defs.
Proof using sort_Permutation sort_key_strings_hierarchically. unfold sorted_keys. by rewrite sort_Permutation, dict_keys_length. Qed.

(** ** [write_tracker_file] *)

Lemma fix_row_spec grid n keys k i :
  NoDup keys → n = length keys → list_index k keys = Some i →
  ∃ row, fix_row grid n (key_to_idx keys) k = Some (compress (join row))
    ∧ length row = n
    ∧ ((∃ compressed s, grid !! k = Some compressed
          ∧ decompress compressed = Some s
          ∧ length (chars s) = n ∧ row = chars s)
       ∨ row = diag_row n i).
Proof.
  intros Hnd -> Hi. unfold fix_row.
  rewrite key_to_idx_spec, Hi by done.
  assert (list_set (replicate (length keys) PLACEHOLDER_CHAR) i DIAGONAL_CHAR
          = Some (diag_row (length keys) i)) as Hset.
  { apply fresh_row_Some. by eapply list_index_lt. }
  destruct (grid !! k) as [compressed|] eqn:Hk.
  - destruct (decompress compressed) as [s|] eqn:Hs.
    + case_decide as Hlen.
      * simpl. exists (chars s). split_and!; [done..|]. left.
        exists compressed, s. done.
      * rewrite Hset. simpl. eexists. split_and!; [done|apply length_diag_row|by right].
    + rewrite Hset. simpl. eexists. split_and!; [done|apply length_diag_row|by right].
  - rewrite Hset. simpl. eexists. split_and!; [done|apply length_diag_row|by right].
Qed.

Lemma fix_grid_from_spec grid keys ks fg :
  NoDup keys → ks ⊆ keys →
  ∃ fg', fix_grid_from grid (length keys) (key_to_idx keys) ks fg = Some fg'
    ∧ ∀ k, fg' !! k =
        if decide (k ∈ ks) then fix_row grid (length keys) (key_to_idx keys) k
        else fg !! k.
Proof.
  intros Hnd. revert fg. induction ks as [|k0 ks IH]; intros fg Hsub.
  - exists fg. split; [done|]. intros k. by rewrite decide_False by apply not_elem_of_nil.
  - assert (k0 ∈ keys) as Hk0 by (apply Hsub; left).
    assert (ks ⊆ keys) as Hks by (intros x Hx; apply Hsub; by right).
    apply list_index_is_Some in Hk0 as [i0 Hi0].
    destruct (fix_row_spec grid (length keys) keys k0 i0 Hnd eq_refl Hi0)
      as (row & Hrow & _).
    cbn [fix_grid_from]. rewrite Hrow. simpl.
    destruct (IH (<[k0:=compress (join row)]> fg) Hks) as (fg' & -> & Hfg').
    exists fg'. split; [done|]. intros k. rewrite Hfg'.
    destruct (decide (k = k0)) as [->|Hne].
    + rewrite (decide_True (P:=k0 ∈ k0 :: ks)) by left.
      case_decide; [done|]. by rewrite lookup_insert_eq.
    + rewrite lookup_insert_ne by done.
      apply decide_ext. rewrite elem_of_cons. prop_solver.
Qed.

Lemma fix_grid_spec grid keys :
  NoDup keys →
  ∃ fg, fix_grid grid keys = Some fg
    ∧ (∀ k, k ∉ keys → fg !! k = None)
    ∧ ∀ k, k ∈ keys →
        fg !! k = fix_row grid (length keys) (key_to_idx keys) k.
Proof.
  intros Hnd. unfold fix_grid.
  destruct (fix_grid_from_spec grid keys keys ∅ Hnd (reflexivity _)) as (fg & -> & Hfg).
  exists fg. split_and!; [done|..].
  - intros k Hk. by rewrite Hfg, decide_False.
  - intros k Hk. by rewrite Hfg, decide_True.
Qed.

Lemma fix_grid_square grid keys fg :
  NoDup keys → square_over grid keys →
  fix_grid grid keys = Some fg →
  square_over fg keys
  ∧ ∀ k, k ∈ keys →
      ∃ compressed s, grid !! k = Some compressed
        ∧ decompress compressed = Some s ∧ fg !! k = Some (compress s).
Proof using DIAGONAL_CHAR PLACEHOLDER_CHAR compress decompress decompress_compress.
  intros Hnd Hsq Hfix.
  destruct (fix_grid_spec grid keys Hnd) as (fg' & Hfix' & _ & Hrows).
  assert (fg' = fg) as -> by congruence.
  assert (∀ i k, keys !! i = Some k →
            ∃ compressed s, grid !! k = Some compressed
              ∧ decompress compressed = Some s
              ∧ length (chars s) = length keys
              ∧ chars s !! i = Some DIAGONAL_CHAR
              ∧ fg !! k = Some (compress s)) as Hall.
  { intros i k Hik.
    destruct (Hsq i k Hik) as (compressed & s & Hk & Hs & Hlen & Hdiag).
    exists compressed, s. split_and!; [done..|].
    rewrite Hrows by (by eapply list_elem_of_lookup_2).
    unfold fix_row. rewrite Hk, Hs, decide_True by done. simpl.
    by rewrite join_chars. }
  split.
  - intros i k Hik.
    destruct (Hall i k Hik) as (compressed & s & _ & _ & Hlen & Hdiag & Hfg).
    exists (compress s), s. by rewrite decompress_compress.
  - intros k Hk. apply list_elem_of_lookup in Hk as [i Hik].
    destruct (Hall i k Hik) as (compressed & s & ? & ? & _ & _ & ?). eauto.
Qed.

(** C7 ([write_tracker_file], lines 156-166).  When validation of the grid
    fails the call returns [False] and no file has changed: the tracker
    file holds what it held, byte for byte, because the file is opened only
    after validation. *)
Theorem write_tracker_file_validation_failure w tracker_path key_defs_to_write
    grid_to_write last_key_edit last_grid_edit :
  validate_grid grid_to_write (sorted_keys key_defs_to_write) = false →
  (write_tracker_file w tracker_path key_defs_to_write grid_to_write
     last_key_edit last_grid_edit).1 = false
  ∧ files (write_tracker_file w tracker_path key_defs_to_write grid_to_write
             last_key_edit last_grid_edit).2 = files w
  ∧ files (write_tracker_file w tracker_path key_defs_to_write grid_to_write
             last_key_edit last_grid_edit).2 !! tracker_path
    = files w !! tracker_path.
Proof.
  intros Hval. unfold write_tracker_file.
  fold (sorted_keys key_defs_to_write). by rewrite Hval.
Qed.

(** ** [backup_tracker_file]: what a backup leaves alone *)

Lemma strip_prefix_longer s c t : strip_prefix (s +:+ String c t) s = None.
Proof.
  induction s as [|a s IH]; simpl; [done|]. by rewrite decide_True.
Qed.

Lemma strip_prefix_refl s : strip_prefix s s = Some EmptyString.
Proof.
  induction s as [|a s IH]; simpl; [done|]. by rewrite decide_True.
Qed.

Lemma startswith_longer s c t : startswith s (s +:+ String c t) = false.
Proof.
  unfold startswith. rewrite strip_prefix_longer.
  apply bool_decide_eq_false. by intros [? ?].
Qed.

Lemma backup_name_ne base_name timestamp : backup_name base_name timestamp ≠ base_name.
Proof.
  intros Heq.
  assert (strip_prefix (base_name +:+ String "."%char (timestamp +:+ ".bak"))
            base_name = None) as Hn by apply strip_prefix_longer.
  change (base_name +:+ String "."%char (timestamp +:+ ".bak"))
    with (backup_name base_name timestamp) in Hn.
  rewrite Heq in Hn. by rewrite strip_prefix_refl in Hn.
Qed.

Lemma insert_desc_Permutation {A} (x : N * A) l : insert_desc x l ≡ₚ x :: l.
Proof.
  induction l as [|y l IH]; simpl; [done|].
  destruct (y.1 <=? x.1)%N; [done|]. rewrite IH. apply Permutation_swap.
Qed.

Lemma sort_desc_Permutation {A} (l : list (N * A)) : sort_desc l ≡ₚ l.
Proof.
  induction l as [|x l IH]; simpl; [done|].
  by rewrite insert_desc_Permutation, IH.
Qed.

Lemma backup_entry_Some base_name filename t path :
  backup_entry base_name filename = Some (t, path) →
  path = (backup_dir, filename)
  ∧ startswith filename (base_name +:+ ".") = true.
Proof.
  unfold backup_entry.
  destruct (startswith filename (base_name +:+ ".")); simpl; [|done].
  destruct (endswith filename ".bak"); simpl; [|done].
  destruct (backup_timestamp_str filename); simpl; [|done].
  destruct (strptime _); simpl; [|done].
  by intros [= <- <-].
Qed.

Lemma backup_files_of_elem base_name w t path :
  (t, path) ∈ backup_files_of base_name w →
  ∃ filename, path = (backup_dir, filename)
    ∧ startswith filename (base_name +:+ ".") = true
    ∧ is_Some (files w !! path).
Proof.
  unfold backup_files_of. rewrite list_elem_of_omap.
  intros (filename & Hin & Hentry).
  apply backup_entry_Some in Hentry as [-> Hstart].
  exists filename. split_and!; [done..|].
  unfold listdir in Hin. apply list_elem_of_omap in Hin as ([d fn] & Hin & Hsome).
  simpl in Hsome. case_decide; [|done]. simplify_eq.
  apply list_elem_of_fmap in Hin as ([q content] & -> & Hin).
  apply elem_of_map_to_list in Hin. simpl. eauto.
Qed.

Lemma remove_logged_readonly w entry :
  readonly (remove_logged w entry) = readonly w.
Proof.
  unfold remove_logged, remove_file.
  case_decide; [done|]. by destruct (files w !! entry.2).
Qed.

Lemma remove_logged_lookup_ne w entry q :
  entry.2 ≠ q → files (remove_logged w entry) !! q = files w !! q.
Proof.
  intros Hne. unfold remove_logged, remove_file.
  case_decide; [done|]. destruct (files w !! entry.2); [|done].
  simpl. by rewrite lookup_delete_ne.
Qed.

Lemma remove_all_readonly entries w :
  readonly (foldl remove_logged w entries) = readonly w.
Proof.
  revert w. induction entries as [|e entries IH]; intros w; simpl; [done|].
  by rewrite IH, remove_logged_readonly.
Qed.

Lemma remove_all_lookup_ne entries w q :
  (∀ e, e ∈ entries → e.2 ≠ q) →
  files (foldl remove_logged w entries) !! q = files w !! q.
Proof.
  revert w. induction entries as [|e entries IH]; intros w Hne; simpl; [done|].
  rewrite IH by (intros e' He'; apply Hne; by right).
  apply remove_logged_lookup_ne, Hne. left.
Qed.

Lemma cleanup_backups_readonly base_name w :
  readonly (cleanup_backups base_name w) = readonly w.
Proof.
  unfold cleanup_backups. case_decide; [|done]. apply remove_all_readonly.
Qed.

(** Cleaning up the backups of a base name leaves every file alone whose
    name does not start with the base name and a dot, or that lies outside
    the backup directory. *)
Lemma cleanup_backups_lookup_other base_name w q :
  (q.1 = backup_dir → startswith q.2 (base_name +:+ ".") = false) →
  files (cleanup_backups base_name w) !! q = files w !! q.
Proof.
  intros Hq. unfold cleanup_backups. case_decide; [|done].
  apply remove_all_lookup_ne. intros [t path] He Heq. simpl in Heq. subst path.
  apply subseteq_drop in He. rewrite sort_desc_Permutation in He.
  apply backup_files_of_elem in He as (filename & -> & Hstart & _).
  specialize (Hq eq_refl). simpl in Hq. congruence.
Qed.

Lemma backup_tracker_file_readonly w tracker_path timestamp :
  readonly (backup_tracker_file w tracker_path timestamp).2 = readonly w.
Proof.
  unfold backup_tracker_file. destruct (files w !! tracker_path); [|done].
  unfold write_file. case_decide; [done|]. simpl.
  by rewrite cleanup_backups_readonly.
Qed.

(** A backup never touches the file it copies. *)
Lemma backup_tracker_file_keeps_source w tracker_path timestamp :
  files (backup_tracker_file w tracker_path timestamp).2 !! tracker_path
  = files w !! tracker_path.
Proof.
  unfold backup_tracker_file.
  destruct (files w !! tracker_path) as [content|] eqn:Hsrc; [|done].
  unfold write_file. case_decide; [done|]. simpl.
  rewrite cleanup_backups_lookup_other.
  - simpl. rewrite lookup_insert_ne; [done|].
    intros Heq. destruct tracker_path as [d base]. simpl in *.
    injection Heq as _ Heq. by apply backup_name_ne in Heq.
  - intros _. apply startswith_longer.
Qed.

Lemma write_key_lines_complete key_defs keys out :
  (∀ k, k ∈ keys → is_Some (key_defs !! k)) →
  (write_key_lines key_defs keys out).2 = true.
Proof.
  revert out. induction keys as [|k keys IH]; intros out Hall; simpl; [done|].
  destruct (Hall k) as [v ->]; [left|].
  apply IH. intros k' Hk'. apply Hall. by right.
Qed.

Lemma tracker_content_complete key_defs final_grid last_key_edit last_grid_edit :
  (tracker_content key_defs final_grid (sorted_keys key_defs)
     last_key_edit last_grid_edit).2 = true.
Proof using normalize_path sort_Permutation sort_key_strings_hierarchically.
  unfold tracker_content.
  pose proof (write_key_lines_complete key_defs (sorted_keys key_defs)
    ("---KEY_DEFINITIONS_START---" +:+ nl +:+ "Key Definitions:" +:+ nl)) as Hc.
  destruct (write_key_lines _ _ _) as [out [|]]; [done|].
  simpl in Hc. apply Hc. intros k Hk. by apply sorted_keys_elem.
Qed.

(** A square grid is written: the write succeeds on a writable path, and
    the file holds the rendering of the repaired grid. *)
Lemma write_tracker_file_succeeds w tracker_path key_defs grid
    last_key_edit last_grid_edit :
  square_over grid (sorted_keys key_defs) →
  tracker_path ∉ readonly w →
  ∃ final_grid w',
    write_tracker_file w tracker_path key_defs grid last_key_edit last_grid_edit
      = (true, w')
    ∧ fix_grid grid (sorted_keys key_defs) = Some final_grid
    ∧ files w' = <[tracker_path :=
                    (tracker_content key_defs final_grid (sorted_keys key_defs)
                       last_key_edit last_grid_edit).1]> (files w)
    ∧ readonly w' = readonly w.
Proof using DIAGONAL_CHAR PLACEHOLDER_CHAR compress decompress normalize_path sort_Permutation sort_key_strings_hierarchically validate_grid validate_grid_square.
  intros Hsq Hro. unfold write_tracker_file. fold (sorted_keys key_defs).
  rewrite (proj2 (validate_grid_square _ _) Hsq). simpl.
  destruct (fix_grid_spec grid (sorted_keys key_defs) (sorted_keys_NoDup _))
    as (final_grid & Hfix & _). rewrite Hfix.
  pose proof (tracker_content_complete key_defs final_grid last_key_edit
                last_grid_edit) as Hc.
  destruct (tracker_content _ _ _ _ _) as [content complete] eqn:Hcontent.
  simpl in Hc. subst complete.
  unfold write_file. rewrite decide_False by done.
  exists final_grid. eexists. split_and!; [done..| |done].
  simpl. by rewrite Hcontent.
Qed.

(** ** [merge_trackers] *)

Lemma merge_backup_readonly w p s out timestamp :
  readonly (merge_backup w p s out timestamp) = readonly w.
Proof.
  unfold merge_backup. repeat case_bool_decide; try done;
    apply backup_tracker_file_readonly.
Qed.

Lemma merge_backup_keeps_output w p s out timestamp :
  files (merge_backup w p s out timestamp) !! out = files w !! out.
Proof.
  unfold merge_backup. case_bool_decide as H1.
  - destruct H1 as [-> _]. apply backup_tracker_file_keeps_source.
  - case_bool_decide as H2; [|done].
    destruct H2 as [-> _]. apply backup_tracker_file_keeps_source.
Qed.

Lemma merge_backup_keeps_self w p out timestamp :
  files (merge_backup w p p out timestamp) !! p = files w !! p.
Proof.
  destruct (decide (out = p)) as [->|Hne].
  - apply merge_backup_keeps_output.
  - unfold merge_backup. rewrite !bool_decide_eq_false_2 by prop_solver. done.
Qed.

(** C10 ([merge_trackers], lines 341-346).  When both trackers read back
    without keys the call returns [None] and the output path holds what it
    held before the call.  The other tracker is taken over unchanged, and
    handed to the writer, only when exactly one of the two is empty. *)
Theorem merge_trackers_both_empty w primary_tracker_path secondary_tracker_path
    output_path timestamp now_iso :
  let out := default primary_tracker_path output_path in
  let w1 := merge_backup w primary_tracker_path secondary_tracker_path out
              timestamp in
  let primary_data := read_tracker_file w1 primary_tracker_path in
  let secondary_data := read_tracker_file w1 secondary_tracker_path in
  let written (data : TrackerData) :=
    match write_tracker_file w1 out (td_keys data) (td_grid data)
            (td_last_key_edit data) (td_last_grid_edit data) with
    | (true, w') => (Returned (Some data), w')
    | (false, w') => (Returned None, w')
    end in
  (td_keys primary_data = ∅ → td_keys secondary_data = ∅ →
     merge_trackers w primary_tracker_path secondary_tracker_path output_path
       timestamp now_iso = (Returned None, w1)
     ∧ files w1 !! out = files w !! out)
  ∧ (td_keys primary_data = ∅ → td_keys secondary_data ≠ ∅ →
     merge_trackers w primary_tracker_path secondary_tracker_path output_path
       timestamp now_iso = written secondary_data)
  ∧ (td_keys primary_data ≠ ∅ → td_keys secondary_data = ∅ →
     merge_trackers w primary_tracker_path secondary_tracker_path output_path
       timestamp now_iso = written primary_data).
Proof.
  intros out w1 primary_data secondary_data written.
  unfold merge_trackers. fold out. fold w1. fold primary_data. fold secondary_data.
  unfold merged_tracker_data. split_and!.
  - intros -> ->. rewrite !bool_decide_eq_true_2 by done. simpl.
    split; [done|]. apply merge_backup_keeps_output.
  - intros -> Hs. rewrite bool_decide_eq_true_2 by done.
    rewrite (bool_decide_eq_false_2 (td_keys secondary_data = ∅)) by done. done.
  - intros Hp ->. rewrite (bool_decide_eq_false_2 (td_keys primary_data = ∅)) by done.
    rewrite bool_decide_eq_true_2 by done. done.
Qed.

Lemma read_tracker_file_ext w w' tracker_path :
  files w' !! tracker_path = files w !! tracker_path →
  read_tracker_file w' tracker_path = read_tracker_file w tracker_path.
Proof. intros H. unfold read_tracker_file. by rewrite H. Qed.

Lemma final_val_same v :
  final_val (Some v) (Some v) = v.
Proof.
  unfold final_val. case_decide as H1; [done|]. congruence.
Qed.

Lemma square_grid_cell grid keys r c :
  square_over grid keys → r ∈ keys → c ∈ keys →
  ∃ v, grid_cell grid keys r c = Some v
    ∧ (r = c → v = DIAGONAL_CHAR).
Proof.
  intros Hsq Hr Hc.
  apply list_index_is_Some in Hr as [ri Hri].
  apply list_index_is_Some in Hc as [ci Hci].
  destruct (Hsq ri r (list_index_Some _ _ _ Hri))
    as (compressed & s & Hrow & Hs & Hlen & Hdiag).
  unfold grid_cell, row_cell. rewrite Hri, Hrow. simpl. rewrite Hs. simpl.
  rewrite decide_True by done. rewrite Hci. simpl.
  assert (ci < length (chars s)) as Hlt by (apply list_index_lt in Hci; lia).
  destruct (lookup_lt_is_Some_2 _ _ Hlt) as [v Hv].
  exists v. split; [done|]. intros ->. congruence.
Qed.

Lemma grid_cell_outside grid keys r c :
  r ∉ keys ∨ c ∉ keys → grid_cell grid keys r c = None.
Proof.
  unfold grid_cell, row_cell. intros [Hr|Hc].
  - apply list_index_None in Hr. by rewrite Hr.
  - apply list_index_None in Hc.
    destruct (list_index r keys); simpl; [|done].
    destruct (grid !! r); simpl; [|done].
    destruct (decompress _); simpl; [|done].
    case_decide; [|done]. by rewrite Hc.
Qed.

(** Merging a square grid with itself gives a square grid with the same
    cells. *)
Lemma merge_grids_self grid keys :
  NoDup keys → square_over grid keys →
  ∃ mg, _merge_grids grid grid keys keys keys = Some mg
    ∧ square_over mg keys
    ∧ ∀ r c, grid_cell mg keys r c = grid_cell grid keys r c.
Proof using DIAGONAL_CHAR PLACEHOLDER_CHAR compress decompress decompress_compress.
  intros Hnd Hsq.
  destruct (merge_grids_rows grid grid keys keys keys Hnd Hnd Hnd)
    as (mg & Hrun & Hout & Hrows).
  exists mg. split_and!; [done|..].
  - intros i k Hik. pose proof (list_index_lookup _ _ _ Hnd Hik) as Hi.
    destruct (Hrows k i Hi) as (row & Hrow & Hlen & Hdiag & _).
    exists (compress (join row)), (join row).
    rewrite decompress_compress, chars_join. done.
  - intros r c.
    destruct (decide (r ∈ keys)) as [Hr|Hr];
      [|by rewrite !grid_cell_outside by (by left)].
    destruct (decide (c ∈ keys)) as [Hc|Hc];
      [|by rewrite !grid_cell_outside by (by right)].
    destruct (square_grid_cell grid keys r c Hsq Hr Hc) as (v & Hv & Hvd).
    rewrite Hv.
    destruct (decide (r = c)) as [<-|Hne].
    + rewrite Hvd by done.
      pose proof Hr as Hr'. apply list_index_is_Some in Hr' as [ri Hri].
      destruct (Hrows r ri Hri) as (row & Hrow & Hlen & Hdiag & _).
      unfold grid_cell, row_cell. rewrite Hri, Hrow. simpl.
      rewrite decompress_compress. simpl.
      by rewrite chars_join, decide_True.
    + rewrite (merge_grids_cell grid grid keys keys keys mg r c) by done.
      by rewrite Hv, final_val_same.
Qed.

(** Merging any grid with itself gives a square grid that keeps every
    off-diagonal cell the grid holds in a row that decodes to the key
    count. *)
Lemma merge_grids_self_cells grid keys :
  NoDup keys →
  ∃ mg, _merge_grids grid grid keys keys keys = Some mg
    ∧ square_over mg keys
    ∧ ∀ r c v, r ≠ c → grid_cell grid keys r c = Some v →
        grid_cell mg keys r c = Some v.
Proof using DIAGONAL_CHAR PLACEHOLDER_CHAR compress decompress decompress_compress.
  intros Hnd.
  destruct (merge_grids_rows grid grid keys keys keys Hnd Hnd Hnd)
    as (mg & Hrun & Hout & Hrows).
  exists mg. split_and!; [done|..].
  - intros i k Hik. pose proof (list_index_lookup _ _ _ Hnd Hik) as Hi.
    destruct (Hrows k i Hi) as (row & Hrow & Hlen & Hdiag & _).
    exists (compress (join row)), (join row).
    rewrite decompress_compress, chars_join. done.
  - intros r c v Hne Hv.
    destruct (decide (r ∈ keys)) as [Hr|Hr];
      [|by rewrite grid_cell_outside in Hv by (by left)].
    destruct (decide (c ∈ keys)) as [Hc|Hc];
      [|by rewrite grid_cell_outside in Hv by (by right)].
    rewrite (merge_grids_cell grid grid keys keys keys mg r c) by done.
    by rewrite Hv, final_val_same.
Qed.

(** C8 ([merge_trackers] with [_merge_grids]).  Merging a
    tracker that has keys with itself, the output being writable, returns
    data with the same key definitions and the same key audit string, and
    with every off-diagonal cell that the tracker holds in a row decoding
    to the key count; only the grid audit string is new.  When the grid of
    the tracker is square, every cell is the same. *)
Theorem merge_trackers_self w tracker_path output_path timestamp now_iso :
  let tracker := read_tracker_file w tracker_path in
  td_keys tracker ≠ ∅ →
  default tracker_path output_path ∉ readonly w →
  ∃ merged_data w',
    merge_trackers w tracker_path tracker_path output_path timestamp now_iso
      = (Returned (Some merged_data), w')
    ∧ td_keys merged_data = td_keys tracker
    ∧ td_last_key_edit merged_data = td_last_key_edit tracker
    ∧ (∀ r c v, r ≠ c →
         grid_cell (td_grid tracker) (sorted_keys (td_keys tracker)) r c
           = Some v →
         grid_cell (td_grid merged_data) (sorted_keys (td_keys tracker)) r c
           = Some v)
    ∧ (square_over (td_grid tracker) (sorted_keys (td_keys tracker)) →
       ∀ r c,
         grid_cell (td_grid merged_data) (sorted_keys (td_keys tracker)) r c
         = grid_cell (td_grid tracker) (sorted_keys (td_keys tracker)) r c).
Proof using DIAGONAL_CHAR PLACEHOLDER_CHAR backup_dir compress decompress decompress_compress normalize_path sort_Permutation sort_key_strings_hierarchically strptime validate_grid validate_grid_square validate_key.
  intros tracker Hkeys Hro. unfold merge_trackers.
  set (out := default tracker_path output_path) in *.
  set (w1 := merge_backup w tracker_path tracker_path out timestamp).
  rewrite (read_tracker_file_ext w w1 tracker_path)
    by apply merge_backup_keeps_self.
  fold tracker. unfold merged_tracker_data.
  rewrite !(bool_decide_eq_false_2 (td_keys tracker = ∅)) by done. simpl.
  rewrite (idemp_L (∪) (td_keys tracker)). fold (sorted_keys (td_keys tracker)).
  destruct (merge_grids_self_cells (td_grid tracker)
              (sorted_keys (td_keys tracker)) (sorted_keys_NoDup _))
    as (mg & Hmg & Hsqm & Hcells).
  rewrite Hmg. simpl.
  destruct (write_tracker_file_succeeds w1 out (td_keys tracker) mg
              (str_or (td_last_key_edit tracker) (td_last_key_edit tracker))
              ("Merged from " +:+ tracker_path.2 +:+ " and " +:+ tracker_path.2
                 +:+ " on " +:+ now_iso) Hsqm)
    as (fg & w' & -> & _).
  { unfold w1. by rewrite merge_backup_readonly. }
  eexists _, w'. split_and!; [done..| | |].
  - simpl. unfold str_or. by case_bool_decide.
  - done.
  - intros Hsq. simpl.
    destruct (merge_grids_self (td_grid tracker) (sorted_keys (td_keys tracker))
                (sorted_keys_NoDup _) Hsq) as (mg' & Hmg' & _ & Hall).
    assert (mg' = mg) as -> by congruence. done.
Qed.

(** ** [remove_key_from_tracker] *)

Lemma StronglySorted_delete {A} (R : relation A) l i :
  StronglySorted R l → StronglySorted R (delete i l).
Proof.
  intros Hs. revert i. induction Hs as [|x l Hs IH Hall]; intros i;
    [destruct i; constructor|].
  destruct i as [|i]; simpl; [done|].
  constructor; [apply IH|by apply Forall_delete].
Qed.

Lemma elem_of_delete_NoDup (l : list string) i k x :
  NoDup l → l !! i = Some k → x ∈ delete i l ↔ x ∈ l ∧ x ≠ k.
Proof.
  intros Hnd Hi. rewrite delete_take_drop.
  rewrite <-(take_drop_middle l i k Hi) in Hnd at 1.
  rewrite <-(take_drop_middle l i k Hi) at 3.
  apply NoDup_app in Hnd as (_ & Hdisj & Hnd).
  apply NoDup_cons in Hnd as [Hk _].
  rewrite !elem_of_app, elem_of_cons. split.
  - intros [Hx|Hx].
    + split; [by left|]. intros ->. apply (Hdisj k Hx). left.
    + split; [by right; right|]. by intros ->.
  - intros [[Hx|[->|Hx]] Hne]; [by left|done|by right].
Qed.

(** The canonical order of the surviving keys is the old canonical order
    with the removed key taken out. *)
Lemma sorted_keys_delete key_defs k idx :
  list_index k (sorted_keys key_defs) = Some idx →
  sorted_keys (delete k key_defs) = delete idx (sorted_keys key_defs).
Proof using key_le_antisymm key_le sort_Permutation sort_StronglySorted sort_key_strings_hierarchically.
  intros Hidx. apply list_index_Some in Hidx.
  apply (StronglySorted_unique key_le).
  - apply sort_StronglySorted.
  - apply StronglySorted_delete, sort_StronglySorted.
  - apply NoDup_Permutation.
    + apply sorted_keys_NoDup.
    + eapply sublist_NoDup; [apply sorted_keys_NoDup|apply sublist_delete].
    + intros x. rewrite (elem_of_delete_NoDup _ idx k) by (done || apply sorted_keys_NoDup).
      rewrite !sorted_keys_elem, lookup_delete_is_Some. prop_solver.
Qed.

Lemma list_index_delete (l : list string) idx k r i :
  NoDup l → l !! idx = Some k → list_index r l = Some i → r ≠ k →
  ∃ i', list_index r (delete idx l) = Some i'
    ∧ ∀ {A} (row : list A), delete idx row !! i' = row !! i.
Proof.
  intros Hnd Hidx Hi Hne. apply list_index_Some in Hi.
  assert (i ≠ idx) as Hii by (intros ->; congruence).
  assert (NoDup (delete idx l)) as Hnd'
    by (eapply sublist_NoDup; [done|apply sublist_delete]).
  destruct (decide (i < idx)) as [Hlt|Hge].
  - exists i. split.
    + apply list_index_lookup; [done|]. by rewrite list_lookup_delete_lt.
    + intros A row. by apply list_lookup_delete_lt.
  - exists (pred i). split.
    + apply list_index_lookup; [done|].
      rewrite list_lookup_delete_ge by lia. by replace (S (pred i)) with i by lia.
    + intros A row. rewrite list_lookup_delete_ge by lia.
      by replace (S (pred i)) with i by lia.
Qed.

Lemma reinit_row_spec final r :
  ∃ row, reinit_row final r = Some (compress (join row))
    ∧ length row = length final
    ∧ ∀ i, list_index r final = Some i → row !! i = Some DIAGONAL_CHAR.
Proof.
  unfold reinit_row. destruct (list_index r final) as [i|] eqn:Hi.
  - rewrite list_set_Some
      by (rewrite length_replicate; by eapply list_index_lt).
    simpl. eexists. split_and!; [done|by rewrite length_insert, length_replicate|].
    intros ? [= <-]. apply list_lookup_insert_eq.
    rewrite length_replicate. by eapply list_index_lt.
  - simpl. eexists. split_and!; [done|by rewrite length_replicate|done].
Qed.

(** Lines 1083-1099 row by row: a row that decodes to the old width loses
    the column of the removed key, any other row is made anew. *)
Lemma remove_columns_spec old final k idx (existing_grid : gmap string string) :
  ∃ fg,
    map_fold (remove_column old final k idx) (Some ∅) existing_grid = Some fg
    ∧ fg !! k = None
    ∧ (∀ r, existing_grid !! r = None → fg !! r = None)
    ∧ ∀ r compressed, r ≠ k → existing_grid !! r = Some compressed →
        ∃ row, fg !! r = Some (compress (join row))
          ∧ ((∃ s, decompress compressed = Some s
                ∧ length (chars s) = length old
                ∧ row = delete idx (chars s))
             ∨ ((∀ s, decompress compressed = Some s →
                   length (chars s) ≠ length old)
                ∧ length row = length final
                ∧ ∀ i, list_index r final = Some i →
                    row !! i = Some DIAGONAL_CHAR)).
Proof.
  apply (map_fold_weak_ind (λ acc (m : gmap string string),
    ∃ fg, acc = Some fg ∧ fg !! k = None
      ∧ (∀ r, m !! r = None → fg !! r = None)
      ∧ ∀ r compressed, r ≠ k → m !! r = Some compressed →
          ∃ row, fg !! r = Some (compress (join row))
            ∧ ((∃ s, decompress compressed = Some s
                  ∧ length (chars s) = length old
                  ∧ row = delete idx (chars s))
               ∨ ((∀ s, decompress compressed = Some s →
                     length (chars s) ≠ length old)
                  ∧ length row = length final
                  ∧ ∀ i, list_index r final = Some i →
                      row !! i = Some DIAGONAL_CHAR)))).
  - exists ∅. split_and!; [done..|]. intros r compressed _ Hr.
    by rewrite lookup_empty in Hr.
  - intros r0 cr0 m acc Hm (fg & -> & Hk & Hnone & Hrows).
    unfold remove_column. simpl.
    case_decide as Hr0.
    + assert (∃ row,
          (match decompress cr0 with
           | Some s =>
               if decide (length (chars s) = length old)
               then Some (<[r0:=compress (join (take idx (chars s)
                                   ++ drop (S idx) (chars s)))]> fg)
               else reinit_row final r0
                    ≫= λ row, Some (<[r0:=row]> fg)
           | None => reinit_row final r0 ≫= λ row, Some (<[r0:=row]> fg)
           end) = Some (<[r0:=compress (join row)]> fg)
          ∧ ((∃ s, decompress cr0 = Some s ∧ length (chars s) = length old
                ∧ row = delete idx (chars s))
             ∨ ((∀ s, decompress cr0 = Some s → length (chars s) ≠ length old)
                ∧ length row = length final
                ∧ ∀ i, list_index r0 final = Some i →
                    row !! i = Some DIAGONAL_CHAR))) as (row & -> & Hrow).
      { destruct (reinit_row_spec final r0) as (rowi & Hrowi & Hleni & Hdiagi).
        destruct (decompress cr0) as [s|] eqn:Hs.
        - case_decide as Hlen.
          + exists (delete idx (chars s)). rewrite delete_take_drop.
            split; [done|]. left. exists s. by rewrite delete_take_drop.
          + rewrite Hrowi. simpl. exists rowi. split; [done|]. right.
            split_and!; [|done..]. intros s' [= <-]. done.
        - rewrite Hrowi. simpl. exists rowi. split; [done|]. right.
          split_and!; [|done..]. by intros s'. }
      eexists. split_and!; [done|..].
      * by rewrite lookup_insert_ne.
      * intros r Hr. destruct (decide (r = r0)) as [->|Hne];
          [by rewrite lookup_insert_eq in Hr|].
        rewrite lookup_insert_ne in Hr by done.
        rewrite lookup_insert_ne by done. by apply Hnone.
      * intros r compressed Hrk Hr. destruct (decide (r = r0)) as [->|Hne].
        -- rewrite lookup_insert_eq in Hr. injection Hr as <-.
           exists row. by rewrite lookup_insert_eq.
        -- rewrite lookup_insert_ne in Hr by done.
           rewrite lookup_insert_ne by done. by apply Hrows.
    + assert (r0 = k) as -> by (destruct (decide (r0 = k)); [done|prop_solver]).
      exists fg. split_and!; [done..| |].
      * intros r Hr. destruct (decide (r = k)) as [->|Hne]; [done|].
        rewrite lookup_insert_ne in Hr by done. by apply Hnone.
      * intros r compressed Hrk Hr.
        rewrite lookup_insert_ne in Hr by done. by apply Hrows.
Qed.

(** The grid built by the removal is square over the surviving keys. *)
Lemma removal_grid_spec existing_key_defs existing_grid k idx :
  list_index k (sorted_keys existing_key_defs) = Some idx →
  rows_with_diagonal existing_grid (sorted_keys existing_key_defs) k →
  ∃ fg, removal_grid existing_key_defs existing_grid k = Some fg
    ∧ square_over fg (sorted_keys (delete k existing_key_defs))
    ∧ ∀ r compressed s, r ≠ k → existing_grid !! r = Some compressed →
        decompress compressed = Some s →
        length (chars s) = length (sorted_keys existing_key_defs) →
        fg !! r = Some (compress (join (delete idx (chars s)))).
Proof using key_le_antisymm DIAGONAL_CHAR PLACEHOLDER_CHAR compress decompress decompress_compress key_le sort_Permutation sort_StronglySorted sort_key_strings_hierarchically.
  intros Hidx Hrows. unfold removal_grid.
  fold (sorted_keys existing_key_defs).
  fold (sorted_keys (delete k existing_key_defs)). rewrite Hidx.
  set (old := sorted_keys existing_key_defs) in *.
  set (final := sorted_keys (delete k existing_key_defs)).
  destruct (remove_columns_spec old final k idx existing_grid)
    as (fg & -> & _ & _ & Hfg).
  assert (final = delete idx old) as Hfinal by (by apply sorted_keys_delete).
  assert (old !! idx = Some k) as Hk by (by apply list_index_Some).
  assert (NoDup old) as Hnd by apply sorted_keys_NoDup.
  exists fg. split_and!; [done|..].
  - intros i' r Hr.
    assert (r ∈ delete idx old) as Hin
      by (rewrite <-Hfinal; by eapply list_elem_of_lookup_2).
    apply (elem_of_delete_NoDup _ idx k) in Hin as [Hrold Hne]; [|done..].
    apply list_index_is_Some in Hrold as [i Hi].
    destruct (list_index_delete old idx k r i Hnd Hk Hi Hne) as (i'' & Hi'' & Hshift).
    assert (i'' = i') as ->.
    { rewrite <-Hfinal in Hi''.
      assert (NoDup final) as Hndf by apply sorted_keys_NoDup.
      pose proof (list_index_lookup _ _ _ Hndf Hr). congruence. }
    destruct (Hrows i r (list_index_Some _ _ _ Hi) Hne) as (compressed & Hc & Hdiag).
    destruct (Hfg r compressed Hne Hc) as (row & Hrow & Hcase).
    exists (compress (join row)), (join row).
    rewrite decompress_compress, chars_join. split_and!; [done..| |].
    + destruct Hcase as [(s & Hs & Hlen & ->)|(_ & Hlen & _)]; [|done].
      assert (idx < length old) as Hlt by (by eapply lookup_lt_Some).
      rewrite Hfinal.
      rewrite !length_delete by (apply lookup_lt_is_Some_2; lia). lia.
    + destruct Hcase as [(s & Hs & Hlen & ->)|(_ & _ & Hd)].
      * rewrite Hshift. by apply Hdiag.
      * apply Hd. by rewrite Hfinal.
  - intros r compressed s Hne Hc Hs Hlen.
    destruct (Hfg r compressed Hne Hc) as (row & Hrow & [(s' & Hs' & _ & ->)|(Hno & _)]).
    + congruence.
    + by destruct (Hno s Hs).
Qed.

(** ** [backup_tracker_file]: retention *)

Lemma chars_app a b : chars (a +:+ b) = chars a ++ chars b.
Proof. induction a as [|c a IH]; simpl; [done|]. by rewrite IH. Qed.

Lemma join_app a b : join (a ++ b) = join a +:+ join b.
Proof. induction a as [|c a IH]; simpl; [done|]. by rewrite IH. Qed.

Lemma strip_prefix_app p s : strip_prefix p (p +:+ s) = Some s.
Proof. induction p as [|c p IH]; simpl; [done|]. by rewrite decide_True. Qed.

Lemma startswith_app p s : startswith (p +:+ s) p = true.
Proof.
  unfold startswith. rewrite strip_prefix_app. by apply bool_decide_eq_true.
Qed.

Lemma endswith_app s p : endswith (s +:+ p) p = true.
Proof.
  unfold endswith, rev_string. rewrite chars_app, reverse_app, join_app.
  apply startswith_app.
Qed.

Lemma append_assoc a b c : (a +:+ b) +:+ c = a +:+ (b +:+ c).
Proof.
  induction a as [|x a IH]; [done|].
  change (String x ((a +:+ b) +:+ c) = String x (a +:+ (b +:+ c))).
  by rewrite IH.
Qed.

Lemma matches_shape_length shape cs :
  matches_shape shape cs = true → length cs = length shape.
Proof.
  revert cs. induction shape as [|d shape IH]; intros [|c cs]; simpl; try done.
  intros [_ H]%andb_true_iff. by rewrite (IH cs H).
Qed.

Lemma backup_timestamp_str_new base_name timestamp :
  matches_shape timestamp_shape (chars timestamp) = true →
  backup_timestamp_str (backup_name base_name timestamp) = Some timestamp.
Proof.
  intros Hshape. pose proof (matches_shape_length _ _ Hshape) as Hlen.
  unfold backup_timestamp_str, backup_name.
  rewrite !chars_app, !reverse_app.
  change (reverse (chars ".bak")) with (chars "kab.").
  change (reverse (chars ".")) with (chars ".").
  assert (length (reverse (chars timestamp)) = 22) as Hlen'
    by (by rewrite length_reverse).
  cbn [chars list_ascii_of_string app take drop].
  rewrite <-(assoc_L (++)), take_0, drop_0.
  rewrite (take_app_length' _ _ 22) by done.
  rewrite (drop_app_length' _ _ 22) by done.
  rewrite reverse_involutive, Hshape, join_chars.
  by rewrite bool_decide_eq_true_2.
Qed.

Lemma backup_entry_new base_name timestamp t :
  matches_shape timestamp_shape (chars timestamp) = true →
  strptime timestamp = Some t →
  backup_entry base_name (backup_name base_name timestamp)
  = Some (t, (backup_dir, backup_name base_name timestamp)).
Proof.
  intros Hshape Ht. unfold backup_entry.
  rewrite backup_timestamp_str_new by done. simpl. rewrite Ht. simpl.
  assert (startswith (backup_name base_name timestamp) (base_name +:+ ".") = true)
    as ->.
  { unfold backup_name. rewrite <-append_assoc. apply startswith_app. }
  assert (endswith (backup_name base_name timestamp) ".bak" = true) as ->.
  { unfold backup_name. rewrite <-!append_assoc. apply endswith_app. }
  done.
Qed.

Lemma NoDup_omap_inj {A B} (f : A → option B) (l : list A) :
  (∀ x y z, f x = Some z → f y = Some z → x = y) →
  NoDup l → NoDup (omap f l).
Proof.
  intros Hinj Hnd. induction Hnd as [|x l Hx Hnd IH]; simpl; [constructor|].
  destruct (f x) as [z|] eqn:Hfx; [|done].
  constructor; [|done]. intros Hin.
  apply list_elem_of_omap in Hin as (y & Hy & Hfy).
  by rewrite (Hinj x y z Hfx Hfy) in Hx.
Qed.

Lemma listdir_elem d w filename :
  filename ∈ listdir d w ↔ is_Some (files w !! (d, filename)).
Proof.
  unfold listdir. rewrite list_elem_of_omap. split.
  - intros ([d' fn] & Hin & Hsome). simpl in Hsome. case_decide; [|done].
    simplify_eq.
    apply list_elem_of_fmap in Hin as ([q content] & -> & Hin).
    apply elem_of_map_to_list in Hin. simpl. eauto.
  - intros [content Hc]. exists (d, filename). split.
    + apply list_elem_of_fmap. exists ((d, filename), content).
      split; [done|]. by apply elem_of_map_to_list.
    + simpl. by rewrite decide_True.
Qed.

Lemma listdir_NoDup d w : NoDup (listdir d w).
Proof.
  unfold listdir. apply NoDup_omap_inj; [|apply NoDup_fst_map_to_list].
  intros [d1 f1] [d2 f2] z. simpl. repeat case_decide; try done.
  intros [= <-] [= <-]. by subst.
Qed.

Lemma backup_files_of_iff base_name w e :
  e ∈ backup_files_of base_name w ↔
  ∃ filename, is_Some (files w !! (backup_dir, filename))
    ∧ backup_entry base_name filename = Some e.
Proof.
  unfold backup_files_of. rewrite list_elem_of_omap.
  by setoid_rewrite listdir_elem.
Qed.

Lemma backup_entry_path base_name filename e :
  backup_entry base_name filename = Some e → e.2 = (backup_dir, filename).
Proof. destruct e as [t path]. intros H. by apply backup_entry_Some in H as [-> _]. Qed.

Lemma backup_files_of_NoDup base_name w : NoDup (backup_files_of base_name w).
Proof.
  unfold backup_files_of. apply NoDup_omap_inj; [|apply listdir_NoDup].
  intros f1 f2 e H1 H2.
  apply backup_entry_path in H1, H2. congruence.
Qed.

(** Among the backups found, the path determines the entry. *)
Lemma backup_files_of_path_inj base_name w e e' :
  e ∈ backup_files_of base_name w → e' ∈ backup_files_of base_name w →
  e.2 = e'.2 → e = e'.
Proof.
  rewrite !backup_files_of_iff. intros (f & _ & Hf) (f' & _ & Hf') Heq.
  pose proof (backup_entry_path _ _ _ Hf). pose proof (backup_entry_path _ _ _ Hf').
  assert (f = f') as -> by congruence. congruence.
Qed.

Lemma remove_logged_lookup w entry q :
  entry.2 ∉ readonly w →
  files (remove_logged w entry) !! q
  = if decide (q = entry.2) then None else files w !! q.
Proof.
  intros Hro. unfold remove_logged, remove_file. rewrite decide_False by done.
  destruct (files w !! entry.2) eqn:He; simpl.
  - case_decide as Hq; [subst; apply lookup_delete_eq|by apply lookup_delete_ne].
  - case_decide; [by subst|done].
Qed.

Lemma remove_all_lookup entries w q :
  (∀ e, e ∈ entries → e.2 ∉ readonly w) →
  files (foldl remove_logged w entries) !! q
  = if decide (q ∈ entries.*2) then None else files w !! q.
Proof.
  revert w. induction entries as [|e entries IH]; intros w Hro.
  - done.
  - cbn [foldl]. rewrite fmap_cons. rewrite IH.
    + rewrite remove_logged_lookup by (apply Hro; left).
      destruct (decide (q = e.2)) as [->|Hne].
      * rewrite (decide_True (P:=e.2 ∈ e.2 :: entries.*2)) by left.
        by case_decide.
      * apply decide_ext. rewrite elem_of_cons. prop_solver.
    + intros e' He'. rewrite remove_logged_readonly. apply Hro. by right.
Qed.

Lemma insert_desc_sorted {A} (x : N * A) l :
  StronglySorted later_first l → StronglySorted later_first (insert_desc x l).
Proof.
  intros Hs. induction Hs as [|y l Hs IH Hall]; simpl.
  - repeat constructor.
  - destruct (y.1 <=? x.1)%N eqn:Hle.
    + apply N.leb_le in Hle. constructor; [by constructor|].
      constructor; [done|]. eapply Forall_impl; [done|].
      intros z Hz. unfold later_first in *. lia.
    + apply N.leb_gt in Hle. constructor; [done|].
      rewrite insert_desc_Permutation. constructor; [|done].
      unfold later_first. lia.
Qed.

Lemma sort_desc_sorted {A} (l : list (N * A)) :
  StronglySorted later_first (sort_desc l).
Proof.
  induction l as [|x l IH]; simpl; [constructor|]. by apply insert_desc_sorted.
Qed.

(** The strictly latest entry of a sorted list is its head. *)
Lemma sorted_head_latest `{EqDecision A} (l : list (N * A)) x :
  StronglySorted later_first l → x ∈ l →
  (∀ e, e ∈ l → e ≠ x → (e.1 < x.1)%N) →
  ∃ rest, l = x :: rest.
Proof.
  intros Hs Hx Hmax. destruct Hs as [|h rest Hs Hall].
  - by apply not_elem_of_nil in Hx.
  - exists rest. f_equal. apply elem_of_cons in Hx as [->|Hx]; [done|].
    destruct (decide (h = x)) as [->|Hne]; [done|].
    rewrite Forall_forall in Hall. specialize (Hall x Hx).
    specialize (Hmax h (list_elem_of_here _ _) Hne).
    unfold later_first in Hall. lia.
Qed.

(** After the cleanup the backups found for a base name are the two
    latest of those found before, when every delete goes through. *)
Lemma cleanup_backups_files base_name w e :
  (∀ filename, (backup_dir, filename) ∉ readonly w) →
  e ∈ backup_files_of base_name (cleanup_backups base_name w)
  ↔ e ∈ take 2 (sort_desc (backup_files_of base_name w)).
Proof.
  intros Hro. unfold cleanup_backups.
  set (found := backup_files_of base_name w).
  set (sorted := sort_desc found).
  assert (sorted ≡ₚ found) as Hperm by apply sort_desc_Permutation.
  assert (NoDup sorted) as Hnd
    by (rewrite Hperm; apply backup_files_of_NoDup).
  case_decide as Hlen.
  - assert (∀ q, files (foldl remove_logged w (drop 2 sorted)) !! q
                 = if decide (q ∈ (drop 2 sorted).*2) then None else files w !! q)
      as Hfiles.
    { intros q. apply remove_all_lookup. intros e' He'.
      apply subseteq_drop in He'. rewrite Hperm in He'.
      apply backup_files_of_iff in He' as (fn & _ & Hfn).
      rewrite (backup_entry_path _ _ _ Hfn). apply Hro. }
    rewrite <-(take_drop 2 sorted) in Hnd.
    apply NoDup_app in Hnd as (_ & Hdisj & _).
    rewrite backup_files_of_iff. split.
    + intros (fn & Hfile & Hentry). rewrite Hfiles in Hfile.
      case_decide as Hq; [by destruct Hfile|].
      assert (e ∈ sorted) as He.
      { rewrite Hperm. apply backup_files_of_iff. eauto. }
      rewrite <-(take_drop 2 sorted) in He.
      apply elem_of_app in He as [He|He]; [done|].
      exfalso. apply Hq. rewrite <-(backup_entry_path _ _ _ Hentry).
      by apply list_elem_of_fmap_2.
    + intros He.
      assert (e ∈ found) as Hfound.
      { rewrite <-Hperm. by apply (subseteq_take 2). }
      pose proof Hfound as Hfound'.
      apply backup_files_of_iff in Hfound' as (fn & Hfile & Hentry).
      exists fn. split; [|done]. rewrite Hfiles, decide_False; [done|].
      intros Hin. apply list_elem_of_fmap in Hin as (e' & Hpath & He').
      assert (e' = e) as ->.
      { apply (backup_files_of_path_inj base_name w); [|done|].
        - fold found. rewrite <-Hperm. by apply (subseteq_drop 2).
        - by rewrite <-Hpath, (backup_entry_path _ _ _ Hentry). }
      by apply (Hdisj e).
  - rewrite take_ge by lia. by rewrite Hperm.
Qed.

Lemma backup_files_of_insert base_name w w2 name content new :
  files w2 = <[(backup_dir, name):=content]> (files w) →
  backup_entry base_name name = Some new →
  ∀ e, e ∈ backup_files_of base_name w2
       ↔ e = new ∨ e ∈ backup_files_of base_name w.
Proof.
  intros Hfiles Hnew e. rewrite !backup_files_of_iff. rewrite Hfiles. split.
  - intros (fn & Hfile & Hentry).
    destruct (decide (fn = name)) as [->|Hne]; [left; congruence|].
    right. exists fn. rewrite lookup_insert_ne in Hfile by congruence. done.
  - intros [->|(fn & Hfile & Hentry)].
    + exists name. by rewrite lookup_insert_eq.
    + exists fn. split; [|done]. rewrite lookup_insert_is_Some.
      destruct (decide ((backup_dir, name) = (backup_dir, fn))); [by left|by right].
Qed.

(** A backup never touches a tracker file of the base name it backs up. *)
Lemma backup_tracker_file_keeps_base w (tracker_path : Path) timestamp (q : Path) :
  q.2 = tracker_path.2 →
  files (backup_tracker_file w tracker_path timestamp).2 !! q = files w !! q.
Proof.
  intros Hq. unfold backup_tracker_file.
  destruct (files w !! tracker_path) as [content|] eqn:Hsrc; [|reflexivity].
  unfold write_file. case_decide; [reflexivity|]. simpl.
  rewrite cleanup_backups_lookup_other.
  - simpl. rewrite lookup_insert_ne; [done|].
    intros Heq. destruct q as [d name]. simpl in *. subst name.
    injection Heq as _ Heq. by apply backup_name_ne in Heq.
  - intros _. rewrite Hq. apply startswith_longer.
Qed.

(** One backup at a time later than every backup found: what is found
    afterwards is the new backup and the latest of the old ones. *)
Lemma backup_step base_name w (tracker_path : Path) timestamp t :
  tracker_path.2 = base_name →
  is_Some (files w !! tracker_path) →
  matches_shape timestamp_shape (chars timestamp) = true →
  strptime timestamp = Some t →
  (∀ filename, (backup_dir, filename) ∉ readonly w) →
  (∀ e, e ∈ backup_files_of base_name w → (e.1 < t)%N) →
  ∃ rest,
    rest ≡ₚ backup_files_of base_name w
    ∧ StronglySorted later_first rest
    ∧ ∀ e, e ∈ backup_files_of base_name
               (backup_tracker_file w tracker_path timestamp).2
           ↔ e = backup_entry_of base_name timestamp ∨ e ∈ take 1 rest.
Proof.
  intros Hbase [content Hsrc] Hshape Ht Hro Hmax.
  set (new := backup_entry_of base_name timestamp).
  assert (backup_entry base_name (backup_name base_name timestamp) = Some new)
    as Hnew.
  { unfold new, backup_entry_of. rewrite Ht. by apply backup_entry_new. }
  unfold backup_tracker_file. rewrite Hsrc, Hbase.
  unfold write_file. rewrite decide_False by apply Hro. cbn [snd].
  set (w2 := {| files := <[(backup_dir, backup_name base_name timestamp):=content]>
                           (files (makedirs backup_dir w));
                dirs := dirs (makedirs backup_dir w);
                readonly := readonly (makedirs backup_dir w) |}).
  pose proof (backup_files_of_insert base_name w w2 _ content new eq_refl Hnew)
    as Hfound2.
  assert (new ∉ backup_files_of base_name w) as Hfresh.
  { intros Hin. apply Hmax in Hin. unfold new, backup_entry_of in Hin.
    rewrite Ht in Hin. simpl in Hin. lia. }
  assert (backup_files_of base_name w2 ≡ₚ new :: backup_files_of base_name w)
    as Hperm2.
  { apply NoDup_Permutation.
    - apply backup_files_of_NoDup.
    - constructor; [done|apply backup_files_of_NoDup].
    - intros e. rewrite Hfound2, elem_of_cons. done. }
  destruct (sorted_head_latest (sort_desc (backup_files_of base_name w2)) new)
    as [rest Hsorted].
  { apply sort_desc_sorted. }
  { rewrite sort_desc_Permutation, Hperm2. left. }
  { intros e He Hne. rewrite sort_desc_Permutation, Hperm2 in He.
    apply elem_of_cons in He as [->|He]; [done|].
    apply Hmax in He. unfold new, backup_entry_of. rewrite Ht. done. }
  exists rest. split_and!.
  - apply (Permutation_cons_inv (a:=new)).
    rewrite <-Hsorted, sort_desc_Permutation. done.
  - pose proof (sort_desc_sorted (backup_files_of base_name w2)) as Hs.
    rewrite Hsorted in Hs. by apply StronglySorted_inv in Hs as [? _].
  - intros e.
    change (e ∈ backup_files_of base_name (cleanup_backups base_name w2)
            ↔ e = new ∨ e ∈ take 1 rest).
    rewrite (cleanup_backups_files base_name w2 e) by apply Hro.
    rewrite Hsorted. change (take 2 (new :: rest)) with (new :: take 1 rest).
    by rewrite elem_of_cons.
Qed.

Lemma backup_entry_of_time base_name timestamp t :
  strptime timestamp = Some t → (backup_entry_of base_name timestamp).1 = t.
Proof. intros H. unfold backup_entry_of. by rewrite H. Qed.

(** The first backup of a series: the new backup is the strictly latest. *)
Lemma backup_first base_name w (tracker_path : Path) timestamp t :
  tracker_path.2 = base_name →
  is_Some (files w !! tracker_path) →
  matches_shape timestamp_shape (chars timestamp) = true →
  strptime timestamp = Some t →
  (∀ filename, (backup_dir, filename) ∉ readonly w) →
  (∀ e, e ∈ backup_files_of base_name w → (e.1 < t)%N) →
  let w' := (backup_tracker_file w tracker_path timestamp).2 in
  backup_entry_of base_name timestamp ∈ backup_files_of base_name w'
  ∧ ∀ e, e ∈ backup_files_of base_name w' →
      e ≠ backup_entry_of base_name timestamp → (e.1 < t)%N.
Proof.
  intros Hbase Hsrc Hshape Ht Hro Hmax w'.
  destruct (backup_step base_name w tracker_path timestamp t)
    as (rest & Hperm & _ & Hfound); [done..|].
  fold w' in Hfound. split.
  - apply Hfound. by left.
  - intros e He Hne. apply Hfound in He as [->|He]; [done|].
    apply Hmax. rewrite <-Hperm. by apply (subseteq_take 1).
Qed.

(** A later backup: what is found afterwards is the new backup and the one
    that was the strictly latest before. *)
Lemma backup_next base_name w (tracker_path : Path) timestamp t b :
  tracker_path.2 = base_name →
  is_Some (files w !! tracker_path) →
  matches_shape timestamp_shape (chars timestamp) = true →
  strptime timestamp = Some t →
  (∀ filename, (backup_dir, filename) ∉ readonly w) →
  b ∈ backup_files_of base_name w →
  (∀ e, e ∈ backup_files_of base_name w → e ≠ b → (e.1 < b.1)%N) →
  (b.1 < t)%N →
  ∀ e, e ∈ backup_files_of base_name
             (backup_tracker_file w tracker_path timestamp).2
       ↔ e = backup_entry_of base_name timestamp ∨ e = b.
Proof.
  intros Hbase Hsrc Hshape Ht Hro Hb Hlatest Hbt.
  destruct (backup_step base_name w tracker_path timestamp t)
    as (rest & Hperm & Hsorted & Hfound); [done..| |].
  { intros e He. destruct (decide (e = b)) as [->|Hne]; [done|].
    specialize (Hlatest e He Hne). lia. }
  destruct (sorted_head_latest rest b) as [rest' ->]; [done| | |].
  { by rewrite Hperm. }
  { intros e He. rewrite Hperm in He. by apply Hlatest. }
  intros e. rewrite Hfound. simpl. rewrite list_elem_of_singleton. done.
Qed.

Lemma last_two_app {X} (d : X * X) l x y : last_two d (l ++ [x; y]) = (x, y).
Proof. unfold last_two. by rewrite foldl_app. Qed.

(** A series of backups at increasing times, after a backup that is the
    strictly latest one found: the last two remain. *)
Lemma take_backups_last_two base_name runs :
  ∀ w previous d,
    runs ≠ [] →
    backup_entry_of base_name previous ∈ backup_files_of base_name w →
    (∀ e, e ∈ backup_files_of base_name w →
       e ≠ backup_entry_of base_name previous →
       (e.1 < (backup_entry_of base_name previous).1)%N) →
    Forall (λ run : Path * string,
              run.1.2 = base_name ∧ is_Some (files w !! run.1)
              ∧ matches_shape timestamp_shape (chars run.2) = true) runs →
    StronglySorted earlier (previous :: runs.*2) →
    (∀ filename, (backup_dir, filename) ∉ readonly w) →
    ∀ e, e ∈ backup_files_of base_name (take_backups w runs)
         ↔ e = (last_two (d, backup_entry_of base_name previous)
                  (backup_entry_of base_name <$> runs.*2)).2
           ∨ e = (last_two (d, backup_entry_of base_name previous)
                    (backup_entry_of base_name <$> runs.*2)).1.
Proof.
  induction runs as [|[p ts] rest IH]; intros w previous d Hne Hb Hlatest Hruns
    Hsorted Hro; [done|].
  apply Forall_cons in Hruns as [(Hbase & Hsrc & Hshape) Hrest].
  simpl in Hbase, Hsrc, Hshape.
  rewrite fmap_cons in Hsorted. cbn [fst snd] in Hsorted.
  apply StronglySorted_inv in Hsorted as [Hsorted Hprev].
  apply Forall_cons in Hprev as [(tp & t & Htp & Ht & Hlt) _].
  rewrite (backup_entry_of_time _ _ _ Htp) in Hlatest.
  pose proof (backup_next base_name w p ts t (backup_entry_of base_name previous)
                Hbase Hsrc Hshape Ht Hro Hb) as Hnext.
  rewrite (backup_entry_of_time _ _ _ Htp) in Hnext.
  specialize (Hnext Hlatest Hlt).
  set (w1 := (backup_tracker_file w p ts).2) in *.
  cbn [take_backups]. fold w1.
  destruct rest as [|r' rest'].
  - simpl. intros e. by rewrite Hnext.
  - rewrite !fmap_cons. unfold last_two. cbn [foldl fst snd].
    apply (IH w1 ts (backup_entry_of base_name previous)); [done|..].
    + apply Hnext. by left.
    + intros e He Hne'. apply Hnext in He as [-> | ->]; [done|].
      rewrite (backup_entry_of_time _ _ _ Htp), (backup_entry_of_time _ _ _ Ht).
      done.
    + eapply Forall_impl; [exact Hrest|].
      intros run (Hb1 & Hs1 & Hsh1). split_and!; [done| |done].
      unfold w1. rewrite backup_tracker_file_keeps_base; [done|congruence].
    + done.
    + intros fn. unfold w1. rewrite backup_tracker_file_readonly. apply Hro.
Qed.

(** C9 ([backup_tracker_file], lines 240-263).  After three or more
    backups of tracker files with one base name, taken at increasing times
    that are later than every backup already there, the backup directory
    holds exactly two backups for the base name, those of the last two
    runs, provided every file of the directory can be deleted.  Deleting is
    best effort: a backup whose copy can be written returns the path of the
    copy whatever happens to the deletes. *)
Theorem backup_retention_keeps_two_latest base_name w front
    (p1 p2 : Path) ts1 ts2 :
  let runs := front ++ [(p1, ts1); (p2, ts2)] in
  3 ≤ length runs →
  Forall (λ run : Path * string,
            run.1.2 = base_name ∧ is_Some (files w !! run.1)
            ∧ matches_shape timestamp_shape (chars run.2) = true) runs →
  StronglySorted earlier runs.*2 →
  (∀ e ts, e ∈ backup_files_of base_name w → ts ∈ runs.*2 →
     ∃ t, strptime ts = Some t ∧ (e.1 < t)%N) →
  (∀ filename, (backup_dir, filename) ∉ readonly w) →
  backup_files_of base_name (take_backups w runs)
    ≡ₚ [backup_entry_of base_name ts2; backup_entry_of base_name ts1]
  ∧ ∀ w0 (tracker_path : Path) timestamp content,
      files w0 !! tracker_path = Some content →
      (backup_dir, backup_name tracker_path.2 timestamp) ∉ readonly w0 →
      (backup_tracker_file w0 tracker_path timestamp).1
      = Some (backup_dir, backup_name tracker_path.2 timestamp).
Proof.
  intros runs Hlen Hruns Hsorted Hold Hro. split.
  - assert (earlier ts1 ts2) as (t1 & t2 & Ht1 & Ht2 & Hlt).
    { unfold runs in Hsorted. rewrite fmap_app in Hsorted.
      apply StronglySorted_app_1_r in Hsorted.
      apply StronglySorted_inv in Hsorted as [_ Hall].
      by apply Forall_cons in Hall as [? _]. }
    apply NoDup_Permutation.
    + apply backup_files_of_NoDup.
    + apply NoDup_cons. split; [|apply NoDup_singleton].
      rewrite list_elem_of_singleton. intros Heq.
      apply (f_equal fst) in Heq.
      rewrite (backup_entry_of_time _ _ _ Ht1), (backup_entry_of_time _ _ _ Ht2) in Heq.
      lia.
    + destruct front as [|[p0 ts0] front'];
        [unfold runs in Hlen; simpl in Hlen; lia|].
      set (rest := front' ++ [(p1, ts1); (p2, ts2)]) in *.
      assert (runs = (p0, ts0) :: rest) as Hrunseq by done.
      rewrite Hrunseq in *. clear Hrunseq.
      apply Forall_cons in Hruns as [(Hbase & Hsrc & Hshape) Hrest].
      simpl in Hbase, Hsrc, Hshape.
      rewrite fmap_cons in Hsorted. cbn [fst snd] in Hsorted.
      assert (∃ t0, strptime ts0 = Some t0) as [t0 Ht0].
      { apply StronglySorted_inv in Hsorted as [_ Hall].
        unfold rest in Hall. rewrite fmap_app in Hall.
        apply Forall_app in Hall as [_ Hall].
        apply Forall_cons in Hall as [(t0 & ? & ? & _) _]. eauto. }
      destruct (backup_first base_name w p0 ts0 t0 Hbase Hsrc Hshape Ht0 Hro)
        as [Hnew Hlatest].
      { intros e He. destruct (Hold e ts0 He) as (t & Ht & Hlt'); [left|].
        congruence. }
      cbn [take_backups].
      set (w1 := (backup_tracker_file w p0 ts0).2) in *.
      intros e.
      rewrite (take_backups_last_two base_name rest w1 ts0
                 (backup_entry_of base_name ts0)).
      * unfold rest. rewrite !fmap_app.
        change (backup_entry_of base_name <$> [(p1, ts1); (p2, ts2)].*2)
          with [backup_entry_of base_name ts1; backup_entry_of base_name ts2].
        rewrite last_two_app. cbn [fst snd].
        rewrite elem_of_cons, list_elem_of_singleton. done.
      * unfold rest. by destruct front'.
      * done.
      * intros e' He' Hne'. rewrite (backup_entry_of_time _ _ _ Ht0).
        by apply Hlatest.
      * eapply Forall_impl; [exact Hrest|].
        intros run (Hb1 & Hs1 & Hsh1). split_and!; [done| |done].
        unfold w1. rewrite backup_tracker_file_keeps_base; [done|congruence].
      * done.
      * intros fn. unfold w1. rewrite backup_tracker_file_readonly. apply Hro.
  - intros w0 tracker_path timestamp content Hsrc Hw.
    unfold backup_tracker_file. rewrite Hsrc.
    unfold write_file. by rewrite decide_False.
Qed.

(* ================================================================== *)
(** * Further properties of the grid engine and the tracker store *)

(** ** The grids the engine builds are square *)

Lemma merge_grids_square_aux pg sg pk sk mk :
  NoDup pk → NoDup sk → NoDup mk →
  ∃ mg, _merge_grids pg sg pk sk mk = Some mg
    ∧ square_over mg mk
    ∧ ∀ k, k ∉ mk → mg !! k = None.
Proof using decompress_compress.
  intros Hp Hs Hm.
  destruct (merge_grids_rows pg sg pk sk mk Hp Hs Hm) as (mg & Hmg & Hout & Hrows).
  exists mg. split; [done|]. split; [|done].
  intros i k Hik.
  destruct (Hrows k i (list_index_lookup _ _ _ Hm Hik))
    as (row & Hrow & Hlen & Hdiag & _).
  exists (compress (join row)), (join row).
  by rewrite decompress_compress, chars_join.
Qed.

(** [_merge_grids] returns, for any two input grids (rows may be missing,
    undecodable or of the wrong width), a grid with a row for exactly the
    merged keys, each decoding to the merged key count with the diagonal
    symbol at the key's own index. *)
Theorem merge_grids_square pg sg pk sk mk :
  NoDup pk → NoDup sk → NoDup mk →
  ∃ mg, _merge_grids pg sg pk sk mk = Some mg
    ∧ square_over mg mk
    ∧ ∀ k, k ∉ mk → mg !! k = None.
Proof using decompress_compress. apply merge_grids_square_aux. Qed.

(** Merging is symmetric where the inputs do not disagree: for a pair of
    distinct merged keys on which primary and secondary do not hold two
    different committed symbols, the merged cell is the same whichever of
    the two trackers is taken as primary. *)
Theorem merge_grids_comm_on_agreement pg sg pk sk mk mg mg' r c :
  NoDup pk → NoDup sk → NoDup mk →
  _merge_grids pg sg pk sk mk = Some mg →
  _merge_grids sg pg sk pk mk = Some mg' →
  r ∈ mk → c ∈ mk → r ≠ c →
  (∀ v w, grid_cell pg pk r c = Some v → grid_cell sg sk r c = Some w →
          v ≠ PLACEHOLDER_CHAR → w ≠ PLACEHOLDER_CHAR → v = w) →
  grid_cell mg mk r c = grid_cell mg' mk r c.
Proof using decompress_compress.
  intros Hp Hs Hm Hmg Hmg' Hr Hc Hrc Hagree.
  rewrite (merge_grids_cell pg sg pk sk mk mg r c) by done.
  rewrite (merge_grids_cell sg pg sk pk mk mg' r c) by done.
  f_equal. unfold final_val.
  destruct (grid_cell pg pk r c) as [v|], (grid_cell sg sk r c) as [w|];
    repeat case_decide; try done.
  by apply Hagree.
Qed.

(** The grid that [update_tracker] rebuilds and fills (lines 798-849) is
    always produced, whatever the old grid and the suggestions hold, and it
    is square over the final key order: it passes the validation of
    [write_tracker_file]. *)
Theorem update_grid_square existing_grid old_keys_list final_sorted_keys_list
    final_suggestions_to_apply :
  DIAGONAL_CHAR ≠ PLACEHOLDER_CHAR →
  NoDup old_keys_list → NoDup final_sorted_keys_list →
  ∃ gs, update_grid existing_grid old_keys_list final_sorted_keys_list
          final_suggestions_to_apply = Some gs
    ∧ square_over (compress_grid (gs_grid gs)) final_sorted_keys_list.
Proof using decompress_compress.
  intros Hdp Hold Hfinal. unfold update_grid.
  destruct (rebuild_grid_rows existing_grid old_keys_list final_sorted_keys_list
              Hold Hfinal) as (g & -> & _ & Hrows).
  simpl.
  destruct (apply_suggestions_fills final_sorted_keys_list Hfinal
              final_suggestions_to_apply g) as (gs & Hgs & Hfills).
  { intros k [ri Hri]%list_index_is_Some.
    destruct (Hrows k ri Hri) as (row & Hrow & Hlen & _). by exists row. }
  exists gs. split; [done|].
  intros i k Hik.
  destruct (Hrows k i (list_index_lookup _ _ _ Hfinal Hik))
    as (row & Hrow & Hlen & Hdiag & _).
  destruct (Hfills k row Hrow) as (row' & Hrow' & Hlen' & Hkeep).
  exists (compress (join row')), (join row').
  unfold compress_grid. rewrite lookup_fmap, Hrow'. simpl.
  rewrite decompress_compress, chars_join.
  repeat split; [congruence|]. by apply Hkeep.
Qed.

(** ** Backups *)

Lemma backup_tracker_file_frame_aux w (tracker_path : Path) timestamp (q : Path) :
  (q.1 = backup_dir → startswith q.2 (tracker_path.2 +:+ ".") = false) →
  files (backup_tracker_file w tracker_path timestamp).2 !! q = files w !! q
  ∧ readonly (backup_tracker_file w tracker_path timestamp).2 = readonly w.
Proof.
  intros Hq. split; [|apply backup_tracker_file_readonly].
  unfold backup_tracker_file.
  destruct (files w !! tracker_path) as [content|] eqn:Hsrc; [|done].
  unfold write_file. case_decide; [done|]. simpl.
  rewrite cleanup_backups_lookup_other by done. simpl.
  apply lookup_insert_ne. intros <-. simpl in Hq.
  specialize (Hq eq_refl). unfold backup_name in Hq.
  rewrite <- append_assoc, startswith_app in Hq. done.
Qed.

(** A backup changes nothing but backups of the same base name: every file
    outside the backup directory, and every file in it whose name does not
    start with the base name and a dot, is as it was, and so is the set of
    write-protected files. *)
Theorem backup_tracker_file_frame w (tracker_path : Path) timestamp (q : Path) :
  (q.1 = backup_dir → startswith q.2 (tracker_path.2 +:+ ".") = false) →
  files (backup_tracker_file w tracker_path timestamp).2 !! q = files w !! q
  ∧ readonly (backup_tracker_file w tracker_path timestamp).2 = readonly w.
Proof. apply backup_tracker_file_frame_aux. Qed.

(** Retention in one step: after a backup that was written, at most two
    backups of the base name are found in the backup directory, whatever
    their timestamps, when every delete goes through. *)
Theorem backup_tracker_file_at_most_two w (tracker_path : Path) timestamp path :
  (∀ filename, (backup_dir, filename) ∉ readonly w) →
  (backup_tracker_file w tracker_path timestamp).1 = Some path →
  length (backup_files_of tracker_path.2
            (backup_tracker_file w tracker_path timestamp).2) ≤ 2.
Proof.
  intros Hro. unfold backup_tracker_file.
  destruct (files w !! tracker_path) as [content|]; [|done].
  unfold write_file. case_decide; [done|]. simpl. intros _.
  set (w1 := {| files := _; dirs := _; readonly := _ |}).
  transitivity (length (take 2 (sort_desc (backup_files_of tracker_path.2 w1))));
    [|rewrite length_take; lia].
  apply submseteq_length, NoDup_submseteq; [apply backup_files_of_NoDup|].
  intros e He. by apply (cleanup_backups_files tracker_path.2 w1 e) in He.
Qed.

Lemma backup_tracker_file_copies_aux w (tracker_path : Path) timestamp t content :
  files w !! tracker_path = Some content →
  matches_shape timestamp_shape (chars timestamp) = true →
  strptime timestamp = Some t →
  (∀ filename, (backup_dir, filename) ∉ readonly w) →
  (∀ e, e ∈ backup_files_of tracker_path.2 w → (e.1 < t)%N) →
  ∃ path,
    (backup_tracker_file w tracker_path timestamp).1 = Some path
    ∧ files (backup_tracker_file w tracker_path timestamp).2 !! path
      = Some content.
Proof.
  intros Hsrc Hshape Ht Hro Hlater.
  exists (backup_dir, backup_name tracker_path.2 timestamp).
  destruct (backup_step tracker_path.2 w tracker_path timestamp t)
    as (rest & _ & _ & Hfound); [done|by rewrite Hsrc|done..|].
  assert (backup_entry_of tracker_path.2 timestamp
          ∈ backup_files_of tracker_path.2
              (backup_tracker_file w tracker_path timestamp).2) as Hnew
    by (apply Hfound; by left).
  apply backup_files_of_iff in Hnew as (filename & [kept Hkept] & Hentry).
  apply backup_entry_path in Hentry. unfold backup_entry_of in Hentry.
  simpl in Hentry. injection Hentry as <-.
  revert Hkept. unfold backup_tracker_file. rewrite Hsrc.
  unfold write_file. rewrite decide_False by apply Hro. simpl.
  intros Hkept. split; [done|].
  assert (kept = content) as ->; [|exact Hkept].
  revert Hkept. unfold cleanup_backups. case_decide.
  - rewrite remove_all_lookup.
    + case_decide; [done|]. simpl. rewrite lookup_insert_eq. congruence.
    + intros [t' path'] He. apply subseteq_drop in He.
      rewrite sort_desc_Permutation in He.
      apply backup_files_of_elem in He as (fn & -> & _). apply Hro.
  - simpl. rewrite lookup_insert_eq. congruence.
Qed.

(** A backup with a timestamp later than every backup already there holds
    the bytes of the tracker file: the path returned names a file with the
    source's content. *)
Theorem backup_tracker_file_copies w (tracker_path : Path) timestamp t content :
  files w !! tracker_path = Some content →
  matches_shape timestamp_shape (chars timestamp) = true →
  strptime timestamp = Some t →
  (∀ filename, (backup_dir, filename) ∉ readonly w) →
  (∀ e, e ∈ backup_files_of tracker_path.2 w → (e.1 < t)%N) →
  ∃ path,
    (backup_tracker_file w tracker_path timestamp).1 = Some path
    ∧ files (backup_tracker_file w tracker_path timestamp).2 !! path
      = Some content.
Proof. apply backup_tracker_file_copies_aux. Qed.

(** ** Writing a tracker *)

(** [write_tracker_file] reports success only for a grid that passed
    validation and a file that it could open for writing; the directory of
    the file exists then, and the file is there. *)
Theorem write_tracker_file_true_validated w tracker_path key_defs_to_write
    grid_to_write last_key_edit last_grid_edit :
  let result := write_tracker_file w tracker_path key_defs_to_write
                  grid_to_write last_key_edit last_grid_edit in
  result.1 = true →
  validate_grid grid_to_write (sorted_keys key_defs_to_write) = true
  ∧ tracker_path ∉ readonly w
  ∧ tracker_path.1 ∈ dirs result.2
  ∧ is_Some (files result.2 !! tracker_path).
Proof.
  simpl. unfold write_tracker_file. fold (sorted_keys key_defs_to_write).
  destruct (validate_grid grid_to_write (sorted_keys key_defs_to_write));
    [|done]. simpl.
  destruct (fix_grid grid_to_write (sorted_keys key_defs_to_write));
    [|done].
  destruct (tracker_content _ _ _ _ _) as [content complete].
  unfold write_file, makedirs. simpl. case_decide; [done|]. simpl.
  intros _. split_and!; [done..| |].
  - apply elem_of_union_l. by apply elem_of_singleton.
  - rewrite lookup_insert_eq. eauto.
Qed.

Lemma write_tracker_file_frame_aux w (tracker_path : Path) key_defs_to_write
    grid_to_write last_key_edit last_grid_edit :
  let result := write_tracker_file w tracker_path key_defs_to_write
                  grid_to_write last_key_edit last_grid_edit in
  (∀ q : Path, q ≠ tracker_path → files result.2 !! q = files w !! q)
  ∧ readonly result.2 = readonly w
  ∧ (result.1 = false → files result.2 = files w).
Proof using sort_Permutation.
  simpl. unfold write_tracker_file. fold (sorted_keys key_defs_to_write).
  destruct (validate_grid grid_to_write (sorted_keys key_defs_to_write));
    simpl; [|done].
  destruct (fix_grid grid_to_write (sorted_keys key_defs_to_write))
    as [final_grid|]; [|done].
  pose proof (tracker_content_complete key_defs_to_write final_grid
                last_key_edit last_grid_edit) as Hcomplete.
  destruct (tracker_content _ _ _ _ _) as [content complete].
  simpl in Hcomplete. subst complete.
  unfold write_file, makedirs. simpl. case_decide; simpl; [done|].
  split; [|done]. intros q Hq. by apply lookup_insert_ne.
Qed.

(** A write touches no file but the tracker file and no write protection,
    whatever it returns, and takes no directory away; when validation
    rejects the grid, or the file cannot be opened for writing, the call
    returns [False] and no file has changed. *)
Theorem write_tracker_file_frame w (tracker_path : Path) key_defs_to_write
    grid_to_write last_key_edit last_grid_edit :
  let result := write_tracker_file w tracker_path key_defs_to_write
                  grid_to_write last_key_edit last_grid_edit in
  (∀ q : Path, q ≠ tracker_path → files result.2 !! q = files w !! q)
  ∧ readonly result.2 = readonly w
  ∧ dirs w ⊆ dirs result.2
  ∧ (validate_grid grid_to_write (sorted_keys key_defs_to_write) = false
     ∨ tracker_path ∈ readonly w →
     result.1 = false ∧ files result.2 = files w).
Proof.
  simpl. unfold write_tracker_file. fold (sorted_keys key_defs_to_write).
  destruct (validate_grid grid_to_write (sorted_keys key_defs_to_write));
    simpl; [|split_and!; [done..|apply union_subseteq_r|done]].
  destruct (fix_grid grid_to_write (sorted_keys key_defs_to_write))
    as [final_grid|]; [|split_and!; [done..|apply union_subseteq_r|by intros [?|?]]].
  destruct (tracker_content _ _ _ _ _) as [content complete].
  unfold write_file, makedirs. simpl. case_decide; simpl.
  - split_and!; [done..|apply union_subseteq_r|done].
  - split_and!; [|done|apply union_subseteq_r|by intros [?|?]].
    intros q Hq. by apply lookup_insert_ne.
Qed.

(** ** Merging two trackers that both hold keys *)

(** Merging two trackers that both hold keys goes through whenever the
    output file can be written, whatever state their grids are in: the
    merged tracker holds the keys of both, with primary's path for a key
    they share, and a grid that is square over the merged key order. *)
Theorem merge_trackers_union w primary_tracker_path secondary_tracker_path
    output_path timestamp now_iso :
  let out := default primary_tracker_path output_path in
  let w1 := merge_backup w primary_tracker_path secondary_tracker_path out
              timestamp in
  let primary_data := read_tracker_file w1 primary_tracker_path in
  let secondary_data := read_tracker_file w1 secondary_tracker_path in
  td_keys primary_data ≠ ∅ →
  td_keys secondary_data ≠ ∅ →
  out ∉ readonly w →
  ∃ merged_data w',
    merge_trackers w primary_tracker_path secondary_tracker_path output_path
      timestamp now_iso = (Returned (Some merged_data), w')
    ∧ (∀ k, td_keys merged_data !! k
            = match td_keys primary_data !! k with
              | Some path => Some path
              | None => td_keys secondary_data !! k
              end)
    ∧ square_over (td_grid merged_data) (sorted_keys (td_keys merged_data))
    ∧ is_Some (files w' !! out).
Proof using decompress_compress sort_Permutation validate_grid_square.
  intros out w1 primary_data secondary_data Hp Hs Hro.
  unfold merge_trackers. fold out. fold w1. fold primary_data secondary_data.
  unfold merged_tracker_data.
  rewrite !bool_decide_eq_false_2 by done. simpl.
  destruct (merge_grids_square_aux (td_grid primary_data) (td_grid secondary_data)
              (sorted_keys (td_keys primary_data))
              (sorted_keys (td_keys secondary_data))
              (sorted_keys (td_keys primary_data ∪ td_keys secondary_data)))
    as (mg & Hmg & Hsquare & _); try apply sorted_keys_NoDup.
  unfold sorted_keys in Hmg. rewrite Hmg. simpl.
  destruct (write_tracker_file_succeeds w1 out
              (td_keys primary_data ∪ td_keys secondary_data) mg
              (str_or (td_last_key_edit primary_data)
                      (td_last_key_edit secondary_data))
              ("Merged from " +:+ primary_tracker_path.2 +:+ " and "
                 +:+ secondary_tracker_path.2 +:+ " on " +:+ now_iso))
    as (final_grid & w' & Hrun & _ & Hfiles & _); [done| |].
  { unfold w1. by rewrite merge_backup_readonly. }
  rewrite Hrun. eexists _, w'. split; [done|]. simpl.
  split; [|split; [done|]].
  - intros k. rewrite lookup_union.
    by destruct (td_keys primary_data !! k), (td_keys secondary_data !! k).
  - rewrite Hfiles, lookup_insert_eq. eauto.
Qed.

(** ** Removing a key *)

(** Whatever way a removal ends, it changes no file but the tracker file
    and the backups of the tracker's base name. *)
Theorem remove_key_from_tracker_frame w (output_file : Path) key_to_remove
    timestamp (q : Path) :
  q ≠ output_file →
  (q.1 = backup_dir → startswith q.2 (output_file.2 +:+ ".") = false) →
  files (remove_key_from_tracker w output_file key_to_remove timestamp).2 !! q
  = files w !! q.
Proof using sort_Permutation.
  intros Hq Hbackup. unfold remove_key_from_tracker.
  destruct (files w !! output_file) as [raw0|]; [|done].
  destruct (backup_tracker_file_frame_aux w output_file timestamp q Hbackup)
    as [Hkept _].
  set (w1 := (backup_tracker_file w output_file timestamp).2) in *.
  destruct (files w1 !! output_file) as [raw|]; [|done].
  destruct (_read_existing_keys _ !! key_to_remove) as [path_removed|]; [|done].
  destruct (removal_grid _ _ key_to_remove) as [final_grid|]; [|done].
  match goal with
  | |- context [write_tracker_file ?a ?b ?c ?d ?e ?f] =>
      destruct (write_tracker_file_frame_aux a b c d e f) as [Hframe _];
      destruct (write_tracker_file a b c d e f) as [[] w']
  end; simpl in *; by rewrite Hframe.
Qed.

(** A removal that goes through leaves the tracker as it was in the backup
    directory: with a timestamp later than every backup already there, the
    backup of that timestamp holds the bytes the tracker file had before
    the key was removed. *)
Theorem remove_key_from_tracker_backs_up w (output_file : Path) key_to_remove
    timestamp t raw w' :
  files w !! output_file = Some raw →
  matches_shape timestamp_shape (chars timestamp) = true →
  strptime timestamp = Some t →
  (∀ filename, (backup_dir, filename) ∉ readonly w) →
  (∀ e, e ∈ backup_files_of output_file.2 w → (e.1 < t)%N) →
  remove_key_from_tracker w output_file key_to_remove timestamp
  = (RemovalDone, w') →
  files w' !! (backup_dir, backup_name output_file.2 timestamp) = Some raw.
Proof using sort_Permutation.
  intros Hsrc Hshape Ht Hro Hlater.
  destruct (backup_tracker_file_copies_aux w output_file timestamp t raw)
    as (path & Hpath & Hcopy); [done..|].
  assert (path = (backup_dir, backup_name output_file.2 timestamp)) as ->.
  { revert Hpath. unfold backup_tracker_file. rewrite Hsrc.
    unfold write_file. case_decide; [done|]. simpl. congruence. }
  unfold remove_key_from_tracker. rewrite Hsrc.
  set (w1 := (backup_tracker_file w output_file timestamp).2) in *.
  destruct (files w1 !! output_file) as [raw1|]; [|done].
  destruct (_read_existing_keys _ !! key_to_remove) as [path_removed|]; [|done].
  destruct (removal_grid _ _ key_to_remove) as [final_grid|]; [|done].
  match goal with
  | |- context [write_tracker_file ?a ?b ?c ?d ?e ?f] =>
      destruct (write_tracker_file_frame_aux a b c d e f) as [Hframe _];
      destruct (write_tracker_file a b c d e f) as [[] w'']
  end; [|done].
  intros [= <-]. simpl in Hframe. rewrite Hframe; [done|].
  intros Heq. destruct output_file as [d base]. simpl in *.
  injection Heq as _ Heq. by apply backup_name_ne in Heq.
Qed.

(** ** Removing a file *)

(** What a write that reports success did. *)
Lemma write_tracker_file_true w w' (tracker_path : Path) key_defs grid
    last_key_edit last_grid_edit :
  write_tracker_file w tracker_path key_defs grid last_key_edit last_grid_edit
  = (true, w') →
  ∃ final_grid,
    validate_grid grid (sorted_keys key_defs) = true
    ∧ fix_grid grid (sorted_keys key_defs) = Some final_grid
    ∧ tracker_path ∉ readonly w
    ∧ files w' = <[tracker_path :=
                    (tracker_content key_defs final_grid (sorted_keys key_defs)
                       last_key_edit last_grid_edit).1]> (files w).
Proof.
  unfold write_tracker_file. fold (sorted_keys key_defs).
  destruct (validate_grid grid (sorted_keys key_defs)); [|done]. simpl.
  destruct (fix_grid grid (sorted_keys key_defs)) as [final_grid|]; [|done].
  destruct (tracker_content _ _ _ _ _) as [content complete] eqn:Hcontent.
  unfold write_file, makedirs. simpl. case_decide; [done|].
  intros [= -> <-]. exists final_grid. simpl. by rewrite Hcontent.
Qed.

(** The other way round. *)
Lemma write_tracker_file_true_2 w (tracker_path : Path) key_defs grid final_grid
    last_key_edit last_grid_edit :
  validate_grid grid (sorted_keys key_defs) = true →
  fix_grid grid (sorted_keys key_defs) = Some final_grid →
  tracker_path ∉ readonly w →
  ∃ w', write_tracker_file w tracker_path key_defs grid last_key_edit
          last_grid_edit = (true, w')
    ∧ files w' = <[tracker_path :=
                    (tracker_content key_defs final_grid (sorted_keys key_defs)
                       last_key_edit last_grid_edit).1]> (files w).
Proof using sort_Permutation.
  intros Hvalid Hfix Hro.
  unfold write_tracker_file. fold (sorted_keys key_defs).
  rewrite Hvalid, Hfix. simpl.
  pose proof (tracker_content_complete key_defs final_grid
                last_key_edit last_grid_edit) as Hcomplete.
  destruct (tracker_content _ _ _ _ _) as [content complete].
  simpl in Hcomplete. subst complete.
  unfold write_file, makedirs. simpl. rewrite decide_False by done.
  eexists. split; done.
Qed.

(** Whether a write goes through does not depend on the audit strings. *)
Lemma write_tracker_file_audit w (tracker_path : Path) key_defs grid a b a' b' :
  (write_tracker_file w tracker_path key_defs grid a b).1
  = (write_tracker_file w tracker_path key_defs grid a' b').1.
Proof using sort_Permutation.
  destruct (write_tracker_file w tracker_path key_defs grid a b)
    as [[] w1] eqn:H1.
  - apply write_tracker_file_true in H1 as (fg & Hvalid & Hfix & Hro & _).
    by destruct (write_tracker_file_true_2 w tracker_path key_defs grid fg a' b')
      as (w2 & -> & _).
  - destruct (write_tracker_file w tracker_path key_defs grid a' b')
      as [[] w2] eqn:H2; [|done].
    apply write_tracker_file_true in H2 as (fg & Hvalid & Hfix & Hro & _).
    destruct (write_tracker_file_true_2 w tracker_path key_defs grid fg a b)
      as (w3 & H3 & _); [done..|]. congruence.
Qed.

(** Removing a file that the global map gives no key, or a key that the
    tracker does not define, changes nothing in the tracker file and raises
    nothing. *)
Theorem remove_file_from_tracker_unknown w output_file file_to_remove
    path_to_key_info timestamp raw :
  files w !! output_file = Some raw →
  match get_key_string_from_path (normalize_path file_to_remove)
          path_to_key_info with
  | None => True
  | Some key_to_remove =>
      _read_existing_keys (readlines (universal_newlines raw)) !! key_to_remove
      = None
  end →
  ∃ w', remove_file_from_tracker w output_file file_to_remove path_to_key_info
          timestamp = (RemovalNoChange, w')
    ∧ files w' !! output_file = Some raw.
Proof.
  intros Hfile Hkey. unfold remove_file_from_tracker. rewrite Hfile.
  set (w1 := (backup_tracker_file w output_file timestamp).2).
  assert (files w1 !! output_file = Some raw) as ->.
  { unfold w1. by rewrite backup_tracker_file_keeps_source. }
  exists w1. split; [|by unfold w1; rewrite backup_tracker_file_keeps_source].
  destruct (get_key_string_from_path _ _) as [key_to_remove|]; [|done].
  by rewrite Hkey.
Qed.

(** Removing a file is removing its key: when the global map gives the
    file the key [k], [remove_file_from_tracker] ends the way
    [remove_key_from_tracker] does for [k], with the same files apart from
    the tracker file; and when the removal goes through, the two tracker
    files hold the same key definitions and the same grid and differ in the
    key audit string only, which names the file instead of the path on
    record. *)
Theorem remove_file_from_tracker_by_key w (output_file : Path) file_to_remove
    path_to_key_info timestamp k :
  get_key_string_from_path (normalize_path file_to_remove) path_to_key_info
  = Some k →
  let by_file := remove_file_from_tracker w output_file file_to_remove
                   path_to_key_info timestamp in
  let by_key := remove_key_from_tracker w output_file k timestamp in
  by_file.1 = by_key.1
  ∧ (∀ q : Path, q ≠ output_file → files by_file.2 !! q = files by_key.2 !! q)
  ∧ (by_key.1 ≠ RemovalDone → files by_file.2 = files by_key.2)
  ∧ (by_key.1 = RemovalDone →
     ∃ key_defs final_grid path_removed,
       files by_key.2 !! output_file
       = Some (tracker_content key_defs final_grid (sorted_keys key_defs)
                 ("Removed key: " +:+ k +:+ " (Path: " +:+ path_removed +:+ ")")
                 ("Grid adjusted for removal of key: " +:+ k)).1
       ∧ files by_file.2 !! output_file
         = Some (tracker_content key_defs final_grid (sorted_keys key_defs)
                   ("Removed key: " +:+ k +:+ " ("
                      +:+ basename (normalize_path file_to_remove) +:+ ")")
                   ("Grid adjusted for removal of key: " +:+ k)).1).
Proof using sort_Permutation.
  intros Hk. simpl.
  unfold remove_file_from_tracker, remove_key_from_tracker. rewrite Hk.
  destruct (files w !! output_file) as [raw0|]; [|done].
  set (w1 := (backup_tracker_file w output_file timestamp).2).
  destruct (files w1 !! output_file) as [raw|]; [|done].
  set (existing_key_defs := _read_existing_keys _).
  set (existing_grid := _read_existing_grid _).
  destruct (existing_key_defs !! k) as [path_removed|]; [|done].
  destruct (removal_grid existing_key_defs existing_grid k) as [fg|]; [|done].
  set (key_defs := delete k existing_key_defs).
  set (a := "Removed key: " +:+ k +:+ " (" +:+ _ +:+ ")").
  set (a' := "Removed key: " +:+ k +:+ " (Path: " +:+ _ +:+ ")").
  set (b := "Grid adjusted for removal of key: " +:+ k).
  pose proof (write_tracker_file_audit w1 output_file key_defs fg a b a' b)
    as Hsame.
  destruct (write_tracker_file_frame_aux w1 output_file key_defs fg a b)
    as (Hothers & _ & Hfail).
  destruct (write_tracker_file_frame_aux w1 output_file key_defs fg a' b)
    as (Hothers' & _ & Hfail').
  destruct (write_tracker_file w1 output_file key_defs fg a b)
    as [[] w2] eqn:Hrun;
    destruct (write_tracker_file w1 output_file key_defs fg a' b)
      as [[] w2'] eqn:Hrun'; try done; simpl in *.
  - split; [done|]. split.
    { intros q Hq. by rewrite Hothers, Hothers'. }
    split; [done|]. intros _.
    apply write_tracker_file_true in Hrun as (final_grid & _ & Hfix & _ & ->).
    apply write_tracker_file_true in Hrun' as (final_grid' & _ & Hfix' & _ & ->).
    assert (final_grid' = final_grid) as -> by congruence.
    exists key_defs, final_grid, path_removed.
    by rewrite !lookup_insert_eq.
  - split; [done|]. split.
    { intros q Hq. by rewrite Hothers, Hothers'. }
    split; [|done]. intros _. by rewrite Hfail, Hfail'.
Qed.

(** ** The section writers of [update_tracker] *)

Lemma append_nil_r s : s +:+ EmptyString = s.
Proof.
  induction s as [|c s IH]; [done|].
  change (String c (s +:+ EmptyString) = String c s). by rewrite IH.
Qed.

Lemma concat_cons x xs :
  String.concat EmptyString (x :: xs) = x +:+ String.concat EmptyString xs.
Proof. destruct xs; simpl; [by rewrite append_nil_r|done]. Qed.

Lemma write_key_lines_all key_defs keys out :
  (∀ k, k ∈ keys → is_Some (key_defs !! k)) →
  write_key_lines key_defs keys out
  = (out +:+ String.concat EmptyString
               ((λ k, k +:+ ": "
                        +:+ normalize_path (default EmptyString (key_defs !! k))
                        +:+ nl) <$> keys), true).
Proof.
  revert out. induction keys as [|k keys IH]; intros out Hall.
  - simpl. by rewrite append_nil_r.
  - rewrite fmap_cons, concat_cons. simpl.
    destruct (Hall k) as [v Hv]; [left|]. rewrite Hv. simpl.
    rewrite IH by (intros k' Hk'; apply Hall; by right).
    by rewrite append_assoc.
Qed.

(** A row that [compress] made is written back as it is by both writers. *)
Lemma write_grid_row_fix_row (g : gmap string (list ascii)) n k2i k :
  write_grid_row (compress_grid g) n k2i k
  = row ← fix_row (compress_grid g) n k2i k; Some (k +:+ " = " +:+ row +:+ nl).
Proof using decompress_compress.
  unfold write_grid_row, fix_row, compress_grid. rewrite lookup_fmap.
  destruct (g !! k) as [row|]; simpl; [|done].
  rewrite decompress_compress, chars_join.
  case_decide; simpl; [|done]. done.
Qed.

Lemma write_grid_rows_fix_grid (g : gmap string (list ascii)) n k2i keys fg0 fg :
  NoDup keys →
  fix_grid_from (compress_grid g) n k2i keys fg0 = Some fg →
  mapM (write_grid_row (compress_grid g) n k2i) keys
  = Some ((λ key, key +:+ " = " +:+ default EmptyString (fg !! key) +:+ nl)
            <$> keys)
  ∧ ∀ k, k ∉ keys → fg !! k = fg0 !! k.
Proof using decompress_compress.
  intros Hnd. revert fg0. induction Hnd as [|k keys Hnotin Hnd IH]; intros fg0.
  - simpl. by intros [= ->].
  - simpl. rewrite write_grid_row_fix_row.
    destruct (fix_row (compress_grid g) n k2i k) as [row|]; simpl; [|done].
    intros Hrest. destruct (IH _ Hrest) as [Hrows Hout].
    rewrite Hrows. simpl. split.
    + rewrite Hout by done. by rewrite lookup_insert_eq.
    + intros k' Hk'. apply not_elem_of_cons in Hk' as [Hne Hk'].
      rewrite Hout by done. by apply lookup_insert_ne.
Qed.

(** The data section that [update_tracker] writes for a grid it has just
    compressed is, byte for byte, the file that [write_tracker_file] writes
    for the same keys, grid and audit strings, when no path is the text
    [PATH_ERROR]; writing it raises nothing. *)
Theorem update_section_as_write_tracker_file key_defs
    (g : gmap string (list ascii)) last_key_edit last_grid_edit :
  (∀ k, key_defs !! k ≠ Some "PATH_ERROR") →
  ∃ final_grid,
    fix_grid (compress_grid g) (sorted_keys key_defs) = Some final_grid
    ∧ update_section key_defs (compress_grid g) (sorted_keys key_defs)
        last_key_edit last_grid_edit
      = Some (tracker_content key_defs final_grid (sorted_keys key_defs)
                last_key_edit last_grid_edit).1.
Proof using decompress_compress sort_Permutation.
  intros Hpaths.
  pose proof (sorted_keys_NoDup key_defs) as Hnd.
  destruct (fix_grid_spec (compress_grid g) (sorted_keys key_defs) Hnd)
    as (final_grid & Hfix & _).
  exists final_grid. split; [done|].
  destruct (write_grid_rows_fix_grid g _ _ _ _ _ Hnd Hfix) as [Hrows _].
  unfold update_section, _write_grid, tracker_content, _write_key_definitions.
  rewrite write_key_lines_all by (intros k Hk; by apply sorted_keys_elem).
  assert (key_definition_line key_defs <$> sorted_keys key_defs
          = (λ k, k +:+ ": "
                    +:+ normalize_path (default EmptyString (key_defs !! k))
                    +:+ nl) <$> sorted_keys key_defs) as ->.
  { apply list_fmap_ext. intros i k Hk. unfold key_definition_line.
    assert (is_Some (key_defs !! k)) as [v Hv].
    { apply sorted_keys_elem. by eapply list_elem_of_lookup_2. }
    rewrite Hv. simpl. rewrite decide_True; [done|].
    intros ->. by apply (Hpaths k). }
  generalize (String.concat EmptyString
                ((λ k, k +:+ ": "
                         +:+ normalize_path (default EmptyString (key_defs !! k))
                         +:+ nl) <$> sorted_keys key_defs)).
  intros definitions. unfold write_grid_lines.
  destruct (sorted_keys key_defs) as [|k0 keys] eqn:Hkeys.
  - cbn [mbind option_bind fst]. f_equal. by rewrite !append_assoc.
  - rewrite Hrows. cbn [mbind option_bind fst]. f_equal.
    by rewrite !append_assoc.
Qed.

(** ** Exporting a tracker *)

(** The CSV and DOT exports list exactly the relations on record: an edge
    from one key to another with a symbol is exported when and only when
    the tracker's cell for the pair holds that symbol, the symbol is none
    of the empty, diagonal and placeholder symbols, and the row is not the
    empty text. *)
Theorem export_edges_spec grid keys source_key target_key dep_type :
  NoDup keys →
  (source_key, target_key, dep_type) ∈ export_edges grid keys
  ↔ grid_cell grid keys source_key target_key = Some dep_type
    ∧ grid !! source_key ≠ Some EmptyString
    ∧ dep_type ≠ EMPTY_CHAR ∧ dep_type ≠ DIAGONAL_CHAR
    ∧ dep_type ≠ PLACEHOLDER_CHAR.
Proof.
  intros Hnd. drop_collaborators. unfold export_edges, grid_cell, row_cell.
  rewrite list_elem_of_bind. split.
  - intros (s & Hedge & Hs).
    destruct (grid !! s) as [compressed|] eqn:Hrow;
      [|by apply elem_of_nil in Hedge].
    case_bool_decide as Hempty; [by apply elem_of_nil in Hedge|].
    destruct (decompress compressed) as [row|] eqn:Hdec;
      [|by apply elem_of_nil in Hedge].
    case_decide as Hlen; [|by apply elem_of_nil in Hedge].
    unfold export_row_edges in Hedge.
    apply list_elem_of_omap in Hedge as ([j d] & Hjd & Hsome).
    apply elem_of_lookup_imap in Hjd as (j' & d' & [= -> ->] & Hd).
    case_bool_decide as Hsym; [|done].
    destruct (keys !! j') as [t|] eqn:Ht; [|done].
    simpl in Hsome. injection Hsome as -> -> ->.
    apply list_index_is_Some in Hs as [si Hsi]. rewrite Hsi. simpl.
    rewrite Hrow. simpl. rewrite Hdec. simpl. rewrite decide_True by done.
    rewrite (list_index_lookup _ _ _ Hnd Ht). simpl.
    split; [done|]. split; [congruence|]. tauto.
  - intros (Hcell & Hempty & Hsym).
    exists source_key.
    destruct (list_index source_key keys) as [si|] eqn:Hsi; [|done].
    simpl in Hcell. split; [|apply list_index_is_Some; eauto].
    destruct (grid !! source_key) as [compressed|]; [|done]. simpl in Hcell.
    rewrite bool_decide_eq_false_2 by congruence.
    destruct (decompress compressed) as [row|]; [|done]. simpl in Hcell.
    case_decide; [|done].
    destruct (list_index target_key keys) as [j|] eqn:Hj; [|done].
    simpl in Hcell. unfold export_row_edges.
    apply list_elem_of_omap. exists (j, dep_type). split.
    + apply elem_of_lookup_imap. eauto.
    + rewrite bool_decide_eq_true_2 by tauto.
      by rewrite (list_index_Some _ _ _ Hj).
Qed.

(** An export changes no file other than the output file, and none at all
    when it returns an error message: for a tracker without keys, for a
    format that is none of md, json, csv and dot, and when the output file
    cannot be written. *)
Theorem export_tracker_frame w (tracker_path : Path) output_format output_path :
  let result := export_tracker w tracker_path output_format output_path in
  match result.1 with
  | Exported out =>
      (∀ q : Path, q ≠ out → files result.2 !! q = files w !! q)
      ∧ is_Some (files result.2 !! out)
      ∧ output_format ∈ ["md"; "json"; "csv"; "dot"]
  | _ => files result.2 = files w
  end.
Proof.
  drop_collaborators. simpl. unfold export_tracker.
  case_bool_decide; [done|].
  set (out := match output_path with Some _ => _ | None => _ end).
  set (w1 := makedirs out.1 w).
  assert (∀ content,
            match write_file out content w1 with
            | Some w' =>
                (∀ q : Path, q ≠ out → files w' !! q = files w !! q)
                ∧ is_Some (files w' !! out)
            | None => True
            end) as Hwritten.
  { intros content. unfold write_file. case_decide; simpl; [done|].
    split; [intros q Hq; by apply lookup_insert_ne|].
    rewrite lookup_insert_eq. eauto. }
  assert (∀ content fmt,
            fmt ∈ ["md"; "json"; "csv"; "dot"] →
            let result := match write_file out content w1 with
                          | Some w' => (Exported out, w')
                          | None => (ExportIOError, w1)
                          end in
            match result.1 with
            | Exported out' =>
                (∀ q : Path, q ≠ out' → files result.2 !! q = files w !! q)
                ∧ is_Some (files result.2 !! out')
                ∧ fmt ∈ ["md"; "json"; "csv"; "dot"]
            | _ => files result.2 = files w
            end) as Hcase.
  { intros content fmt Hfmt. specialize (Hwritten content). simpl.
    destruct (write_file out content w1); simpl; [|done].
    destruct Hwritten. done. }
  case_bool_decide as Hmd.
  { change (files w1 !! tracker_path) with (files w !! tracker_path).
    destruct (files w !! tracker_path) as [raw|]; [|done].
    case_bool_decide; [done|]. apply Hcase. subst. set_solver. }
  case_bool_decide as Hjson; [apply Hcase; subst; set_solver|].
  case_bool_decide as Hcsv; [apply Hcase; subst; set_solver|].
  case_bool_decide as Hdot; [apply Hcase; subst; set_solver|].
  done.
Qed.

(** Exporting as md copies the tracker file: with a tracker that holds
    keys, an output path that is not the tracker's own and can be written,
    the call returns the output path, the output file holds the bytes of
    the tracker file, and the tracker file is as it was. *)
Theorem export_tracker_md_copies w (tracker_path out : Path) :
  td_keys (read_tracker_file w tracker_path) ≠ ∅ →
  out ≠ tracker_path →
  out ∉ readonly w →
  ∃ w', export_tracker w tracker_path "md" (Some out) = (Exported out, w')
    ∧ files w' !! out = files w !! tracker_path
    ∧ files w' !! tracker_path = files w !! tracker_path.
Proof.
  intros Hkeys Hout Hro. unfold export_tracker.
  rewrite bool_decide_eq_false_2 by done.
  rewrite bool_decide_eq_true_2 by done.
  change (files (makedirs out.1 w) !! tracker_path)
    with (files w !! tracker_path).
  destruct (files w !! tracker_path) as [raw|] eqn:Hraw.
  - rewrite bool_decide_eq_false_2 by done.
    unfold write_file. rewrite decide_False by done.
    eexists. split; [done|]. simpl.
    rewrite lookup_insert_eq, lookup_insert_ne by done. done.
  - exfalso. apply Hkeys. unfold read_tracker_file. by rewrite Hraw.
Qed.

(* ------------------------------------------------------------------ *)
(** ** The text of a tracker file, read line by line *)

(** ** Text well-formedness *)

Lemma alnum_not_space c : is_alnum c = true → is_space c = false.
Proof. destruct c as [[] [] [] [] [] [] [] []]; by vm_compute. Qed.

Lemma alnum_not_linebreak c : is_alnum c = true → is_linebreak c = false.
Proof. destruct c as [[] [] [] [] [] [] [] []]; by vm_compute. Qed.

Lemma lower_alnum c : is_alnum c = true → is_alnum (lower_char c) = true.
Proof. destruct c as [[] [] [] [] [] [] [] []]; by vm_compute. Qed.

Lemma rev_string_involutive s : rev_string (rev_string s) = s.
Proof.
  unfold rev_string. by rewrite chars_join, reverse_involutive, join_chars.
Qed.

Lemma chars_rev_string s : chars (rev_string s) = reverse (chars s).
Proof. unfold rev_string. by rewrite chars_join. Qed.

Lemma lstrip_head c t : is_space c = false → lstrip (String c t) = String c t.
Proof. intros H. simpl. by rewrite H. Qed.

Lemma trimmed_cons s :
  trimmed s = true → ∃ c t, s = String c t ∧ is_space c = false.
Proof.
  unfold trimmed. destruct s as [|c t]; [done|]. simpl.
  intros [H _]%andb_true_iff. exists c, t. by apply negb_true_iff in H.
Qed.

Lemma strip_trimmed s : trimmed s = true → strip s = s.
Proof.
  intros Hs. destruct (trimmed_cons s Hs) as (c & t & -> & Hc).
  unfold strip. rewrite lstrip_head by done.
  unfold trimmed in Hs. apply andb_true_iff in Hs as [_ Hlast].
  destruct (rev_string (String c t)) as [|d u] eqn:Hrev.
  - apply (f_equal chars) in Hrev. rewrite chars_rev_string in Hrev.
    change (chars (String c t)) with (c :: chars t) in Hrev.
    rewrite reverse_cons in Hrev. by destruct (reverse (chars t)).
  - assert (reverse (chars (String c t)) = d :: chars u) as Hd.
    { by rewrite <- chars_rev_string, Hrev. }
    rewrite Hd in Hlast. apply negb_true_iff in Hlast.
    rewrite lstrip_head by done. rewrite <- Hrev.
    apply rev_string_involutive.
Qed.

Lemma lstrip_trimmed s : trimmed s = true → lstrip s = s.
Proof.
  intros Hs. destruct (trimmed_cons s Hs) as (c & t & -> & Hc).
  by apply lstrip_head.
Qed.

(** The line [k sep v], with the blanks the writer puts, is trimmed. *)
Lemma trimmed_line k mid v :
  plain_key k = true → trimmed v = true → trimmed (k +:+ mid +:+ v) = true.
Proof.
  unfold plain_key, trimmed. intros [Hk Halnum]%andb_true_iff Hv.
  rewrite !chars_app, !reverse_app.
  destruct k as [|c k]; [done|]. simpl in *.
  apply andb_true_iff in Halnum as [Hc _].
  rewrite (alnum_not_space c Hc). simpl.
  apply andb_true_iff in Hv as [_ Hlast].
  destruct (reverse (chars v)) as [|d u]; [done|]. done.
Qed.

Lemma span_alnum k c rest :
  forallb is_alnum (chars k) = true → is_alnum c = false →
  span is_alnum (k +:+ String c rest) = (k, String c rest).
Proof.
  intros Hk Hc. induction k as [|a k IH]; simpl in *.
  - by rewrite Hc.
  - apply andb_true_iff in Hk as [Ha Hk]. rewrite Ha.
    change (String.append k (String c rest)) with (k +:+ String c rest).
    by rewrite IH.
Qed.

(** What the line pattern reads from a definition line and from a grid
    row as the writer lays them out. *)
Lemma match_key_line_colon k v :
  plain_key k = true → trimmed v = true →
  match_key_line ":" (k +:+ ": " +:+ v) = Some (k, v).
Proof.
  intros Hk Hv. unfold match_key_line.
  apply andb_true_iff in Hk as [Hne Hk].
  change (k +:+ ": " +:+ v) with (k +:+ String ":" (String " " v)).
  rewrite span_alnum by done.
  destruct k as [|a k]; [done|].
  simpl. by rewrite (lstrip_trimmed v Hv).
Qed.

Lemma match_key_line_equals k v :
  plain_key k = true → trimmed v = true →
  match_key_line "=" (k +:+ " = " +:+ v) = Some (k, v).
Proof.
  intros Hk Hv. unfold match_key_line.
  apply andb_true_iff in Hk as [Hne Hk].
  change (k +:+ " = " +:+ v) with (k +:+ String " " (String "=" (String " " v))).
  rewrite span_alnum by done.
  destruct k as [|a k]; [done|].
  simpl. by rewrite (lstrip_trimmed v Hv).
Qed.

Lemma lower_append a b : lower (a +:+ b) = lower a +:+ lower b.
Proof.
  unfold lower. induction a as [|c a IH]; [done|].
  change (String (lower_char c) (map_string lower_char (a +:+ b))
          = String (lower_char c)
              (map_string lower_char a +:+ map_string lower_char b)).
  by rewrite IH.
Qed.

Lemma upper_append a b : upper (a +:+ b) = upper a +:+ upper b.
Proof.
  unfold upper. induction a as [|c a IH]; [done|].
  change (String (upper_char c) (map_string upper_char (a +:+ b))
          = String (upper_char c)
              (map_string upper_char a +:+ map_string upper_char b)).
  by rewrite IH.
Qed.

Lemma startswith_false s p : strip_prefix p s = None → startswith s p = false.
Proof.
  intros H. unfold startswith. rewrite H.
  apply bool_decide_eq_false. by intros [? ?].
Qed.

Lemma lower_alnum_not c d :
  is_alnum c = true → is_alnum d = false → d ≠ lower_char c.
Proof. intros Hc Hd ->. by rewrite lower_alnum in Hd. Qed.

(** A definition line is not the heading of the section: the heading has
    a blank where a key has none. *)
Lemma key_line_not_heading k rest :
  plain_key k = true →
  startswith (lower (k +:+ String ":" rest)) "key definitions:" = false.
Proof.
  intros [Hne Hk]%andb_true_iff. apply startswith_false.
  rewrite lower_append.
  destruct k as [|c1 k]; [done|]. simpl in Hk.
  apply andb_true_iff in Hk as [H1 Hk].
  destruct k as [|c2 k]; [simpl; repeat case_decide; done|]. simpl in Hk.
  apply andb_true_iff in Hk as [H2 Hk].
  destruct k as [|c3 k]; [simpl; repeat case_decide; done|]. simpl in Hk.
  apply andb_true_iff in Hk as [H3 Hk].
  destruct k as [|c4 k]; [simpl; repeat case_decide; done|]. simpl in Hk.
  apply andb_true_iff in Hk as [H4 Hk].
  simpl. repeat case_decide; try done.
  by destruct (lower_alnum_not c4 " " H4).
Qed.

Lemma strip_line_feed l : trimmed l = true → strip (l +:+ nl) = l.
Proof.
  intros Hl. destruct (trimmed_cons l Hl) as (c & t & -> & Hc).
  unfold strip.
  change (String c t +:+ nl) with (String c (t +:+ nl)).
  rewrite lstrip_head by done.
  change (String c (t +:+ nl)) with (String c t +:+ nl).
  assert (rev_string (String c t +:+ nl) = String newline (rev_string (String c t)))
    as ->.
  { unfold rev_string. rewrite chars_app. unfold nl.
    change (chars (String newline "")) with [newline].
    by rewrite reverse_app. }
  simpl.
  unfold trimmed in Hl. apply andb_true_iff in Hl as [_ Hlast].
  rewrite <- chars_rev_string in Hlast.
  destruct (rev_string (String c t)) as [|d u] eqn:Hrev; [done|].
  simpl in Hlast. apply negb_true_iff in Hlast.
  rewrite lstrip_head by done. rewrite <- Hrev. apply rev_string_involutive.
Qed.

Lemma unlines_cons l ls : unlines (l :: ls) = l +:+ nl +:+ unlines ls.
Proof. unfold unlines. by rewrite fmap_cons, concat_cons, append_assoc. Qed.

Lemma unlines_app ls ls' : unlines (ls ++ ls') = unlines ls +:+ unlines ls'.
Proof.
  induction ls as [|l ls IH]; [done|].
  rewrite <- app_comm_cons, !unlines_cons, IH. by rewrite !append_assoc.
Qed.

Lemma linebreak_newline : is_linebreak newline = true.
Proof. done. Qed.

Lemma readlines_from_line cur l rest :
  single_line l = true →
  readlines_from cur (l +:+ nl +:+ rest)
  = join (reverse cur ++ chars l ++ [newline]) :: readlines_from [] rest.
Proof.
  revert cur. induction l as [|c l IH]; intros cur Hl.
  - change (EmptyString +:+ nl +:+ rest) with (String newline rest).
    cbn [readlines_from]. rewrite decide_True by done. by rewrite reverse_cons.
  - apply andb_true_iff in Hl as [Hc Hl]. apply negb_true_iff in Hc.
    change (String c l +:+ nl +:+ rest) with (String c (l +:+ nl +:+ rest)).
    cbn [readlines_from].
    rewrite decide_False by (intros ->; by rewrite linebreak_newline in Hc).
    rewrite IH by done. by rewrite reverse_cons, <- !app_assoc.
Qed.

Lemma readlines_unlines ls :
  Forall (λ l, single_line l = true) ls →
  readlines (unlines ls) = (λ l, l +:+ nl) <$> ls.
Proof.
  unfold readlines. induction 1 as [|l ls Hl _ IH]; [done|].
  rewrite unlines_cons, readlines_from_line by done.
  rewrite IH, fmap_cons. f_equal.
  rewrite reverse_nil, app_nil_l, join_app, join_chars. done.
Qed.

Lemma universal_newlines_line l rest :
  single_line l = true →
  universal_newlines (l +:+ nl +:+ rest) = l +:+ nl +:+ universal_newlines rest.
Proof.
  intros Hl. induction l as [|c l IH].
  - change (EmptyString +:+ nl +:+ rest) with (String newline rest). done.
  - apply andb_true_iff in Hl as [Hc Hl]. apply negb_true_iff in Hc.
    change (String c l +:+ nl +:+ rest) with (String c (l +:+ nl +:+ rest)).
    change (String c l +:+ nl +:+ universal_newlines rest)
      with (String c (l +:+ nl +:+ universal_newlines rest)).
    cbn [universal_newlines]. rewrite decide_False.
    + by rewrite IH.
    + intros ->. by vm_compute in Hc.
Qed.

Lemma universal_newlines_unlines ls :
  Forall (λ l, single_line l = true) ls →
  universal_newlines (unlines ls) = unlines ls.
Proof.
  induction 1 as [|l ls Hl _ IH]; [done|].
  by rewrite unlines_cons, universal_newlines_line, IH.
Qed.

Lemma single_line_append a b :
  single_line (a +:+ b) = single_line a && single_line b.
Proof. unfold single_line. by rewrite chars_app, forallb_app. Qed.

Lemma plain_key_single_line k : plain_key k = true → single_line k = true.
Proof.
  intros [_ Hk]%andb_true_iff. unfold single_line.
  induction (chars k) as [|c cs IH]; [done|]. simpl in *.
  apply andb_true_iff in Hk as [Hc Hk].
  by rewrite (alnum_not_linebreak c Hc), IH.
Qed.

Lemma plain_value_single_line v : plain_value v = true → single_line v = true.
Proof. by intros [? _]%andb_true_iff. Qed.

Lemma plain_value_trimmed v : plain_value v = true → trimmed v = true.
Proof. by intros [_ ?]%andb_true_iff. Qed.

Lemma unlines_fmap {A} (f : A → string) (l : list A) :
  unlines (f <$> l) = String.concat EmptyString ((λ x, f x +:+ nl) <$> l).
Proof. unfold unlines. by rewrite <- list_fmap_compose. Qed.

Lemma tracker_content_unlines key_defs final_grid keys last_key_edit
    last_grid_edit :
  (∀ k, k ∈ keys → is_Some (key_defs !! k)) →
  (tracker_content key_defs final_grid keys last_key_edit last_grid_edit).1
  = unlines (tracker_lines key_defs final_grid keys last_key_edit
               last_grid_edit).
Proof.
  intros Hkeys. unfold tracker_content, tracker_lines, key_line, grid_line.
  rewrite write_key_lines_all by done.
  rewrite !unlines_app, !unlines_fmap. cbn [fst].
  assert ((λ k, k +:+ ": "
                  +:+ normalize_path (default EmptyString (key_defs !! k))
                  +:+ nl) <$> keys
          = (λ k, (k +:+ ": "
                     +:+ normalize_path (default EmptyString (key_defs !! k)))
                  +:+ nl) <$> keys) as ->.
  { apply list_fmap_ext. intros i k _. by rewrite !append_assoc. }
  generalize (String.concat EmptyString
                ((λ k, (k +:+ ": "
                          +:+ normalize_path (default EmptyString (key_defs !! k)))
                       +:+ nl) <$> keys)).
  intros definitions. unfold write_grid_lines.
  assert ((λ key, key +:+ " = " +:+ default EmptyString (final_grid !! key)
                  +:+ nl) <$> keys
          = (λ k, (k +:+ " = " +:+ default EmptyString (final_grid !! k))
                  +:+ nl) <$> keys) as Hrows.
  { apply list_fmap_ext. intros i k _. by rewrite !append_assoc. }
  rewrite !unlines_cons.
  change (unlines []) with EmptyString.
  destruct keys as [|k0 keys].
  - cbn [fmap list_fmap String.concat join_with].
    by rewrite !append_assoc, ?append_nil_r.
  - rewrite Hrows.
    generalize (String.concat EmptyString
                  ((λ k, (k +:+ " = "
                            +:+ default EmptyString (final_grid !! k))
                         +:+ nl) <$> k0 :: keys)).
    intros rows. by rewrite !append_assoc, ?append_nil_r.
Qed.

Lemma trimmed_append p v :
  (∃ c t, p = String c t ∧ is_space c = false) → trimmed v = true →
  trimmed (p +:+ v) = true.
Proof.
  intros (c & t & -> & Hc) Hv. unfold trimmed in *.
  rewrite chars_app, reverse_app.
  change (chars (String c t)) with (c :: chars t). rewrite <- app_comm_cons.
  rewrite Hc. simpl.
  apply andb_true_iff in Hv as [_ Hlast].
  by destruct (reverse (chars v)).
Qed.

Lemma plain_key_cons k :
  plain_key k = true →
  ∃ c t, k = String c t ∧ is_alnum c = true
    ∧ forallb is_alnum (chars t) = true.
Proof.
  intros [Hne Hk]%andb_true_iff. destruct k as [|c t]; [done|].
  simpl in Hk. apply andb_true_iff in Hk as [Hc Ht]. by exists c, t.
Qed.

Lemma plain_key_head k :
  plain_key k = true → ∃ c t, k = String c t ∧ is_space c = false.
Proof.
  intros (c & t & -> & Hc & _)%plain_key_cons.
  exists c, t. split; [done|]. by apply alnum_not_space.
Qed.

(** A line that starts with an alphanumeric character is none of the
    section markers, which start with a dash. *)
Lemma is_marker_alnum marker c t :
  is_alnum c = true → trimmed (String c t) = true →
  is_marker (String "-" marker) (String c t +:+ nl) = false.
Proof.
  intros Hc Ht. unfold is_marker. rewrite strip_line_feed by done.
  apply bool_decide_eq_false. simpl. rewrite decide_False; [done|].
  change (lower_char "-") with "-"%char.
  apply lower_alnum_not; done.
Qed.

Lemma read_existing_keys_walk key_defs keys m rest :
  (∀ k, k ∈ keys →
     plain_key k = true ∧ validate_key k = true
     ∧ plain_value (normalize_path (default EmptyString (key_defs !! k))) = true) →
  read_existing_keys_from true m
    (((λ l, l +:+ nl) <$> (key_line key_defs <$> keys)) ++ rest)
  = read_existing_keys_from true
      (foldl (λ m k, <[k:=normalize_path
                            (normalize_path (default EmptyString (key_defs !! k)))]> m)
             m keys) rest.
Proof.
  revert m. induction keys as [|k keys IH]; intros m Hkeys; [done|].
  destruct (Hkeys k) as (Hk & Hvalid & Hv); [left|].
  pose proof (plain_value_trimmed _ Hv) as Htrim.
  rewrite !fmap_cons. cbn [app read_existing_keys_from].
  assert (trimmed (key_line key_defs k) = true) as Hline
    by (by apply trimmed_line).
  destruct (plain_key_cons k Hk) as (c & t & Hkc & Hc & _).
  assert (is_marker "---KEY_DEFINITIONS_END---" (key_line key_defs k +:+ nl)
          = false) as ->.
  { unfold key_line in *. rewrite Hkc in *.
    by apply (is_marker_alnum "--KEY_DEFINITIONS_END---"). }
  rewrite strip_line_feed by done.
  rewrite bool_decide_eq_false_2.
  2:{ unfold key_line. rewrite Hkc. done. }
  unfold key_line at 1.
  change (k +:+ ": " +:+ ?v) with (k +:+ String ":" (String " " v)).
  rewrite key_line_not_heading by done.
  cbn [orb]. unfold key_line.
  rewrite match_key_line_colon by done. rewrite Hvalid.
  rewrite strip_trimmed by done.
  rewrite IH by (intros k' Hk'; apply Hkeys; by right). done.
Qed.

Lemma foldl_insert_lookup {V} (f : string → V) keys (m : gmap string V) k :
  foldl (λ m k, <[k:=f k]> m) m keys !! k
  = if decide (k ∈ keys) then Some (f k) else m !! k.
Proof.
  revert m. induction keys as [|k' keys IH]; intros m; [done|].
  simpl. rewrite IH. destruct (decide (k = k')) as [->|Hne].
  - rewrite lookup_insert_eq, (decide_True (P:=k' ∈ k' :: keys)) by left.
    by case_decide.
  - rewrite lookup_insert_ne by done.
    destruct (decide (k ∈ keys)) as [Hin|Hnotin].
    + by rewrite decide_True by (by right).
    + rewrite decide_False; [done|]. by intros [?|?]%elem_of_cons.
Qed.


(** The definitions that [_read_existing_keys] finds in the lines of a
    written file. *)
Lemma read_existing_keys_written key_defs final_grid keys a b :
  (∀ k, k ∈ keys →
     plain_key k = true ∧ validate_key k = true
     ∧ plain_value (normalize_path (default EmptyString (key_defs !! k))) = true) →
  _read_existing_keys
    ((λ l, l +:+ nl) <$> tracker_lines key_defs final_grid keys a b)
  = foldl (λ m k, <[k:=normalize_path
                        (normalize_path (default EmptyString (key_defs !! k)))]> m)
          ∅ keys.
Proof.
  intros Hkeys. unfold _read_existing_keys, tracker_lines.
  rewrite !fmap_app. cbn [fmap list_fmap app read_existing_keys_from].
  assert (is_marker "---KEY_DEFINITIONS_END---"
            ("---KEY_DEFINITIONS_START---" +:+ nl) = false) as ->
    by (by vm_compute).
  assert (is_marker "---KEY_DEFINITIONS_START---"
            ("---KEY_DEFINITIONS_START---" +:+ nl) = true) as ->
    by (by vm_compute).
  assert (is_marker "---KEY_DEFINITIONS_END---" ("Key Definitions:" +:+ nl)
          = false) as -> by (by vm_compute).
  assert (strip ("Key Definitions:" +:+ nl) = "Key Definitions:") as ->
    by (by vm_compute).
  assert (bool_decide ("Key Definitions:" = EmptyString)
          || startswith (lower "Key Definitions:") "key definitions:" = true)
    as -> by (by vm_compute).
  change (list_fmap string string (λ l, l +:+ nl)
            (list_fmap string string (key_line key_defs) keys))
    with ((λ l, l +:+ nl) <$> (key_line key_defs <$> keys)).
  rewrite read_existing_keys_walk by done.
  cbn [read_existing_keys_from].
  assert (is_marker "---KEY_DEFINITIONS_END---"
            ("---KEY_DEFINITIONS_END---" +:+ nl) = true) as ->
    by (by vm_compute).
  done.
Qed.

Lemma read_existing_grid_skip ls m rest :
  Forall (λ l, is_marker "---GRID_END---" l = false
               ∧ is_marker "---GRID_START---" l = false) ls →
  read_existing_grid_from false m (ls ++ rest)
  = read_existing_grid_from false m rest.
Proof.
  induction 1 as [|l ls [Hend Hstart] _ IH]; [done|].
  cbn [app read_existing_grid_from]. by rewrite Hend, Hstart.
Qed.

Lemma lstrip_app_last u c :
  is_space c = false → ∃ u', lstrip (join (u ++ [c])) = join (u' ++ [c]).
Proof.
  intros Hc. induction u as [|a u IH].
  - exists []. simpl. by rewrite Hc.
  - change (join ((a :: u) ++ [c])) with (String a (join (u ++ [c]))).
    cbn [lstrip]. destruct (is_space a); [done|]. by exists (a :: u).
Qed.

(** Stripping keeps a first character that is not white space. *)
Lemma strip_head c t :
  is_space c = false → ∃ t', strip (String c t) = String c t'.
Proof.
  intros Hc. unfold strip. rewrite lstrip_head by done.
  assert (rev_string (String c t) = join (reverse (chars t) ++ [c])) as ->.
  { unfold rev_string. change (chars (String c t)) with (c :: chars t).
    by rewrite reverse_cons. }
  destruct (lstrip_app_last (reverse (chars t)) c Hc) as [u' ->].
  exists (join (reverse u')). unfold rev_string.
  by rewrite chars_join, reverse_app.
Qed.

(** An audit line is no section marker, whatever its text. *)
Lemma is_marker_audit marker rest :
  is_marker (String "-" marker) (String "l" rest) = false.
Proof.
  unfold is_marker.
  destruct (strip_head "l" rest) as [t' ->]; [done|].
  by apply bool_decide_eq_false.
Qed.

(** A grid row of a key other than X is not taken for the heading of the
    grid. *)
Lemma grid_line_not_heading k rest :
  plain_key k = true → upper k ≠ "X" →
  startswith (upper (k +:+ String " " rest)) "X " = false.
Proof.
  intros (c & t & -> & Hc & Ht)%plain_key_cons Hx. apply startswith_false.
  rewrite upper_append.
  change (upper (String c t)) with (String (upper_char c) (upper t)) in *.
  change (String (upper_char c) (upper t) +:+ upper (String " " rest))
    with (String (upper_char c) (upper t +:+ upper (String " " rest))).
  cbn [strip_prefix]. case_decide as Hcx; [|done]. subst.
  destruct t as [|d t]; [by rewrite <- Hcx in Hx|].
  simpl in Ht. apply andb_true_iff in Ht as [Hd _].
  change (upper (String d t)) with (String (upper_char d) (upper t)).
  change (String (upper_char d) (upper t) +:+ ?r)
    with (String (upper_char d) (upper t +:+ r)).
  cbn [strip_prefix]. rewrite decide_False; [done|].
  intros Heq. clear -Hd Heq.
  destruct d as [[] [] [] [] [] [] [] []]; by vm_compute in Hd, Heq.
Qed.

Lemma read_existing_grid_walk final_grid keys m rest :
  (∀ k, k ∈ keys →
     plain_key k = true ∧ validate_key k = true ∧ upper k ≠ "X"
     ∧ plain_value (default EmptyString (final_grid !! k)) = true) →
  read_existing_grid_from true m
    (((λ l, l +:+ nl) <$> (grid_line final_grid <$> keys)) ++ rest)
  = read_existing_grid_from true
      (foldl (λ m k, <[k:=default EmptyString (final_grid !! k)]> m) m keys)
      rest.
Proof.
  revert m. induction keys as [|k keys IH]; intros m Hkeys; [done|].
  destruct (Hkeys k) as (Hk & Hvalid & Hx & Hv); [left|].
  pose proof (plain_value_trimmed _ Hv) as Htrim.
  rewrite !fmap_cons. cbn [app read_existing_grid_from].
  assert (trimmed (grid_line final_grid k) = true) as Hline
    by (by apply trimmed_line).
  destruct (plain_key_cons k Hk) as (c & t & Hkc & Hc & _).
  assert (is_marker "---GRID_END---" (grid_line final_grid k +:+ nl) = false)
    as ->.
  { unfold grid_line in *. rewrite Hkc in *.
    by apply (is_marker_alnum "--GRID_END---"). }
  rewrite strip_line_feed by done.
  unfold grid_line at 1.
  change (k +:+ " = " +:+ ?v) with (k +:+ String " " (String "=" (String " " v))).
  rewrite grid_line_not_heading by done.
  rewrite bool_decide_eq_false_2.
  2:{ intros Heq. unfold grid_line in Heq. rewrite Hkc in Heq.
      injection Heq as _ Heq. by destruct t. }
  cbn [orb]. unfold grid_line.
  rewrite match_key_line_equals by done. rewrite Hvalid.
  rewrite strip_trimmed by done.
  rewrite IH by (intros k' Hk'; apply Hkeys; by right). done.
Qed.

Lemma plain_key_trimmed k : plain_key k = true → trimmed k = true.
Proof.
  intros [Hne Hk]%andb_true_iff. unfold trimmed.
  assert (∀ c, c ∈ chars k → is_space c = false) as Hall.
  { intros c Hc. apply alnum_not_space.
    rewrite forallb_forall in Hk. by apply Hk, list_elem_of_In. }
  destruct k as [|c t]; [done|].
  change (chars (String c t)) with (c :: chars t) in *.
  cbv beta iota. rewrite (Hall c) by left.
  destruct (reverse (c :: chars t)) as [|d u] eqn:Hrev.
  - rewrite reverse_cons in Hrev. by destruct (reverse (chars t)).
  - rewrite (Hall d); [done|].
    apply elem_of_reverse. rewrite Hrev. left.
Qed.

Lemma trimmed_join_keys k keys :
  Forall (λ k, plain_key k = true) (k :: keys) →
  trimmed (join_with " " (k :: keys)) = true.
Proof.
  revert k. induction keys as [|k' keys IH]; intros k Hall.
  - apply plain_key_trimmed. by inversion Hall.
  - inversion Hall as [|? ? Hk Hrest]; subst.
    change (join_with " " (k :: k' :: keys))
      with (k +:+ " " +:+ join_with " " (k' :: keys)).
    rewrite <- append_assoc. apply trimmed_append; [|by apply IH].
    destruct (plain_key_head k Hk) as (c & t & -> & Hc). by exists c, (t +:+ " ").
Qed.

(** The heading of the grid, as a line of the file, is skipped. *)
Lemma grid_heading_skipped keys :
  Forall (λ k, plain_key k = true) keys →
  is_marker "---GRID_END---" (("X " +:+ join_with " " keys) +:+ nl) = false
  ∧ startswith (upper (strip (("X " +:+ join_with " " keys) +:+ nl))) "X "
    || bool_decide (strip (("X " +:+ join_with " " keys) +:+ nl) = "X") = true.
Proof.
  intros Hkeys. destruct keys as [|k keys]; [by vm_compute|].
  assert (trimmed ("X " +:+ join_with " " (k :: keys)) = true) as Htrim.
  { apply trimmed_append; [by exists "X"%char, " "|by apply trimmed_join_keys]. }
  unfold is_marker. rewrite !strip_line_feed by done.
  split; [by apply bool_decide_eq_false|].
  rewrite upper_append. change (upper "X ") with "X ".
  by rewrite startswith_app.
Qed.

(** The rows that [_read_existing_grid] finds in the lines of a written
    file. *)
Lemma read_existing_grid_written key_defs final_grid keys a b :
  (∀ k, k ∈ keys →
     plain_key k = true ∧ validate_key k = true ∧ upper k ≠ "X"
     ∧ plain_value (normalize_path (default EmptyString (key_defs !! k))) = true
     ∧ plain_value (default EmptyString (final_grid !! k)) = true) →
  _read_existing_grid
    ((λ l, l +:+ nl) <$> tracker_lines key_defs final_grid keys a b)
  = foldl (λ m k, <[k:=default EmptyString (final_grid !! k)]> m) ∅ keys.
Proof.
  intros Hkeys. unfold _read_existing_grid, tracker_lines.
  rewrite !fmap_app.
  change (["---KEY_DEFINITIONS_START---"; "Key Definitions:"])
    with (["---KEY_DEFINITIONS_START---"] ++ ["Key Definitions:"]).
  rewrite !fmap_app, <- !app_assoc.
  rewrite read_existing_grid_skip by (repeat constructor; by vm_compute).
  rewrite read_existing_grid_skip by (repeat constructor; by vm_compute).
  rewrite read_existing_grid_skip.
  2:{ apply Forall_fmap, Forall_fmap, Forall_forall. intros k Hk. simpl.
      destruct (Hkeys k Hk) as (Hpk & _ & _ & Hv & _).
      pose proof (trimmed_line k ": " _ Hpk (plain_value_trimmed _ Hv)) as Hline.
      destruct (plain_key_cons k Hpk) as (c & t & Hkc & Hc & _).
      unfold key_line in *. rewrite Hkc in *.
      split; [by apply (is_marker_alnum "--GRID_END---")
             |by apply (is_marker_alnum "--GRID_START---")]. }
  cbn [fmap list_fmap app read_existing_grid_from].
  assert (is_marker "---GRID_END---" ("---KEY_DEFINITIONS_END---" +:+ nl) = false)
    as -> by (by vm_compute).
  assert (is_marker "---GRID_START---" ("---KEY_DEFINITIONS_END---" +:+ nl)
          = false) as -> by (by vm_compute).
  assert (is_marker "---GRID_END---" (EmptyString +:+ nl) = false)
    as -> by (by vm_compute).
  assert (is_marker "---GRID_START---" (EmptyString +:+ nl) = false)
    as -> by (by vm_compute).
  change (("last_KEY_edit: " +:+ a) +:+ nl)
    with (String "l" (("ast_KEY_edit: " +:+ a) +:+ nl)).
  change (("last_GRID_edit: " +:+ b) +:+ nl)
    with (String "l" (("ast_GRID_edit: " +:+ b) +:+ nl)).
  rewrite !is_marker_audit.
  assert (is_marker "---GRID_END---" ("---GRID_START---" +:+ nl) = false)
    as -> by (by vm_compute).
  assert (is_marker "---GRID_START---" ("---GRID_START---" +:+ nl) = true)
    as -> by (by vm_compute).
  destruct (grid_heading_skipped keys) as [-> ->].
  { apply Forall_forall. intros k Hk. by destruct (Hkeys k Hk). }
  change (list_fmap string string (λ l, l +:+ nl)
            (list_fmap string string (grid_line final_grid) keys))
    with ((λ l, l +:+ nl) <$> (grid_line final_grid <$> keys)).
  rewrite read_existing_grid_walk.
  2:{ intros k Hk. destruct (Hkeys k Hk) as (? & ? & ? & _ & ?). done. }
  cbn [read_existing_grid_from].
  assert (is_marker "---GRID_END---" ("---GRID_END---" +:+ nl) = true) as ->
    by (by vm_compute).
  done.
Qed.

Lemma single_line_join_keys keys :
  Forall (λ k, plain_key k = true) keys →
  single_line (join_with " " keys) = true.
Proof.
  induction 1 as [|k keys Hk Hkeys IH]; [done|].
  destruct keys as [|k' keys]; [by apply plain_key_single_line|].
  change (join_with " " (k :: k' :: keys))
    with (k +:+ " " +:+ join_with " " (k' :: keys)).
  by rewrite !single_line_append, plain_key_single_line, IH.
Qed.

Lemma tracker_lines_single_line key_defs final_grid keys a b :
  (∀ k, k ∈ keys →
     plain_key k = true
     ∧ plain_value (normalize_path (default EmptyString (key_defs !! k))) = true
     ∧ plain_value (default EmptyString (final_grid !! k)) = true) →
  single_line a = true → single_line b = true →
  Forall (λ l, single_line l = true) (tracker_lines key_defs final_grid keys a b).
Proof.
  intros Hkeys Ha Hb. unfold tracker_lines.
  assert (Forall (λ k, plain_key k = true) keys) as Hplain.
  { apply Forall_forall. intros k Hk. by destruct (Hkeys k Hk). }
  repeat first [apply Forall_app_2 | apply Forall_cons_2 | apply Forall_nil_2];
    try done.
  - apply Forall_fmap, Forall_forall. intros k Hk. simpl. unfold key_line.
    destruct (Hkeys k Hk) as (Hpk & Hv & _).
    by rewrite !single_line_append, (plain_key_single_line _ Hpk),
         (plain_value_single_line _ Hv).
  - by rewrite single_line_append, single_line_join_keys.
  - apply Forall_fmap, Forall_forall. intros k Hk. simpl. unfold grid_line.
    destruct (Hkeys k Hk) as (Hpk & _ & Hv).
    by rewrite !single_line_append, (plain_key_single_line _ Hpk),
         (plain_value_single_line _ Hv).
Qed.

(** The rows that [write_tracker_file] lays out hold the cells of the grid
    it was given. *)
Lemma fix_grid_cells grid keys fg :
  NoDup keys → square_over grid keys → fix_grid grid keys = Some fg →
  ∀ r c, grid_cell fg keys r c = grid_cell grid keys r c.
Proof using decompress_compress.
  intros Hnd Hsq Hfix r c.
  destruct (fix_grid_square grid keys fg Hnd Hsq Hfix) as [_ Hrows].
  unfold grid_cell.
  destruct (list_index r keys) as [ri|] eqn:Hri; [|done]. simpl.
  assert (r ∈ keys) as Hr by (apply list_index_is_Some; eauto).
  destruct (Hrows r Hr) as (compressed & s & Hrow & Hs & Hfg).
  unfold row_cell. rewrite Hrow, Hfg. simpl.
  by rewrite decompress_compress, Hs.
Qed.

(** What the written file holds, line by line, and what the two line
    readers find in it. *)
Lemma written_file_read key_defs grid fg a b :
  (∀ k v, key_defs !! k = Some v →
     plain_key k = true ∧ validate_key k = true ∧ upper k ≠ "X"
     ∧ plain_value (normalize_path v) = true) →
  (∀ k c s, grid !! k = Some c → decompress c = Some s →
     plain_value (compress s) = true) →
  single_line a = true → single_line b = true →
  square_over grid (sorted_keys key_defs) →
  fix_grid grid (sorted_keys key_defs) = Some fg →
  let raw := (tracker_content key_defs fg (sorted_keys key_defs) a b).1 in
  let lines := readlines (universal_newlines raw) in
  raw = unlines (tracker_lines key_defs fg (sorted_keys key_defs) a b)
  ∧ Forall (λ l, single_line l = true)
      (tracker_lines key_defs fg (sorted_keys key_defs) a b)
  ∧ _read_existing_keys lines
    = (λ v, normalize_path (normalize_path v)) <$> key_defs
  ∧ _read_existing_grid lines = fg.
Proof using decompress_compress sort_Permutation.
  intros Hkeys Hcodec Ha Hb Hsq Hfix raw lines.
  pose proof (sorted_keys_NoDup key_defs) as Hnd.
  destruct (fix_grid_square grid _ fg Hnd Hsq Hfix) as [_ Hrows].
  destruct (fix_grid_spec grid _ Hnd) as (fg' & Hfix' & Hout & _).
  assert (fg' = fg) as -> by congruence.
  assert (∀ k, k ∈ sorted_keys key_defs →
            plain_key k = true ∧ validate_key k = true ∧ upper k ≠ "X"
            ∧ plain_value (normalize_path (default EmptyString (key_defs !! k)))
              = true
            ∧ plain_value (default EmptyString (fg !! k)) = true) as Hall.
  { intros k Hk.
    pose proof Hk as [v Hv]%sorted_keys_elem.
    destruct (Hkeys k v Hv) as (? & ? & ? & ?).
    destruct (Hrows k Hk) as (c & s & Hc & Hs & Hfg).
    rewrite Hv, Hfg. simpl. split_and!; try done. by eapply Hcodec. }
  assert (raw = unlines (tracker_lines key_defs fg (sorted_keys key_defs) a b))
    as Hraw.
  { apply tracker_content_unlines. intros k Hk. by apply sorted_keys_elem. }
  assert (Forall (λ l, single_line l = true)
            (tracker_lines key_defs fg (sorted_keys key_defs) a b)) as Hsingle.
  { apply tracker_lines_single_line.
    - intros k Hk. destruct (Hall k Hk) as (? & _ & _ & ? & ?). done.
    - done.
    - done. }
  split; [done|]. split; [done|].
  unfold lines. rewrite Hraw, universal_newlines_unlines, readlines_unlines
    by done.
  split.
  - rewrite read_existing_keys_written.
    2:{ intros k Hk. destruct (Hall k Hk) as (? & ? & _ & ? & _). done. }
    apply map_eq. intros k. rewrite foldl_insert_lookup, lookup_fmap.
    case_decide as Hk.
    + apply sorted_keys_elem in Hk as [v Hv]. by rewrite Hv.
    + destruct (key_defs !! k) as [v|] eqn:Hv; [|done].
      destruct Hk. apply sorted_keys_elem. eauto.
  - rewrite read_existing_grid_written.
    2:{ intros k Hk. destruct (Hall k Hk) as (? & ? & ? & ? & ?). done. }
    apply map_eq. intros k. rewrite foldl_insert_lookup.
    case_decide as Hk.
    + destruct (Hrows k Hk) as (c & s & _ & _ & Hfg). by rewrite Hfg.
    + by rewrite Hout.
Qed.

(** ** What a successful write leaves in the file *)

(** C3 ([write_tracker_file], lines 168-185).  After a write that returns
    success the tracker file consists of the lines of the tracker format,
    and the row line of every key of the written key definitions holds an
    encoded row that decodes to as many symbols as there are keys, with the
    diagonal symbol at the key's index in the canonical order.  The loop
    of lines 172-185 makes the rows that are missing, do not decode or
    have another length; of [validate_grid] only this is used, that it
    accepts no grid with a row that has the full length but not the
    diagonal symbol in its place. *)
Theorem write_tracker_file_square w w' tracker_path key_defs_to_write
    grid_to_write last_key_edit last_grid_edit :
  (validate_grid grid_to_write (sorted_keys key_defs_to_write) = true →
   ∀ i k compressed s,
     sorted_keys key_defs_to_write !! i = Some k →
     grid_to_write !! k = Some compressed →
     decompress compressed = Some s →
     length (chars s) = length (sorted_keys key_defs_to_write) →
     chars s !! i = Some DIAGONAL_CHAR) →
  write_tracker_file w tracker_path key_defs_to_write grid_to_write
    last_key_edit last_grid_edit = (true, w') →
  ∃ final_grid,
    files w' !! tracker_path
      = Some (unlines (tracker_lines key_defs_to_write final_grid
                         (sorted_keys key_defs_to_write)
                         last_key_edit last_grid_edit))
    ∧ ∀ k, is_Some (key_defs_to_write !! k) →
        ∃ i compressed s,
          list_index k (sorted_keys key_defs_to_write) = Some i
          ∧ grid_line final_grid k = k +:+ " = " +:+ compressed
          ∧ decompress compressed = Some s
          ∧ length (chars s) = size key_defs_to_write
          ∧ chars s !! i = Some DIAGONAL_CHAR.
Proof using decompress_compress sort_Permutation.
  intros Hdiag Hrun.
  apply write_tracker_file_true in Hrun
    as (final_grid & Hvalid & Hfix & _ & Hfiles).
  specialize (Hdiag Hvalid).
  pose proof (sorted_keys_NoDup key_defs_to_write) as Hnd.
  destruct (fix_grid_spec grid_to_write (sorted_keys key_defs_to_write) Hnd)
    as (fg & Hfix' & _ & Hrows).
  assert (fg = final_grid) as -> by congruence.
  exists final_grid. split.
  { rewrite Hfiles, lookup_insert_eq. f_equal.
    apply tracker_content_unlines. intros k Hk. by apply sorted_keys_elem. }
  intros k Hk. apply sorted_keys_elem in Hk.
  pose proof Hk as [i Hi]%list_index_is_Some.
  destruct (fix_row_spec grid_to_write (length (sorted_keys key_defs_to_write))
              (sorted_keys key_defs_to_write) k i Hnd eq_refl Hi)
    as (row & Hrow & Hlen & Hcase).
  exists i, (compress (join row)), (join row).
  rewrite decompress_compress, chars_join, <- sorted_keys_length.
  split_and!; [done| |done..|].
  - unfold grid_line. by rewrite (Hrows k Hk), Hrow.
  - destruct Hcase as [(compressed & s & Hc & Hs & Hl & ->)| ->].
    + eapply Hdiag; [by apply list_index_Some|done..].
    + rewrite diag_row_lookup by (by eapply list_index_lt).
      by rewrite decide_True.
Qed.


(** What [write_tracker_file] wrote, the line readers of [update_tracker]
    read back: the key definitions with their paths normalised (once by
    the writer, once by the reader), and a grid that holds for every pair
    of keys the symbol of the grid that was passed in.  The keys are
    alphanumeric, valid, and not the letter of the header line; the
    written paths and the encoded rows are free of line breaks and of
    white space at their ends, the audit strings free of line breaks. *)
Theorem write_tracker_file_keeps_rows w w' tracker_path key_defs_to_write
    grid_to_write last_key_edit last_grid_edit :
  (∀ k v, key_defs_to_write !! k = Some v →
     plain_key k = true ∧ validate_key k = true ∧ upper k ≠ "X"
     ∧ plain_value (normalize_path v) = true) →
  (∀ k c s, grid_to_write !! k = Some c → decompress c = Some s →
     plain_value (compress s) = true) →
  single_line last_key_edit = true → single_line last_grid_edit = true →
  write_tracker_file w tracker_path key_defs_to_write grid_to_write
    last_key_edit last_grid_edit = (true, w') →
  ∃ content,
    files w' !! tracker_path = Some content
    ∧ _read_existing_keys (readlines (universal_newlines content))
      = (λ v, normalize_path (normalize_path v)) <$> key_defs_to_write
    ∧ ∀ r c,
        grid_cell (_read_existing_grid (readlines (universal_newlines content)))
          (sorted_keys key_defs_to_write) r c
        = grid_cell grid_to_write (sorted_keys key_defs_to_write) r c.
Proof using decompress_compress sort_Permutation validate_grid_square.
  intros Hkeys Hcodec Ha Hb Hrun.
  apply write_tracker_file_true in Hrun
    as (final_grid & Hvalid & Hfix & _ & Hfiles).
  apply validate_grid_square in Hvalid.
  destruct (written_file_read key_defs_to_write grid_to_write final_grid
              last_key_edit last_grid_edit Hkeys Hcodec Ha Hb Hvalid Hfix)
    as (_ & _ & Hread_keys & Hread_grid).
  eexists. split; [by rewrite Hfiles, lookup_insert_eq|].
  split; [done|]. rewrite Hread_grid.
  apply fix_grid_cells; [apply sorted_keys_NoDup|done..].
Qed.

(* ------------------------------------------------------------------ *)
(** ** The text of a tracker file under the patterns of [read_tracker_file] *)

(** ** Searching the sections *)

Lemma strip_prefix_ci_app p s : strip_prefix_ci p (p +:+ s) = Some s.
Proof. induction p as [|c p IH]; [done|]. simpl. by rewrite decide_True. Qed.

Lemma find_ci_here p s : find_ci p (p +:+ s) = Some (EmptyString, s).
Proof.
  destruct p as [|c p]; [by destruct s|].
  change (String c p +:+ s) with (String c (p +:+ s)).
  cbn [find_ci]. change (String c (p +:+ s)) with (String c p +:+ s).
  by rewrite strip_prefix_ci_app.
Qed.

Lemma lower_char_newline c : lower_char c = newline → c = newline.
Proof. destruct c as [[] [] [] [] [] [] [] []]; by vm_compute. Qed.

(** The pattern is a line feed and a marker that starts with a dash: it
    is not found inside a line, nor at the start of a line whose first
    character is no dash. *)
Lemma find_ci_skip_line m l rest before after :
  single_line l = true →
  find_ci (String newline m) rest = Some (before, after) →
  find_ci (String newline m) (l +:+ rest) = Some (l +:+ before, after).
Proof.
  intros Hl Hrest. induction l as [|c l IH]; [done|].
  apply andb_true_iff in Hl as [Hc Hl]. apply negb_true_iff in Hc.
  change (String c l +:+ rest) with (String c (l +:+ rest)).
  cbn [find_ci strip_prefix_ci].
  rewrite decide_False.
  - by rewrite IH.
  - change (lower_char newline) with newline.
    intros Heq. symmetry in Heq. apply lower_char_newline in Heq. subst.
    by rewrite linebreak_newline in Hc.
Qed.

Lemma find_ci_skip_line_start m c l before after :
  lower_char c ≠ "-"%char →
  find_ci (String newline (String "-" m)) (String c l) = Some (before, after) →
  find_ci (String newline (String "-" m)) (String newline (String c l))
  = Some (String newline before, after).
Proof.
  intros Hc Hrest. cbn [find_ci strip_prefix_ci] in *.
  rewrite decide_True by done.
  rewrite (decide_False (P:=lower_char "-" = lower_char c))
    by (by change (lower_char "-") with "-"%char).
  by rewrite Hrest.
Qed.

(** The text of a section: the lines between the markers, found by the
    search as one text with line feeds between the lines. *)
Lemma find_ci_end_marker m l ls tail :
  Forall (λ l, single_line l = true) (l :: ls) →
  Forall (λ l, ∃ c t, l = String c t ∧ lower_char c ≠ "-"%char) ls →
  find_ci (String newline (String "-" m))
    (unlines (l :: ls) +:+ String "-" m +:+ tail)
  = Some (join_with nl (l :: ls), tail).
Proof.
  revert l. induction ls as [|l' ls IH]; intros l Hsingle Hstart.
  - inversion Hsingle; subst.
    rewrite unlines_cons. change (unlines []) with EmptyString.
    rewrite !append_assoc.
    rewrite (find_ci_skip_line _ l _ EmptyString tail); [|done|].
    + by rewrite append_nil_r.
    + change (nl +:+ EmptyString +:+ String "-" m +:+ tail)
        with (String newline (String "-" m) +:+ tail).
      apply find_ci_here.
  - inversion Hsingle as [|? ? Hl Hsingle']; subst.
    inversion Hstart as [|? ? (c & t & -> & Hc) Hstart']; subst.
    rewrite unlines_cons, !append_assoc.
    rewrite (find_ci_skip_line _ l _
               (nl +:+ join_with nl (String c t :: ls)) tail); [|done|].
    + done.
    + specialize (IH (String c t) Hsingle' Hstart').
      rewrite unlines_cons, !append_assoc in IH.
      change (nl +:+ ?x) with (String newline x).
      rewrite unlines_cons, !append_assoc.
      change (String c t +:+ ?x) with (String c (t +:+ x)) in *.
      by apply find_ci_skip_line_start.
Qed.

Lemma strip_prefix_ci_line m s rest r :
  single_line m = true → single_line s = true →
  strip_prefix_ci (m +:+ nl) (s +:+ nl +:+ rest) = Some r →
  lower s = lower m.
Proof.
  revert s. induction m as [|a m IH]; intros s Hm Hs.
  - destruct s as [|c s]; [done|].
    apply andb_true_iff in Hs as [Hc _]. apply negb_true_iff in Hc.
    change (String c s +:+ nl +:+ rest) with (String c (s +:+ nl +:+ rest)).
    change (EmptyString +:+ nl) with (String newline EmptyString).
    cbn [strip_prefix_ci]. case_decide as Heq; [|done].
    change (lower_char newline) with newline in Heq. symmetry in Heq.
    apply lower_char_newline in Heq. subst.
    by rewrite linebreak_newline in Hc.
  - apply andb_true_iff in Hm as [Ha Hm]. apply negb_true_iff in Ha.
    change (String a m +:+ nl) with (String a (m +:+ nl)).
    destruct s as [|c s].
    + change (EmptyString +:+ nl +:+ rest) with (String newline rest).
      cbn [strip_prefix_ci]. case_decide as Heq; [|done].
      change (lower_char newline) with newline in Heq.
      apply lower_char_newline in Heq. subst.
      by rewrite linebreak_newline in Ha.
    + apply andb_true_iff in Hs as [_ Hs].
      change (String c s +:+ nl +:+ rest) with (String c (s +:+ nl +:+ rest)).
      cbn [strip_prefix_ci]. case_decide as Heq; [|done].
      intros Hr. apply IH in Hr; [|done..].
      change (lower (String c s)) with (String (lower_char c) (lower s)).
      change (lower (String a m)) with (String (lower_char a) (lower m)).
      by rewrite Heq, Hr.
Qed.

(** The start marker of a section, with its line feed, is not found in a
    line that does not end with the marker. *)
Lemma find_ci_skip_whole_line m l rest before after :
  single_line m = true → single_line l = true →
  has_suffix_ci m l = false →
  find_ci (m +:+ nl) rest = Some (before, after) →
  find_ci (m +:+ nl) (l +:+ nl +:+ rest) = Some (l +:+ nl +:+ before, after).
Proof.
  intros Hm Hl Hsuffix Hrest.
  assert (∀ s, single_line s = true → has_suffix_ci m s = false →
            strip_prefix_ci (m +:+ nl) (s +:+ nl +:+ rest) = None) as Hnone.
  { intros s Hs Hsuf.
    destruct (strip_prefix_ci (m +:+ nl) (s +:+ nl +:+ rest)) as [r|] eqn:Hr;
      [|done].
    apply strip_prefix_ci_line in Hr; [|done..].
    destruct s; simpl in Hsuf; apply orb_false_iff in Hsuf as [Hsuf _];
      by apply bool_decide_eq_false in Hsuf. }
  induction l as [|c l IH].
  - specialize (Hnone EmptyString Hl Hsuffix).
    change (EmptyString +:+ nl +:+ ?x) with (String newline x) in *.
    destruct m as [|a m].
    + by vm_compute in Hsuffix.
    + change (String a m +:+ nl) with (String a (m +:+ nl)) in *.
      cbn [find_ci]. by rewrite Hnone, Hrest.
  - specialize (Hnone (String c l) Hl Hsuffix).
    apply andb_true_iff in Hl as [_ Hl].
    simpl in Hsuffix. apply orb_false_iff in Hsuffix as [_ Hsuffix].
    change (String c l +:+ nl +:+ ?x) with (String c (l +:+ nl +:+ x)) in *.
    destruct m as [|a m].
    + clear -Hsuffix. exfalso.
      assert (has_suffix_ci EmptyString l = true) as Htrue.
      { clear. induction l as [|d l IH]; [done|].
        cbn [has_suffix_ci]. rewrite IH. apply orb_true_r. }
      congruence.
    + change (String a m +:+ nl) with (String a (m +:+ nl)) in *.
      cbn [find_ci]. rewrite Hnone.
      change (String a (m +:+ nl)) with (String a m +:+ nl) in *.
      by rewrite IH.
Qed.

Lemma find_ci_skip_lines m pre rest before after :
  single_line m = true →
  Forall (λ l, single_line l = true ∧ has_suffix_ci m l = false) pre →
  find_ci (m +:+ nl) rest = Some (before, after) →
  ∃ before', find_ci (m +:+ nl) (unlines pre +:+ rest) = Some (before', after).
Proof.
  intros Hm Hpre Hrest. induction Hpre as [|l pre [Hl Hsuf] _ IH]; [by eexists|].
  destruct IH as [before' IH].
  rewrite unlines_cons, !append_assoc.
  rewrite (find_ci_skip_whole_line m l _ before' after) by done. by eexists.
Qed.

(** ** Lines of a section, split again *)

Lemma splitlines_from_line cur l rest :
  single_line l = true →
  splitlines_from cur (l +:+ rest)
  = splitlines_from (reverse (chars l) ++ cur) rest.
Proof.
  revert cur. induction l as [|c l IH]; intros cur Hl; [done|].
  apply andb_true_iff in Hl as [Hc Hl]. apply negb_true_iff in Hc.
  change (String c l +:+ rest) with (String c (l +:+ rest)).
  cbn [splitlines_from].
  rewrite decide_False by (intros ->; by vm_compute in Hc).
  rewrite Hc, IH by done.
  change (chars (String c l)) with (c :: chars l).
  by rewrite reverse_cons, <- app_assoc.
Qed.

Lemma splitlines_line l :
  single_line l = true → l ≠ EmptyString → splitlines l = [l].
Proof.
  intros Hl Hne. unfold splitlines.
  rewrite <- (append_nil_r l) at 1.
  rewrite splitlines_from_line by done. cbn [splitlines_from].
  rewrite app_nil_r.
  destruct (reverse (chars l)) as [|c u] eqn:Hrev.
  - apply (f_equal reverse) in Hrev. rewrite reverse_involutive in Hrev.
    destruct l; done.
  - by rewrite <- Hrev, reverse_involutive, join_chars.
Qed.

Lemma splitlines_join_with l ls :
  Forall (λ l, single_line l = true) (l :: ls) →
  last (l :: ls) ≠ Some EmptyString →
  splitlines (join_with nl (l :: ls)) = l :: ls.
Proof.
  revert l. induction ls as [|l' ls IH]; intros l Hsingle Hlast.
  - apply splitlines_line; [by inversion Hsingle|]. intros ->. by apply Hlast.
  - inversion Hsingle as [|? ? Hl Hrest]; subst.
    change (join_with nl (l :: l' :: ls))
      with (l +:+ nl +:+ join_with nl (l' :: ls)).
    unfold splitlines. rewrite splitlines_from_line by done.
    change (nl +:+ join_with nl (l' :: ls))
      with (String newline (join_with nl (l' :: ls))).
    cbn [splitlines_from].
    rewrite decide_False by done.
    change (is_linebreak newline) with true. cbv iota.
    rewrite app_nil_r, reverse_involutive, join_chars.
    f_equal. by apply IH.
Qed.

(** ** Where a marker is not found *)

Lemma lower_cons c s : lower (String c s) = String (lower_char c) (lower s).
Proof. done. Qed.

Lemma has_suffix_ci_sep m p c v :
  lower_char c ∉ chars (lower m) →
  has_suffix_ci m (p +:+ String c v) = has_suffix_ci m v.
Proof.
  intros Hc.
  assert (∀ x, lower (x +:+ String c v) ≠ lower m) as Hne.
  { intros x Heq. apply Hc. rewrite <- Heq, lower_append, chars_app.
    rewrite lower_cons. apply elem_of_app. right. left. }
  induction p as [|a p IH].
  - change (EmptyString +:+ String c v) with (String c v).
    cbn [has_suffix_ci].
    rewrite bool_decide_eq_false_2; [done|]. apply (Hne EmptyString).
  - change (String a p +:+ String c v) with (String a (p +:+ String c v)).
    cbn [has_suffix_ci].
    rewrite bool_decide_eq_false_2; [by rewrite IH|].
    apply (Hne (String a p)).
Qed.

(** ** Text that [strip] leaves alone *)

Lemma trimmed_join_lines l ls :
  Forall (λ l, trimmed l = true) (l :: ls) →
  trimmed (join_with nl (l :: ls)) = true.
Proof.
  revert l. induction ls as [|l' ls IH]; intros l Hall.
  - by inversion Hall.
  - inversion Hall as [|? ? Hl Hrest]; subst.
    change (join_with nl (l :: l' :: ls))
      with (l +:+ nl +:+ join_with nl (l' :: ls)).
    rewrite <- append_assoc. apply trimmed_append; [|by apply IH].
    destruct (trimmed_cons l Hl) as (c & t & -> & Hc). by exists c, (t +:+ nl).
Qed.

(** ** The audit lines under the audit pattern *)

Lemma line_head_line l rest :
  single_line l = true → line_head (l +:+ nl +:+ rest) = l.
Proof.
  intros Hl. induction l as [|c l IH].
  - change (EmptyString +:+ nl +:+ rest) with (String newline rest).
    cbn [line_head]. by rewrite decide_True.
  - apply andb_true_iff in Hl as [Hc Hl]. apply negb_true_iff in Hc.
    change (String c l +:+ nl +:+ rest) with (String c (l +:+ nl +:+ rest)).
    cbn [line_head].
    rewrite decide_False by (intros ->; by vm_compute in Hc).
    by rewrite IH.
Qed.

(** A line that the pattern does not match at its start is passed over. *)
Lemma search_audit_skip_line name l rest :
  single_line l = true →
  match_audit name (l +:+ nl +:+ rest) = None →
  search_audit_from true name (l +:+ nl +:+ rest)
  = search_audit_from true name rest.
Proof.
  intros Hl Hnone.
  assert (∀ s, single_line s = true →
            search_audit_from false name (s +:+ nl +:+ rest)
            = search_audit_from true name rest) as Hskip.
  { clear. intros s Hs. induction s as [|c s IH].
    - change (EmptyString +:+ nl +:+ rest) with (String newline rest).
      cbn [search_audit_from]. by rewrite bool_decide_eq_true_2.
    - apply andb_true_iff in Hs as [Hc Hs]. apply negb_true_iff in Hc.
      change (String c s +:+ nl +:+ rest) with (String c (s +:+ nl +:+ rest)).
      cbn [search_audit_from].
      rewrite bool_decide_eq_false_2 by (intros ->; by vm_compute in Hc).
      by apply IH. }
  destruct l as [|c l].
  - change (EmptyString +:+ nl +:+ rest) with (String newline rest) in *.
    cbn [search_audit_from]. rewrite Hnone.
    by rewrite bool_decide_eq_true_2.
  - apply andb_true_iff in Hl as [Hc Hl]. apply negb_true_iff in Hc.
    change (String c l +:+ nl +:+ rest) with (String c (l +:+ nl +:+ rest)) in *.
    cbn [search_audit_from]. rewrite Hnone.
    rewrite bool_decide_eq_false_2 by (intros ->; by vm_compute in Hc).
    by apply Hskip.
Qed.

Lemma search_audit_skip_lines name pre rest :
  Forall (λ l, single_line l = true
               ∧ ∀ rest, match_audit name (l +:+ nl +:+ rest) = None) pre →
  search_audit_from true name (unlines pre +:+ rest)
  = search_audit_from true name rest.
Proof.
  induction 1 as [|l pre [Hl Hnone] _ IH]; [done|].
  rewrite unlines_cons, !append_assoc.
  rewrite search_audit_skip_line by done. apply IH.
Qed.

(** The line of an audit string that is not empty and starts with no white
    space. *)
Lemma match_audit_line name v rest :
  plain_value v = true →
  match_audit name ((name +:+ ": " +:+ v) +:+ nl +:+ rest) = Some v.
Proof.
  intros Hv. unfold match_audit.
  rewrite !append_assoc, strip_prefix_ci_app.
  change (": " +:+ v +:+ nl +:+ rest)
    with (String ":" (String " " (v +:+ nl +:+ rest))).
  cbn [lstrip]. change (is_space ":") with false. cbv iota.
  rewrite decide_True by done.
  cbn [lstrip]. change (is_space " ") with true. cbv iota.
  pose proof (plain_value_trimmed _ Hv) as Htrim.
  destruct (trimmed_cons v Htrim) as (c & t & -> & Hc).
  change (String c t +:+ nl +:+ rest) with (String c (t +:+ nl +:+ rest)).
  rewrite lstrip_head by done.
  change (String c (t +:+ nl +:+ rest)) with (String c t +:+ nl +:+ rest).
  f_equal. apply line_head_line. by apply plain_value_single_line.
Qed.

Lemma strip_prefix_ci_lookup p s r i a :
  strip_prefix_ci p s = Some r → chars p !! i = Some a →
  ∃ b, chars s !! i = Some b ∧ lower_char a = lower_char b.
Proof.
  revert s i. induction p as [|x p IH]; intros s i; [done|].
  destruct s as [|y s]; [done|]. cbn [strip_prefix_ci].
  case_decide as Heq; [|done]. intros Hr.
  change (chars (String x p)) with (x :: chars p).
  change (chars (String y s)) with (y :: chars s).
  destruct i as [|i]; simpl.
  - intros [= <-]. eauto.
  - by apply IH.
Qed.

(** A key followed by its colon is not the name of an audit line, which
    has an underscore as its fifth character. *)
Lemma match_audit_key_line a0 a1 a2 a3 name k rest :
  is_alnum a0 = true → is_alnum a1 = true → is_alnum a2 = true →
  is_alnum a3 = true →
  plain_key k = true →
  match_audit (String a0 (String a1 (String a2 (String a3 (String "_" name)))))
    (k +:+ String ":" rest) = None.
Proof.
  intros H0 H1 H2 H3 Hk. unfold match_audit.
  assert (∀ a, is_alnum a = true → lower_char a ≠ lower_char ":") as Hcolon.
  { intros a Ha. clear -Ha.
    destruct a as [[] [] [] [] [] [] [] []]; by vm_compute in Ha |- *. }
  assert (∀ c, is_alnum c = true → lower_char "_" ≠ lower_char c) as Hunder.
  { intros c Hc. clear -Hc.
    destruct c as [[] [] [] [] [] [] [] []]; by vm_compute in Hc |- *. }
  apply andb_true_iff in Hk as [_ Hk].
  destruct (strip_prefix_ci _ (k +:+ String ":" rest)) as [r|] eqn:Hr; [|done].
  exfalso.
  pose proof (λ i a, strip_prefix_ci_lookup _ _ _ i a Hr) as Hat.
  rewrite chars_app in Hat.
  change (chars (String ":" rest)) with (":"%char :: chars rest) in Hat.
  change (chars (String a0 (String a1 (String a2 (String a3 (String "_" name))))))
    with (a0 :: a1 :: a2 :: a3 :: "_"%char :: chars name) in Hat.
  destruct (chars k) as [|c0 [|c1 [|c2 [|c3 [|c4 l]]]]].
  - destruct (Hat 0 a0 eq_refl) as (b & [= <-] & Hb). by apply (Hcolon a0).
  - destruct (Hat 1 a1 eq_refl) as (b & [= <-] & Hb). by apply (Hcolon a1).
  - destruct (Hat 2 a2 eq_refl) as (b & [= <-] & Hb). by apply (Hcolon a2).
  - destruct (Hat 3 a3 eq_refl) as (b & [= <-] & Hb). by apply (Hcolon a3).
  - destruct (Hat 4 "_"%char eq_refl) as (b & [= <-] & Hb). by vm_compute in Hb.
  - destruct (Hat 4 "_"%char eq_refl) as (b & [= <-] & Hb).
    apply (Hunder c4); [|done].
    simpl in Hk. rewrite !andb_true_iff in Hk.
    by destruct Hk as (_ & _ & _ & _ & ? & _).
Qed.

(** ** The sections of a written file under [read_tracker_file] *)

Lemma read_key_lines_written key_defs keys m :
  (∀ k, k ∈ keys →
     plain_key k = true ∧ validate_key k = true
     ∧ plain_value (normalize_path (default EmptyString (key_defs !! k))) = true) →
  foldl read_key_line m (key_line key_defs <$> keys)
  = foldl (λ m k, <[k:=normalize_path
                        (normalize_path (default EmptyString (key_defs !! k)))]> m)
          m keys.
Proof.
  revert m. induction keys as [|k keys IH]; intros m Hkeys; [done|].
  destruct (Hkeys k) as (Hk & Hvalid & Hv); [left|].
  pose proof (plain_value_trimmed _ Hv) as Htrim.
  rewrite fmap_cons. cbn [foldl].
  rewrite IH by (intros k' Hk'; apply Hkeys; by right). f_equal.
  unfold read_key_line.
  assert (trimmed (key_line key_defs k) = true) as Hline
    by (by apply trimmed_line).
  rewrite strip_trimmed by done.
  destruct (plain_key_cons k Hk) as (c & t & Hkc & Hc & _).
  rewrite bool_decide_eq_false_2.
  2:{ unfold key_line. rewrite Hkc. done. }
  unfold key_line at 1.
  change (k +:+ ": " +:+ ?v) with (k +:+ String ":" (String " " v)).
  rewrite key_line_not_heading by done.
  cbn [orb]. unfold key_line.
  rewrite match_key_line_colon by done. rewrite Hvalid.
  by rewrite strip_trimmed.
Qed.

Lemma read_grid_lines_written final_grid keys m :
  (∀ k, k ∈ keys →
     plain_key k = true ∧ validate_key k = true
     ∧ plain_value (default EmptyString (final_grid !! k)) = true) →
  foldl read_grid_line m (grid_line final_grid <$> keys)
  = foldl (λ m k, <[k:=default EmptyString (final_grid !! k)]> m) m keys.
Proof.
  revert m. induction keys as [|k keys IH]; intros m Hkeys; [done|].
  destruct (Hkeys k) as (Hk & Hvalid & Hv); [left|].
  pose proof (plain_value_trimmed _ Hv) as Htrim.
  rewrite fmap_cons. cbn [foldl].
  rewrite IH by (intros k' Hk'; apply Hkeys; by right). f_equal.
  unfold read_grid_line.
  assert (trimmed (grid_line final_grid k) = true) as Hline
    by (by apply trimmed_line).
  rewrite strip_trimmed by done. unfold grid_line.
  rewrite match_key_line_equals by done. rewrite Hvalid.
  by rewrite strip_trimmed.
Qed.

Lemma alnum_not_dash c : is_alnum c = true → lower_char c ≠ "-"%char.
Proof. destruct c as [[] [] [] [] [] [] [] []]; by vm_compute. Qed.

(** A definition line and a grid row start with a character of the key. *)
Lemma key_line_start key_defs k :
  plain_key k = true →
  ∃ c t, key_line key_defs k = String c t ∧ lower_char c ≠ "-"%char.
Proof.
  intros (c & t & -> & Hc & _)%plain_key_cons.
  eexists c, _. split; [done|]. by apply alnum_not_dash.
Qed.

Lemma grid_line_start final_grid k :
  plain_key k = true →
  ∃ c t, grid_line final_grid k = String c t ∧ lower_char c ≠ "-"%char.
Proof.
  intros (c & t & -> & Hc & _)%plain_key_cons.
  eexists c, _. split; [done|]. by apply alnum_not_dash.
Qed.

Lemma single_line_key_line key_defs k :
  plain_key k = true →
  plain_value (normalize_path (default EmptyString (key_defs !! k))) = true →
  single_line (key_line key_defs k) = true.
Proof.
  intros Hk Hv. unfold key_line.
  rewrite !single_line_append. rewrite plain_key_single_line by done.
  rewrite (plain_value_single_line _ Hv). reflexivity.
Qed.

Lemma single_line_grid_line final_grid k :
  plain_key k = true →
  plain_value (default EmptyString (final_grid !! k)) = true →
  single_line (grid_line final_grid k) = true.
Proof.
  intros Hk Hv. unfold grid_line.
  rewrite !single_line_append. rewrite plain_key_single_line by done.
  rewrite (plain_value_single_line _ Hv). reflexivity.
Qed.

(** The key definition section that the section pattern finds in a
    written file: the heading and the definition lines. *)
Lemma key_section_found key_defs final_grid keys a b :
  (∀ k, k ∈ keys →
     plain_key k = true
     ∧ plain_value (normalize_path (default EmptyString (key_defs !! k))) = true) →
  search_section "---KEY_DEFINITIONS_START---" "---KEY_DEFINITIONS_END---"
    (unlines (tracker_lines key_defs final_grid keys a b))
  = Some (join_with nl ("Key Definitions:" :: (key_line key_defs <$> keys))).
Proof.
  intros Hkeys. unfold tracker_lines, search_section.
  cbn [app]. rewrite unlines_cons, app_comm_cons, unlines_app.
  rewrite (unlines_cons "---KEY_DEFINITIONS_END---").
  rewrite <- (append_assoc "---KEY_DEFINITIONS_START---" nl).
  change (String newline EmptyString) with nl.
  rewrite find_ci_here.
  change "---KEY_DEFINITIONS_END---"
    with (String "-" "--KEY_DEFINITIONS_END---").
  rewrite find_ci_end_marker; [done| |].
  - apply Forall_cons_2; [done|].
    apply Forall_fmap, Forall_forall. intros k Hk. simpl.
    destruct (Hkeys k Hk). by apply single_line_key_line.
  - apply Forall_fmap, Forall_forall. intros k Hk. simpl.
    destruct (Hkeys k Hk). by apply key_line_start.
Qed.

(** The grid section that the section pattern finds: the header line and
    the rows. *)
Lemma grid_section_found key_defs final_grid keys a b :
  (∀ k, k ∈ keys →
     plain_key k = true
     ∧ plain_value (normalize_path (default EmptyString (key_defs !! k))) = true
     ∧ has_suffix_ci "---GRID_START---"
         (normalize_path (default EmptyString (key_defs !! k))) = false
     ∧ plain_value (default EmptyString (final_grid !! k)) = true) →
  single_line a = true → has_suffix_ci "---GRID_START---" a = false →
  single_line b = true → has_suffix_ci "---GRID_START---" b = false →
  search_section "---GRID_START---" "---GRID_END---"
    (unlines (tracker_lines key_defs final_grid keys a b))
  = Some (join_with nl (("X " +:+ join_with " " keys)
                          :: (grid_line final_grid <$> keys))).
Proof.
  intros Hkeys Ha Hsa Hb Hsb. unfold tracker_lines, search_section.
  assert (Forall (λ k, plain_key k = true) keys) as Hplain.
  { apply Forall_forall. intros k Hk. by destruct (Hkeys k Hk). }
  set (pre := ["---KEY_DEFINITIONS_START---"; "Key Definitions:"]
              ++ (key_line key_defs <$> keys)
              ++ ["---KEY_DEFINITIONS_END---"; EmptyString;
                  "last_KEY_edit: " +:+ a; "last_GRID_edit: " +:+ b;
                  EmptyString]).
  set (header := "X " +:+ join_with " " keys).
  set (rows := grid_line final_grid <$> keys).
  assert (["---KEY_DEFINITIONS_START---"; "Key Definitions:"]
          ++ (key_line key_defs <$> keys)
          ++ ["---KEY_DEFINITIONS_END---"; EmptyString;
              "last_KEY_edit: " +:+ a; "last_GRID_edit: " +:+ b; EmptyString;
              "---GRID_START---"; header]
          ++ rows ++ ["---GRID_END---"]
          = pre ++ "---GRID_START---" :: (header :: rows) ++ ["---GRID_END---"])
    as ->.
  { unfold pre. by rewrite <- !app_assoc. }
  rewrite unlines_app, unlines_cons, unlines_app.
  rewrite (unlines_cons "---GRID_END---").
  rewrite <- (append_assoc "---GRID_START---" nl).
  change (String newline EmptyString) with nl.
  destruct (find_ci_skip_lines "---GRID_START---" pre
              (("---GRID_START---" +:+ nl)
               +:+ unlines (header :: rows)
               +:+ "---GRID_END---" +:+ nl +:+ unlines [])
              EmptyString
              (unlines (header :: rows)
               +:+ "---GRID_END---" +:+ nl +:+ unlines []))
    as [before ->]; [done| |apply find_ci_here|].
  - unfold pre.
    repeat first [apply Forall_app_2 | apply Forall_cons_2 | apply Forall_nil_2];
      try (split; by vm_compute).
    + apply Forall_fmap, Forall_forall. intros k Hk. simpl.
      destruct (Hkeys k Hk) as (Hpk & Hv & Hsuffix & _).
      split; [by apply single_line_key_line|].
      unfold key_line.
      change (k +:+ ": " +:+ ?v) with (k +:+ ":" +:+ String " " v).
      rewrite <- append_assoc, has_suffix_ci_sep; [done|].
      compute_done.
  - change "---GRID_END---" with (String "-" "--GRID_END---").
    rewrite find_ci_end_marker; [done| |].
    + apply Forall_cons_2.
      * unfold header. rewrite single_line_append.
        by rewrite single_line_join_keys.
      * apply Forall_fmap, Forall_forall. intros k Hk. simpl.
        destruct (Hkeys k Hk) as (? & _ & _ & ?).
        by apply single_line_grid_line.
    + apply Forall_fmap, Forall_forall. intros k Hk. simpl.
      destruct (Hkeys k Hk). by apply grid_line_start.
Qed.

Lemma last_nonempty (ls : list string) :
  Forall (λ l, l ≠ EmptyString) ls → last ls ≠ Some EmptyString.
Proof.
  induction 1 as [|l ls Hl _ IH]; [done|].
  destruct ls as [|l' ls]; [by intros [= ->]|]. done.
Qed.

Lemma search_audit_here name s v :
  match_audit name s = Some v → search_audit_from true name s = Some v.
Proof. intros Hv. destruct s; simpl; by rewrite Hv. Qed.

Lemma key_line_no_audit a0 a1 a2 a3 name key_defs k rest :
  is_alnum a0 = true → is_alnum a1 = true → is_alnum a2 = true →
  is_alnum a3 = true → plain_key k = true →
  match_audit (String a0 (String a1 (String a2 (String a3 (String "_" name)))))
    (key_line key_defs k +:+ nl +:+ rest) = None.
Proof.
  intros H0 H1 H2 H3 Hk. unfold key_line.
  rewrite !append_assoc.
  change (": " +:+ ?v) with (String ":" (String " " v)).
  by apply match_audit_key_line.
Qed.

(** The audit strings that the audit pattern finds in a written file. *)
Lemma key_audit_found key_defs final_grid keys a b :
  (∀ k, k ∈ keys →
     plain_key k = true
     ∧ plain_value (normalize_path (default EmptyString (key_defs !! k))) = true) →
  plain_value a = true →
  search_audit "last_KEY_edit"
    (unlines (tracker_lines key_defs final_grid keys a b)) = Some a.
Proof.
  intros Hkeys Ha. unfold tracker_lines, search_audit.
  set (pre := ["---KEY_DEFINITIONS_START---"; "Key Definitions:"]
              ++ (key_line key_defs <$> keys)
              ++ ["---KEY_DEFINITIONS_END---"; EmptyString]).
  set (rows := grid_line final_grid <$> keys).
  set (header := "X " +:+ join_with " " keys).
  assert (["---KEY_DEFINITIONS_START---"; "Key Definitions:"]
          ++ (key_line key_defs <$> keys)
          ++ ["---KEY_DEFINITIONS_END---"; EmptyString;
              "last_KEY_edit: " +:+ a; "last_GRID_edit: " +:+ b; EmptyString;
              "---GRID_START---"; header]
          ++ rows ++ ["---GRID_END---"]
          = pre ++ ("last_KEY_edit: " +:+ a)
                :: ["last_GRID_edit: " +:+ b; EmptyString;
                    "---GRID_START---"; header] ++ rows ++ ["---GRID_END---"])
    as ->.
  { unfold pre. by rewrite <- !app_assoc. }
  rewrite unlines_app, unlines_cons.
  rewrite search_audit_skip_lines.
  - apply search_audit_here.
    by apply (match_audit_line "last_KEY_edit").
  - unfold pre.
    repeat first [apply Forall_app_2 | apply Forall_cons_2 | apply Forall_nil_2];
      try (split; [reflexivity|intros rest; reflexivity]).
    apply Forall_fmap, Forall_forall. intros k Hk. simpl.
    destruct (Hkeys k Hk) as [Hpk Hv].
    split; [by apply single_line_key_line|].
    intros rest. by apply (key_line_no_audit "l" "a" "s" "t" "KEY_edit").
Qed.

Lemma grid_audit_found key_defs final_grid keys a b :
  (∀ k, k ∈ keys →
     plain_key k = true
     ∧ plain_value (normalize_path (default EmptyString (key_defs !! k))) = true) →
  single_line a = true → plain_value b = true →
  search_audit "last_GRID_edit"
    (unlines (tracker_lines key_defs final_grid keys a b)) = Some b.
Proof.
  intros Hkeys Ha Hb. unfold tracker_lines, search_audit.
  set (pre := ["---KEY_DEFINITIONS_START---"; "Key Definitions:"]
              ++ (key_line key_defs <$> keys)
              ++ ["---KEY_DEFINITIONS_END---"; EmptyString;
                  "last_KEY_edit: " +:+ a]).
  set (rows := grid_line final_grid <$> keys).
  set (header := "X " +:+ join_with " " keys).
  assert (["---KEY_DEFINITIONS_START---"; "Key Definitions:"]
          ++ (key_line key_defs <$> keys)
          ++ ["---KEY_DEFINITIONS_END---"; EmptyString;
              "last_KEY_edit: " +:+ a; "last_GRID_edit: " +:+ b; EmptyString;
              "---GRID_START---"; header]
          ++ rows ++ ["---GRID_END---"]
          = pre ++ ("last_GRID_edit: " +:+ b)
                :: [EmptyString; "---GRID_START---"; header]
                   ++ rows ++ ["---GRID_END---"])
    as ->.
  { unfold pre. by rewrite <- !app_assoc. }
  rewrite unlines_app, unlines_cons.
  rewrite search_audit_skip_lines.
  - apply search_audit_here.
    by apply (match_audit_line "last_GRID_edit").
  - unfold pre.
    repeat first [apply Forall_app_2 | apply Forall_cons_2 | apply Forall_nil_2];
      try (split; [reflexivity|intros rest; reflexivity]).
    + apply Forall_fmap, Forall_forall. intros k Hk. simpl.
      destruct (Hkeys k Hk) as [Hpk Hv].
      split; [by apply single_line_key_line|].
      intros rest. by apply (key_line_no_audit "l" "a" "s" "t" "GRID_edit").
    + split; [by rewrite single_line_append, Ha|].
      intros rest. reflexivity.
Qed.

(** What [read_tracker_file] makes of the text of a written file. *)
Lemma parse_written key_defs final_grid keys a b :
  (∀ k, k ∈ keys →
     plain_key k = true ∧ validate_key k = true
     ∧ plain_value (normalize_path (default EmptyString (key_defs !! k))) = true
     ∧ has_suffix_ci "---GRID_START---"
         (normalize_path (default EmptyString (key_defs !! k))) = false
     ∧ plain_value (default EmptyString (final_grid !! k)) = true) →
  plain_value a = true → has_suffix_ci "---GRID_START---" a = false →
  plain_value b = true → has_suffix_ci "---GRID_START---" b = false →
  parse_tracker (unlines (tracker_lines key_defs final_grid keys a b))
  = {| td_keys :=
         foldl (λ m k, <[k:=normalize_path
                              (normalize_path
                                 (default EmptyString (key_defs !! k)))]> m)
               ∅ keys;
       td_grid :=
         foldl (λ m k, <[k:=default EmptyString (final_grid !! k)]> m) ∅ keys;
       td_last_key_edit := a;
       td_last_grid_edit := b |}.
Proof.
  intros Hkeys Ha Hsa Hb Hsb. unfold parse_tracker.
  assert (Forall (λ k, plain_key k = true) keys) as Hplain.
  { apply Forall_forall. intros k Hk. by destruct (Hkeys k Hk). }
  rewrite key_section_found
    by (intros k Hk; destruct (Hkeys k Hk) as (? & _ & ? & _); done).
  rewrite grid_section_found; [| |by apply plain_value_single_line|done
    |by apply plain_value_single_line|done].
  2:{ intros k Hk. destruct (Hkeys k Hk) as (? & _ & ? & ? & ?). done. }
  rewrite key_audit_found; [|by intros k Hk; destruct (Hkeys k Hk) as (? & _ & ? & _)|done].
  rewrite grid_audit_found; [|by intros k Hk; destruct (Hkeys k Hk) as (? & _ & ? & _)
    |by apply plain_value_single_line|done].
  rewrite (strip_trimmed a), (strip_trimmed b)
    by (by apply plain_value_trimmed).
  f_equal.
  - rewrite splitlines_join_with.
    + cbn [foldl].
      assert (read_key_line ∅ "Key Definitions:" = ∅) as -> by reflexivity.
      apply read_key_lines_written.
      intros k Hk. destruct (Hkeys k Hk) as (? & ? & ? & _). done.
    + apply Forall_cons_2; [done|].
      apply Forall_fmap, Forall_forall. intros k Hk. simpl.
      destruct (Hkeys k Hk) as (? & _ & ? & _). by apply single_line_key_line.
    + apply last_nonempty. apply Forall_cons_2; [done|].
      apply Forall_fmap, Forall_forall. intros k Hk. simpl.
      destruct (Hkeys k Hk) as (Hk' & _).
      destruct (key_line_start key_defs k Hk') as (c & t & -> & _). done.
  - destruct keys as [|k0 keys]; [reflexivity|].
    set (keys1 := k0 :: keys) in *.
    assert (trimmed ("X " +:+ join_with " " keys1) = true) as Hheader.
    { apply trimmed_append; [by exists "X"%char, " "|].
      by apply trimmed_join_keys. }
    rewrite strip_trimmed.
    2:{ apply trimmed_join_lines. apply Forall_cons_2; [done|].
        apply Forall_fmap, Forall_forall. intros k Hk. simpl.
        destruct (Hkeys k Hk) as (? & _ & _ & _ & ?).
        apply trimmed_line; [done|]. by apply plain_value_trimmed. }
    rewrite splitlines_join_with.
    + unfold is_grid_header. rewrite strip_trimmed by done.
      rewrite upper_append. change (upper "X ") with "X ".
      rewrite startswith_app. cbn [orb].
      apply read_grid_lines_written.
      intros k Hk. destruct (Hkeys k Hk) as (? & ? & _ & _ & ?). done.
    + apply Forall_cons_2.
      * rewrite single_line_append. by rewrite single_line_join_keys.
      * apply Forall_fmap, Forall_forall. intros k Hk. simpl.
        destruct (Hkeys k Hk) as (? & _ & _ & _ & ?).
        by apply single_line_grid_line.
    + apply last_nonempty. apply Forall_cons_2; [done|].
      apply Forall_fmap, Forall_forall. intros k Hk. simpl.
      destruct (Hkeys k Hk) as (Hk' & _).
      destruct (grid_line_start final_grid k Hk') as (c & t & -> & _). done.
Qed.

(** A tracker written by [write_tracker_file] and read by
    [read_tracker_file] is the tracker written: the key definitions with
    their paths normalised (by the writer and again by the reader), the
    symbol of every pair of keys, and both audit strings.  The keys are
    alphanumeric and valid; the written paths, the encoded rows and the
    audit strings are free of line breaks and of white space at their
    ends, and not empty; no written path and no audit string ends with the
    start marker of the grid. *)
Theorem write_read_tracker_file w w' tracker_path key_defs_to_write
    grid_to_write last_key_edit last_grid_edit :
  (∀ k v, key_defs_to_write !! k = Some v →
     plain_key k = true ∧ validate_key k = true
     ∧ plain_value (normalize_path v) = true
     ∧ has_suffix_ci "---GRID_START---" (normalize_path v) = false) →
  (∀ k c s, grid_to_write !! k = Some c → decompress c = Some s →
     plain_value (compress s) = true) →
  plain_value last_key_edit = true →
  has_suffix_ci "---GRID_START---" last_key_edit = false →
  plain_value last_grid_edit = true →
  has_suffix_ci "---GRID_START---" last_grid_edit = false →
  write_tracker_file w tracker_path key_defs_to_write grid_to_write
    last_key_edit last_grid_edit = (true, w') →
  td_keys (read_tracker_file w' tracker_path)
    = (λ v, normalize_path (normalize_path v)) <$> key_defs_to_write
  ∧ (∀ r c,
       grid_cell (td_grid (read_tracker_file w' tracker_path))
         (sorted_keys key_defs_to_write) r c
       = grid_cell grid_to_write (sorted_keys key_defs_to_write) r c)
  ∧ td_last_key_edit (read_tracker_file w' tracker_path) = last_key_edit
  ∧ td_last_grid_edit (read_tracker_file w' tracker_path) = last_grid_edit.
Proof using decompress_compress sort_Permutation validate_grid_square.
  intros Hkeys Hcodec Ha Hsa Hb Hsb Hrun.
  apply write_tracker_file_true in Hrun
    as (final_grid & Hvalid & Hfix & _ & Hfiles).
  apply validate_grid_square in Hvalid.
  pose proof (sorted_keys_NoDup key_defs_to_write) as Hnd.
  destruct (fix_grid_square grid_to_write _ final_grid Hnd Hvalid Hfix)
    as [_ Hrows].
  destruct (fix_grid_spec grid_to_write _ Hnd) as (fg' & Hfix' & Hout & _).
  assert (fg' = final_grid) as -> by congruence.
  assert (∀ k, k ∈ sorted_keys key_defs_to_write →
            plain_key k = true ∧ validate_key k = true
            ∧ plain_value
                (normalize_path (default EmptyString (key_defs_to_write !! k)))
              = true
            ∧ has_suffix_ci "---GRID_START---"
                (normalize_path (default EmptyString (key_defs_to_write !! k)))
              = false
            ∧ plain_value (default EmptyString (final_grid !! k)) = true)
    as Hall.
  { intros k Hk.
    pose proof Hk as [v Hv]%sorted_keys_elem.
    destruct (Hkeys k v Hv) as (? & ? & ? & ?).
    destruct (Hrows k Hk) as (c & s & Hc & Hs & Hfg).
    rewrite Hv, Hfg. simpl. split_and!; try done. by eapply Hcodec. }
  unfold read_tracker_file. rewrite Hfiles, lookup_insert_eq.
  rewrite tracker_content_unlines by (intros k Hk; by apply sorted_keys_elem).
  rewrite universal_newlines_unlines.
  2:{ apply tracker_lines_single_line.
      - intros k Hk. destruct (Hall k Hk) as (? & _ & ? & _ & ?). done.
      - by apply plain_value_single_line.
      - by apply plain_value_single_line. }
  rewrite parse_written by done. cbn [td_keys td_grid td_last_key_edit
    td_last_grid_edit].
  split_and!; [| |done..].
  - apply map_eq. intros k. rewrite foldl_insert_lookup, lookup_fmap.
    case_decide as Hk.
    + apply sorted_keys_elem in Hk as [v Hv]. by rewrite Hv.
    + destruct (key_defs_to_write !! k) as [v|] eqn:Hv; [|done].
      destruct Hk. apply sorted_keys_elem. eauto.
  - assert (foldl (λ m k, <[k:=default EmptyString (final_grid !! k)]> m) ∅
              (sorted_keys key_defs_to_write) = final_grid) as ->.
    { apply map_eq. intros k. rewrite foldl_insert_lookup.
      case_decide as Hk.
      + destruct (Hrows k Hk) as (c & s & _ & _ & Hfg). by rewrite Hfg.
      + by rewrite Hout. }
    by apply fix_grid_cells.
Qed.

End Engine.

(** ** The reference collaborators meet the contracts *)

Lemma Ref_decompress_compress s : Ref.decompress (Ref.compress s) = Some s.
Proof. reflexivity. Qed.

Lemma Ref_key_le_antisymm : AntiSymm (=) Ref.key_le.
Proof. intros a b. apply String.leb_antisym. Qed.

Lemma Ref_key_le_trans : Transitive Ref.key_le.
Proof.
  unfold Ref.key_le, String.leb. intros s1.
  induction s1 as [|a s1 IH]; intros [|b s2] [|c s3]; simpl; try done.
  unfold Ascii.compare.
  destruct (N.compare_spec (N_of_ascii a) (N_of_ascii b)) as [Hab|Hab|Hab],
           (N.compare_spec (N_of_ascii b) (N_of_ascii c)) as [Hbc|Hbc|Hbc],
           (N.compare_spec (N_of_ascii a) (N_of_ascii c)) as [Hac|Hac|Hac];
    try done; try lia.
  apply IH.
Qed.

Lemma Ref_key_le_total : Total Ref.key_le.
Proof. intros a b. apply String.leb_total. Qed.

Lemma Ref_sort_Permutation keys : Ref.sort_key_strings_hierarchically keys ≡ₚ keys.
Proof. apply merge_sort_Permutation. Qed.

Lemma Ref_sort_StronglySorted keys :
  StronglySorted Ref.key_le (Ref.sort_key_strings_hierarchically keys).
Proof.
  apply StronglySorted_merge_sort;
    [apply Ref_key_le_trans | apply Ref_key_le_total].
Qed.

Lemma Ref_validate_grid_square grid keys :
  Ref.validate_grid grid keys = true
  ↔ square_over Ref.DIAGONAL_CHAR Ref.decompress grid keys.
Proof.
  unfold Ref.validate_grid, square_over, enumerate.
  rewrite forallb_forall. split.
  - intros Hall i k Hik.
    specialize (Hall (i, k)). simpl in Hall.
    assert (In (i, k) (imap pair keys)) as Hin.
    { apply list_elem_of_In, elem_of_lookup_imap. eauto. }
    apply Hall in Hin.
    destruct (grid !! k) as [compressed|]; [|done].
    destruct (Ref.decompress compressed) as [s|] eqn:Hs; [|done].
    apply andb_true_iff in Hin as [Hlen Hdiag].
    apply bool_decide_eq_true in Hlen, Hdiag.
    by exists compressed, s.
  - intros Hsq [i k] Hin.
    apply list_elem_of_In, elem_of_lookup_imap in Hin as (i' & k' & [= -> ->] & Hik).
    destruct (Hsq _ _ Hik) as (compressed & s & -> & -> & Hlen & Hdiag).
    apply andb_true_iff. by rewrite !bool_decide_eq_true.
Qed.

(** ** The engine run on the sample data *)

Local Abbreviation ref_write_tracker_file :=
  (write_tracker_file Ref.PLACEHOLDER_CHAR Ref.DIAGONAL_CHAR Ref.compress
     Ref.decompress Ref.normalize_path Ref.sort_key_strings_hierarchically
     Ref.validate_grid).

Local Abbreviation ref_read_tracker_file :=
  (read_tracker_file Ref.validate_key Ref.normalize_path).

Local Abbreviation ref_merge_trackers :=
  (merge_trackers Ref.PLACEHOLDER_CHAR Ref.DIAGONAL_CHAR Ref.compress
     Ref.decompress Ref.validate_key Ref.normalize_path
     Ref.sort_key_strings_hierarchically Ref.validate_grid Sample.backup_dir
     Ref.strptime).

Local Abbreviation ref_remove_key_from_tracker :=
  (remove_key_from_tracker Ref.PLACEHOLDER_CHAR Ref.DIAGONAL_CHAR Ref.compress
     Ref.decompress Ref.validate_key Ref.normalize_path
     Ref.sort_key_strings_hierarchically Ref.validate_grid Sample.backup_dir
     Ref.strptime).

Local Abbreviation ref_sorted_keys := (sorted_keys Ref.sort_key_strings_hierarchically).

(** The sample tracker written to an empty disk. *)
Local Abbreviation sample_world :=
  (ref_write_tracker_file Sample.no_files Sample.tracker_path Sample.key_defs
     Sample.grid "Initial keys" "Initial grid").2.

Lemma pair_eta_true {A} (p : bool * A) : p.1 = true → p = (true, p.2).
Proof. destruct p as [b a]. by intros [= ->]. Qed.

Lemma keyed_by_dec (g : gmap string string) (keys : list string) :
  forallb (λ k, bool_decide (k ∈ keys)) (dict_keys g) = true →
  ∀ k, is_Some (g !! k) → k ∈ keys.
Proof.
  intros Hall k Hk. apply dict_keys_elem in Hk.
  rewrite forallb_forall in Hall.
  apply list_elem_of_In, Hall in Hk. by apply bool_decide_eq_true in Hk.
Qed.

Lemma rows_of_width_dec n (keys : list string) (g : gmap string (list ascii)) :
  forallb (λ k, match g !! k with
                | Some row => bool_decide (length row = n)
                | None => false
                end) keys = true →
  rows_of_width n keys g.
Proof.
  intros Hall k Hk. rewrite forallb_forall in Hall.
  apply list_elem_of_In, Hall in Hk.
  destruct (g !! k) as [row|]; [|done].
  apply bool_decide_eq_true in Hk. by exists row.
Qed.

Lemma square_rows_with_diagonal d (dec : string → option string) grid keys k :
  square_over d dec grid keys → rows_with_diagonal d dec grid keys k.
Proof.
  intros Hsq i r Hr _. destruct (Hsq i r Hr) as (compressed & s & Hrow & Hs & _ & Hdiag).
  exists compressed. split; [done|]. intros s' Hs' _. congruence.
Qed.

Lemma merge_grids_primary_precedence_witness :
  ∃ mg,
    _merge_grids Ref.PLACEHOLDER_CHAR Ref.DIAGONAL_CHAR Ref.compress Ref.decompress
      Sample.primary_grid Sample.secondary_grid
      Sample.primary_keys Sample.keys_list Sample.keys_list = Some mg
    ∧ grid_cell Ref.decompress mg Sample.keys_list "1A" "1B" = Some "<"%char.
Proof.
  destruct (merge_grids_primary_precedence
              Ref.PLACEHOLDER_CHAR Ref.DIAGONAL_CHAR Ref.compress Ref.decompress
              Ref_decompress_compress
              Sample.primary_grid Sample.secondary_grid
              Sample.primary_keys Sample.keys_list Sample.keys_list "1A" "1B")
    as (mg & Hmg & _ & _ & _ & Hconflict); [compute_done..|].
  exists mg. split; [exact Hmg|].
  apply (Hconflict "<"%char ">"%char); compute_done.
Defined.

Lemma rebuild_grid_remaps_surviving_cells_witness :
  ∃ g,
    rebuild_grid Ref.PLACEHOLDER_CHAR Ref.DIAGONAL_CHAR Ref.decompress
      Sample.grid Sample.keys_list Sample.next_keys = Some g
    ∧ decomp_cell g Sample.next_keys "1A" "2A" = Some "x"%char
    ∧ g !! "1B" = None
    ∧ g !! "3A" = Some (chars "ppo").
Proof.
  destruct (rebuild_grid_remaps_surviving_cells
              Ref.PLACEHOLDER_CHAR Ref.DIAGONAL_CHAR Ref.decompress
              Sample.grid Sample.keys_list Sample.next_keys)
    as (g & Hg & Hcopy & Hdrop & Hnew & _); [compute_done..|].
  exists g. split; [exact Hg|]. repeat split.
  - destruct (Hcopy "1A" "2A" "#o<x" "o<x") as [_ ->]; compute_done.
  - destruct (Hdrop "1B") as [-> _]; compute_done.
  - rewrite (Hnew "3A" 2); compute_done.
Defined.

(** C5 without that condition fails for a brand-new key under which the old grid
    holds a row: the loop of lines 811-822 asks only whether the row key is
    in the final key set, and copies the stale row. *)
Lemma rebuild_grid_stale_row_counterexample :
  NoDup Sample.primary_keys ∧ NoDup Sample.joined_keys
  ∧ "3A" ∉ Sample.primary_keys
  ∧ list_index "3A" Sample.joined_keys = Some 1
  ∧ ∃ g,
      rebuild_grid Ref.PLACEHOLDER_CHAR Ref.DIAGONAL_CHAR Ref.decompress
        Sample.stale_grid Sample.primary_keys Sample.joined_keys = Some g
      ∧ g !! "3A" = Some (chars "xo")
      ∧ chars "xo"
        ≠ diag_row Ref.PLACEHOLDER_CHAR Ref.DIAGONAL_CHAR
            (length Sample.joined_keys) 1.
Proof.
  split_and!; [compute_done..|].
  eexists. split_and!; [vm_compute; reflexivity|reflexivity|compute_done].
Qed.

Lemma apply_suggestions_monotone_fill_witness :
  ∃ gs,
    apply_suggestions Ref.PLACEHOLDER_CHAR Ref.DIAGONAL_CHAR
      (key_to_idx Sample.keys_list) Sample.suggestions Sample.decoded_grid
    = Some gs
    ∧ decomp_cell (gs_grid gs) Sample.keys_list "1A" "2A" = Some "x"%char
    ∧ decomp_cell (gs_grid gs) Sample.keys_list "1A" "1B" = Some "<"%char
    ∧ {| conflict_row := "1A"; conflict_col := "1B";
         conflict_existing := "<"%char; conflict_suggested := ">"%char |}
      ∈ gs_warnings gs.
Proof.
  destruct (apply_suggestions_monotone_fill
              Ref.PLACEHOLDER_CHAR Ref.DIAGONAL_CHAR Sample.keys_list
              Sample.suggestions Sample.decoded_grid)
    as (gs & Hgs & _ & Hsuggested);
    [compute_done|by apply rows_of_width_dec|].
  exists gs. split; [exact Hgs|].
  destruct (Hsuggested "1A" [("1B", ">"%char)] "2A" "x"%char [] 2)
    as (row & current & Hrow & Hcurrent & Hfill & _);
    [reflexivity|compute_done|reflexivity|done|].
  destruct (Hsuggested "1A" [] "1B" ">"%char [("2A", "x"%char)] 1)
    as (row' & current' & Hrow' & Hcurrent' & _ & Hkeep);
    [reflexivity|compute_done|reflexivity|done|].
  vm_compute in Hrow, Hrow'. injection Hrow as <-. injection Hrow' as <-.
  vm_compute in Hcurrent, Hcurrent'.
  injection Hcurrent as <-. injection Hcurrent' as <-.
  split; [apply Hfill; [reflexivity|done]|].
  destruct (Hkeep "<"%char) as (_ & Hcell & Hwarning); done.
Defined.

Lemma write_tracker_file_validation_failure_witness :
  (ref_write_tracker_file Sample.old_world Sample.tracker_path Sample.key_defs
     Sample.ragged_grid "Initial keys" "Initial grid").1 = false
  ∧ files (ref_write_tracker_file Sample.old_world Sample.tracker_path
             Sample.key_defs Sample.ragged_grid "Initial keys" "Initial grid").2
      !! Sample.tracker_path = Some "previous content".
Proof.
  destruct (write_tracker_file_validation_failure
              Ref.PLACEHOLDER_CHAR Ref.DIAGONAL_CHAR Ref.compress Ref.decompress
              Ref.normalize_path Ref.sort_key_strings_hierarchically
              Ref.validate_grid Sample.old_world Sample.tracker_path
              Sample.key_defs Sample.ragged_grid "Initial keys" "Initial grid")
    as (Hfalse & _ & Hkept); [by vm_compute|].
  split; [exact Hfalse|]. rewrite Hkept. reflexivity.
Defined.

Lemma write_tracker_file_square_witness :
  ∃ final_grid : gmap string string,
    files sample_world !! Sample.tracker_path
    = Some (unlines (tracker_lines Ref.normalize_path Sample.key_defs
                       final_grid (ref_sorted_keys Sample.key_defs)
                       "Initial keys" "Initial grid"))
    ∧ ∃ compressed s,
        grid_line final_grid "1B" = ("1B = " +:+ compressed)%string
        ∧ Ref.decompress compressed = Some s
        ∧ length (chars s) = 3
        ∧ chars s !! 1 = Some Ref.DIAGONAL_CHAR.
Proof.
  destruct (write_tracker_file_square
              Ref.PLACEHOLDER_CHAR Ref.DIAGONAL_CHAR Ref.compress Ref.decompress
              Ref_decompress_compress
              Ref.normalize_path Ref.sort_key_strings_hierarchically
              Ref.validate_grid Ref_sort_Permutation
              Sample.no_files sample_world Sample.tracker_path
              Sample.key_defs Sample.grid "Initial keys" "Initial grid")
    as (final_grid & Hfile & Hrows).
  - intros Hvalid i k compressed s Hk Hrow Hs Hlen.
    apply Ref_validate_grid_square in Hvalid.
    destruct (Hvalid i k Hk) as (compressed' & s' & Hrow' & Hs' & _ & Hdiag).
    congruence.
  - by apply pair_eta_true; vm_compute.
  - exists final_grid. split; [exact Hfile|].
    destruct (Hrows "1B") as (i & compressed & s & Hi & Hrow & Hs & Hlen & Hdiag);
      [compute_done|].
    vm_compute in Hi. injection Hi as <-.
    exists compressed, s. repeat split; assumption.
Defined.

Lemma merge_trackers_both_empty_witness :
  (ref_merge_trackers Sample.no_files Sample.tracker_path Sample.other_path
     None "20240101_120000_000000" "2024-01-01T12:00:00").1
  = Returned (option TrackerData) None.
Proof.
  destruct (merge_trackers_both_empty
              Ref.PLACEHOLDER_CHAR Ref.DIAGONAL_CHAR Ref.compress Ref.decompress
              Ref.validate_key Ref.normalize_path
              Ref.sort_key_strings_hierarchically Ref.validate_grid
              Sample.backup_dir Ref.strptime
              Sample.no_files Sample.tracker_path Sample.other_path
              None "20240101_120000_000000" "2024-01-01T12:00:00")
    as [Hboth _].
  destruct Hboth as [-> _]; [by vm_compute..|]. reflexivity.
Defined.

Lemma merge_trackers_self_witness :
  ∃ merged_data w',
    ref_merge_trackers sample_world Sample.tracker_path Sample.tracker_path
      None "20240101_120000_000000" "2024-01-01T12:00:00"
    = (Returned (option TrackerData) (Some merged_data), w')
    ∧ td_keys merged_data = Sample.key_defs
    ∧ grid_cell Ref.decompress (td_grid merged_data) Sample.keys_list "1A" "1B"
      = Some "<"%char.
Proof.
  destruct (merge_trackers_self
              Ref.PLACEHOLDER_CHAR Ref.DIAGONAL_CHAR Ref.compress Ref.decompress
              Ref_decompress_compress
              Ref.validate_key Ref.normalize_path
              Ref.sort_key_strings_hierarchically Ref.validate_grid
              Sample.backup_dir Ref.strptime
              Ref_sort_Permutation Ref_validate_grid_square
              sample_world Sample.tracker_path None
              "20240101_120000_000000" "2024-01-01T12:00:00")
    as (merged_data & w' & Hrun & Hkeys & _ & Hcells & _).
  - compute_done.
  - compute_done.
  - exists merged_data, w'. split; [exact Hrun|]. split.
    + rewrite Hkeys. by vm_compute.
    + change Sample.keys_list
        with (ref_sorted_keys
                (td_keys (ref_read_tracker_file sample_world
                            Sample.tracker_path))).
      apply Hcells; [done|]. vm_compute. reflexivity.
Defined.

(** A tracker file in the format of the specification whose grid is not
    square. *)
Local Abbreviation skewed_world :=
  {| files := {[Sample.tracker_path :=
                  unlines (tracker_lines Ref.normalize_path Sample.key_defs
                             Sample.skewed_grid Sample.keys_list
                             "Initial keys" "Initial grid")]};
     dirs := ∅; readonly := ∅ |}.

(** C8 without that condition fails for a tracker whose grid is not square:
    [_merge_grids] starts from rows that carry the diagonal symbol (lines
    277-279) and never writes a diagonal cell (line 301), so the self-merge
    of a tracker whose row of "1B" holds "x" on the diagonal has "o"
    there. *)
Lemma merge_trackers_self_counterexample :
  td_keys (ref_read_tracker_file skewed_world Sample.tracker_path)
    = Sample.key_defs
  ∧ td_grid (ref_read_tracker_file skewed_world Sample.tracker_path)
    = Sample.skewed_grid
  ∧ grid_cell Ref.decompress Sample.skewed_grid Sample.keys_list "1B" "1B"
    = Some "x"%char
  ∧ ∃ merged_data w',
      ref_merge_trackers skewed_world Sample.tracker_path Sample.tracker_path
        None "20240101_120000_000000" "2024-01-01T12:00:00"
      = (Returned (option TrackerData) (Some merged_data), w')
      ∧ td_grid merged_data !! "1B" = Some "#>op"%string
      ∧ grid_cell Ref.decompress (td_grid merged_data) Sample.keys_list
          "1B" "1B" = Some "o"%char.
Proof.
  split_and!; [vm_compute; reflexivity..|].
  eexists _, _. split_and!; [vm_compute; reflexivity|reflexivity..].
Qed.


(** A tracker file that defines three keys and holds rows for two. *)
Local Abbreviation gappy_world :=
  {| files := {[Sample.tracker_path := unlines Sample.gappy_lines]};
     dirs := ∅; readonly := ∅ |}.


Lemma earlier_dec (strptime : string → option N) timestamp timestamp' :
  match strptime timestamp, strptime timestamp' with
  | Some t, Some t' => bool_decide (t < t')%N
  | _, _ => false
  end = true →
  earlier strptime timestamp timestamp'.
Proof.
  unfold earlier.
  destruct (strptime timestamp) as [t|], (strptime timestamp') as [t'|];
    try done.
  intros Hlt%bool_decide_eq_true. by exists t, t'.
Qed.

Lemma backup_retention_keeps_two_latest_witness :
  backup_files_of Sample.backup_dir Ref.strptime "module_relationship_tracker.md"
    (take_backups Sample.backup_dir Ref.strptime Sample.old_world Sample.runs)
  ≡ₚ [backup_entry_of Sample.backup_dir Ref.strptime
        "module_relationship_tracker.md" "20240103_120000_000000";
      backup_entry_of Sample.backup_dir Ref.strptime
        "module_relationship_tracker.md" "20240102_120000_000000"].
Proof.
  pose proof (backup_retention_keeps_two_latest
                Sample.backup_dir Ref.strptime "module_relationship_tracker.md"
                Sample.old_world
                [(Sample.tracker_path, "20240101_120000_000000")]
                Sample.tracker_path Sample.tracker_path
                "20240102_120000_000000" "20240103_120000_000000") as Hkeep.
  cbv zeta in Hkeep.
  destruct Hkeep as [Hkeep _].
  - compute_done.
  - compute_done.
  - simpl.
    repeat (apply SSorted_cons;
            [|repeat (apply Forall_cons_2;
                      [apply earlier_dec; vm_compute; reflexivity|]);
              apply Forall_nil_2]).
    apply SSorted_nil.
  - intros e ts He. exfalso. revert He.
    assert (backup_files_of Sample.backup_dir Ref.strptime
              "module_relationship_tracker.md" Sample.old_world = []) as ->
      by (vm_compute; reflexivity).
    apply not_elem_of_nil.
  - intros filename. apply not_elem_of_empty.
  - exact Hkeep.
Defined.

(** C4 (write then read): the round trip does not hold for a tracker whose
    grid audit string is empty, which is the default of
    [write_tracker_file].  The sample tracker has valid keys and a square
    grid and is written with success; its keys, its grid and its key audit
    string read back as written, but its grid audit string reads back as
    the opening marker of the grid section, not as the empty string. *)
Theorem write_read_empty_grid_audit :
  Ref.validate_grid Sample.grid (ref_sorted_keys Sample.key_defs) = true
  ∧ (ref_write_tracker_file Sample.no_files Sample.tracker_path
       Sample.key_defs Sample.grid "Initial keys" "").1 = true
  ∧ ref_read_tracker_file
      (ref_write_tracker_file Sample.no_files Sample.tracker_path
         Sample.key_defs Sample.grid "Initial keys" "").2
      Sample.tracker_path
    = {| td_keys := Sample.key_defs;
         td_grid := Sample.grid;
         td_last_key_edit := "Initial keys";
         td_last_grid_edit := "---GRID_START---" |}.
Proof. repeat split; vm_compute; reflexivity. Qed.

(** ** The further properties on the sample data *)

Local Abbreviation ref_merge_grids :=
  (_merge_grids Ref.PLACEHOLDER_CHAR Ref.DIAGONAL_CHAR Ref.compress
     Ref.decompress).

Local Abbreviation ref_backup_tracker_file :=
  (backup_tracker_file Sample.backup_dir Ref.strptime).

Local Abbreviation ref_remove_file_from_tracker :=
  (remove_file_from_tracker Ref.PLACEHOLDER_CHAR Ref.DIAGONAL_CHAR Ref.compress
     Ref.decompress Ref.validate_key Ref.normalize_path
     Ref.sort_key_strings_hierarchically Ref.validate_grid Sample.backup_dir
     Ref.strptime Ref.KeyInfoMap Ref.get_key_string_from_path).

(** The two sample trackers on disk. *)
Local Abbreviation two_trackers :=
  (ref_write_tracker_file sample_world Sample.other_path Sample.other_key_defs
     Sample.other_grid "Initial keys" "Initial grid").2.

Lemma pair_eta_fst {A B} (p : A * B) a : p.1 = a → p = (a, p.2).
Proof. destruct p as [a' b]. by intros [= ->]. Qed.

Lemma no_path_error_dec (m : gmap string string) :
  forallb (λ kv : string * string, bool_decide (kv.2 ≠ "PATH_ERROR"))
    (map_to_list m) = true →
  ∀ k, m !! k ≠ Some "PATH_ERROR".
Proof.
  intros Hall k Hk. rewrite forallb_forall in Hall.
  apply elem_of_map_to_list, list_elem_of_In, Hall in Hk.
  by apply bool_decide_eq_true in Hk.
Qed.

Lemma merge_grids_square_witness :
  ∃ mg,
    ref_merge_grids Sample.primary_grid Sample.secondary_grid
      Sample.primary_keys Sample.keys_list Sample.keys_list = Some mg
    ∧ square_over Ref.DIAGONAL_CHAR Ref.decompress mg Sample.keys_list.
Proof.
  destruct (merge_grids_square
              Ref.PLACEHOLDER_CHAR Ref.DIAGONAL_CHAR Ref.compress Ref.decompress
              Ref_decompress_compress
              Sample.primary_grid Sample.secondary_grid
              Sample.primary_keys Sample.keys_list Sample.keys_list)
    as (mg & Hmg & Hsquare & _); [compute_done..|].
  exists mg. split; [exact Hmg | exact Hsquare].
Defined.

Lemma merge_grids_comm_on_agreement_witness :
  grid_cell Ref.decompress
    (default ∅ (ref_merge_grids Sample.primary_grid Sample.secondary_grid
                  Sample.primary_keys Sample.keys_list Sample.keys_list))
    Sample.keys_list "1B" "1A"
  = grid_cell Ref.decompress
      (default ∅ (ref_merge_grids Sample.secondary_grid Sample.primary_grid
                    Sample.keys_list Sample.primary_keys Sample.keys_list))
      Sample.keys_list "1B" "1A".
Proof.
  apply (merge_grids_comm_on_agreement
           Ref.PLACEHOLDER_CHAR Ref.DIAGONAL_CHAR Ref.compress Ref.decompress
           Ref_decompress_compress
           Sample.primary_grid Sample.secondary_grid
           Sample.primary_keys Sample.keys_list Sample.keys_list);
    try compute_done; try (vm_compute; reflexivity).
  intros v w Hv Hw Hnv Hnw. vm_compute in Hv. injection Hv as <-. done.
Defined.

Lemma update_grid_square_witness :
  ∃ gs,
    update_grid Ref.PLACEHOLDER_CHAR Ref.DIAGONAL_CHAR Ref.decompress
      Sample.grid Sample.keys_list Sample.next_keys Sample.suggestions
    = Some gs
    ∧ square_over Ref.DIAGONAL_CHAR Ref.decompress
        (compress_grid Ref.compress (gs_grid gs)) Sample.next_keys.
Proof.
  apply (update_grid_square
           Ref.PLACEHOLDER_CHAR Ref.DIAGONAL_CHAR Ref.compress Ref.decompress
           Ref_decompress_compress); compute_done.
Defined.

Lemma backup_tracker_file_frame_witness :
  files (ref_backup_tracker_file two_trackers Sample.tracker_path
           "20240101_120000_000000").2 !! Sample.other_path
  = files two_trackers !! Sample.other_path.
Proof.
  apply (backup_tracker_file_frame Sample.backup_dir Ref.strptime two_trackers
           Sample.tracker_path "20240101_120000_000000" Sample.other_path).
  intros Hdir. vm_compute in Hdir. discriminate Hdir.
Defined.

Lemma backup_tracker_file_at_most_two_witness :
  length (backup_files_of Sample.backup_dir Ref.strptime
            "module_relationship_tracker.md"
            (ref_backup_tracker_file Sample.old_world Sample.tracker_path
               "20240101_120000_000000").2) ≤ 2.
Proof.
  apply (backup_tracker_file_at_most_two Sample.backup_dir Ref.strptime
           Sample.old_world Sample.tracker_path "20240101_120000_000000"
           (Sample.backup_dir,
            backup_name "module_relationship_tracker.md"
              "20240101_120000_000000")).
  - intros filename. apply not_elem_of_empty.
  - vm_compute. reflexivity.
Defined.

Lemma backup_tracker_file_copies_witness :
  ∃ path,
    (ref_backup_tracker_file Sample.old_world Sample.tracker_path
       "20240101_120000_000000").1 = Some path
    ∧ files (ref_backup_tracker_file Sample.old_world Sample.tracker_path
               "20240101_120000_000000").2 !! path = Some "previous content".
Proof.
  apply (backup_tracker_file_copies Sample.backup_dir Ref.strptime
           Sample.old_world Sample.tracker_path "20240101_120000_000000"
           20240101120000000000%N).
  - vm_compute. reflexivity.
  - vm_compute. reflexivity.
  - vm_compute. reflexivity.
  - intros filename. apply not_elem_of_empty.
  - intros e He. exfalso. revert He.
    assert (backup_files_of Sample.backup_dir Ref.strptime
              Sample.tracker_path.2 Sample.old_world = []) as ->
      by (vm_compute; reflexivity).
    apply not_elem_of_nil.
Defined.

Lemma write_tracker_file_true_validated_witness :
  Ref.validate_grid Sample.grid (ref_sorted_keys Sample.key_defs) = true
  ∧ Sample.tracker_path ∉ readonly Sample.no_files
  ∧ Sample.tracker_path.1 ∈ dirs sample_world
  ∧ is_Some (files sample_world !! Sample.tracker_path).
Proof.
  apply (write_tracker_file_true_validated
           Ref.PLACEHOLDER_CHAR Ref.DIAGONAL_CHAR Ref.compress Ref.decompress
           Ref.normalize_path Ref.sort_key_strings_hierarchically
           Ref.validate_grid
           Sample.no_files Sample.tracker_path Sample.key_defs
           Sample.grid "Initial keys" "Initial grid").
  vm_compute. reflexivity.
Defined.

Lemma plain_rows_dec (compress : string → string)
    (decompress : string → option string) (grid : gmap string string) :
  map_Forall (λ _ c, from_option (λ s, plain_value (compress s)) true
                       (decompress c) = true) grid →
  ∀ k c s, grid !! k = Some c → decompress c = Some s →
    plain_value (compress s) = true.
Proof.
  intros Hall k c s Hk Hs. specialize (Hall k c Hk). simpl in Hall.
  by rewrite Hs in Hall.
Qed.

Lemma write_tracker_file_keeps_rows_witness :
  ∃ content,
    files sample_world !! Sample.tracker_path = Some content
    ∧ _read_existing_keys Ref.validate_key Ref.normalize_path
        (readlines (universal_newlines content))
      = Sample.key_defs
    ∧ grid_cell Ref.decompress
        (_read_existing_grid Ref.validate_key
           (readlines (universal_newlines content)))
        (ref_sorted_keys Sample.key_defs) "1A" "1B" = Some "<"%char.
Proof.
  destruct (write_tracker_file_keeps_rows
              Ref.PLACEHOLDER_CHAR Ref.DIAGONAL_CHAR Ref.compress Ref.decompress
              Ref_decompress_compress
              Ref.validate_key Ref.normalize_path
              Ref.sort_key_strings_hierarchically
              Ref.validate_grid Ref_sort_Permutation Ref_validate_grid_square
              Sample.no_files sample_world Sample.tracker_path
              Sample.key_defs Sample.grid "Initial keys" "Initial grid")
    as (content & Hfile & Hkeys & Hcells).
  - change (map_Forall (λ k v, plain_key k = true ∧ Ref.validate_key k = true
                               ∧ upper k ≠ "X"%string
                               ∧ plain_value (Ref.normalize_path v) = true)
              Sample.key_defs).
    compute_done.
  - apply plain_rows_dec. compute_done.
  - reflexivity.
  - reflexivity.
  - by apply pair_eta_true; vm_compute.
  - exists content. split; [exact Hfile|]. split.
    + rewrite Hkeys. vm_compute. reflexivity.
    + rewrite Hcells. vm_compute. reflexivity.
Defined.

Lemma merge_trackers_union_witness :
  ∃ merged_data w',
    ref_merge_trackers two_trackers Sample.tracker_path Sample.other_path
      None "20240101_120000_000000" "2024-01-01T12:00:00"
    = (Returned (option TrackerData) (Some merged_data), w')
    ∧ td_keys merged_data !! "3A" = Some "/proj/d.py"
    ∧ square_over Ref.DIAGONAL_CHAR Ref.decompress (td_grid merged_data)
        (ref_sorted_keys (td_keys merged_data)).
Proof.
  pose proof (merge_trackers_union
                Ref.PLACEHOLDER_CHAR Ref.DIAGONAL_CHAR Ref.compress
                Ref.decompress Ref_decompress_compress
                Ref.validate_key Ref.normalize_path
                Ref.sort_key_strings_hierarchically Ref.validate_grid
                Sample.backup_dir Ref.strptime
                Ref_sort_Permutation Ref_validate_grid_square
                two_trackers Sample.tracker_path Sample.other_path None
                "20240101_120000_000000" "2024-01-01T12:00:00") as Hmerge.
  cbv zeta in Hmerge.
  destruct Hmerge as (merged_data & w' & Hrun & Hkeys & Hsquare & _);
    [compute_done..|].
  exists merged_data, w'. split; [exact Hrun|]. split; [|exact Hsquare].
  rewrite Hkeys. vm_compute. reflexivity.
Defined.

Lemma remove_key_from_tracker_frame_witness :
  files (ref_remove_key_from_tracker two_trackers Sample.tracker_path "1B"
           "20240101_120000_000000").2 !! Sample.other_path
  = files two_trackers !! Sample.other_path.
Proof.
  apply (remove_key_from_tracker_frame
           Ref.PLACEHOLDER_CHAR Ref.DIAGONAL_CHAR Ref.compress Ref.decompress
           Ref.validate_key Ref.normalize_path
           Ref.sort_key_strings_hierarchically Ref.validate_grid
           Sample.backup_dir Ref.strptime Ref_sort_Permutation).
  - compute_done.
  - intros Hdir. vm_compute in Hdir. discriminate Hdir.
Defined.

Lemma remove_key_from_tracker_backs_up_witness :
  files (ref_remove_key_from_tracker sample_world Sample.tracker_path "1B"
           "20240101_120000_000000").2
    !! (Sample.backup_dir,
        backup_name "module_relationship_tracker.md" "20240101_120000_000000")
  = files sample_world !! Sample.tracker_path.
Proof.
  transitivity
    (Some (default EmptyString (files sample_world !! Sample.tracker_path)));
    [|vm_compute; reflexivity].
  apply (remove_key_from_tracker_backs_up
           Ref.PLACEHOLDER_CHAR Ref.DIAGONAL_CHAR Ref.compress Ref.decompress
           Ref.validate_key Ref.normalize_path
           Ref.sort_key_strings_hierarchically Ref.validate_grid
           Sample.backup_dir Ref.strptime Ref_sort_Permutation
           sample_world Sample.tracker_path "1B" "20240101_120000_000000"
           20240101120000000000%N
           (default EmptyString (files sample_world !! Sample.tracker_path))
           (ref_remove_key_from_tracker sample_world Sample.tracker_path "1B"
              "20240101_120000_000000").2).
  - vm_compute. reflexivity.
  - vm_compute. reflexivity.
  - vm_compute. reflexivity.
  - intros filename. apply not_elem_of_empty.
  - intros e He. exfalso. revert He.
    assert (backup_files_of Sample.backup_dir Ref.strptime
              Sample.tracker_path.2 sample_world = []) as ->
      by (vm_compute; reflexivity).
    apply not_elem_of_nil.
  - apply pair_eta_fst. vm_compute. reflexivity.
Defined.

Lemma remove_file_from_tracker_unknown_witness :
  ∃ w',
    ref_remove_file_from_tracker sample_world Sample.tracker_path
      "/proj/d.py" Sample.path_to_key_info "20240101_120000_000000"
    = (RemovalNoChange, w')
    ∧ files w' !! Sample.tracker_path = files sample_world !! Sample.tracker_path.
Proof.
  destruct (remove_file_from_tracker_unknown
              Ref.PLACEHOLDER_CHAR Ref.DIAGONAL_CHAR Ref.compress Ref.decompress
              Ref.validate_key Ref.normalize_path
              Ref.sort_key_strings_hierarchically Ref.validate_grid
              Sample.backup_dir Ref.strptime
              Ref.KeyInfoMap Ref.get_key_string_from_path
              sample_world Sample.tracker_path "/proj/d.py"
              Sample.path_to_key_info "20240101_120000_000000"
              (default EmptyString (files sample_world !! Sample.tracker_path)))
    as (w' & Hrun & Hfile); [vm_compute; reflexivity..|].
  exists w'. split; [exact Hrun|]. rewrite Hfile. vm_compute. reflexivity.
Defined.

Lemma remove_file_from_tracker_by_key_witness :
  (ref_remove_file_from_tracker sample_world Sample.tracker_path
     "\proj\b.py" Sample.path_to_key_info "20240101_120000_000000").1
  = (ref_remove_key_from_tracker sample_world Sample.tracker_path "1B"
       "20240101_120000_000000").1.
Proof.
  pose proof (remove_file_from_tracker_by_key
                Ref.PLACEHOLDER_CHAR Ref.DIAGONAL_CHAR Ref.compress
                Ref.decompress Ref.validate_key Ref.normalize_path
                Ref.sort_key_strings_hierarchically Ref.validate_grid
                Sample.backup_dir Ref.strptime
                Ref.KeyInfoMap Ref.get_key_string_from_path
                Ref_sort_Permutation
                sample_world Sample.tracker_path "\proj\b.py"
                Sample.path_to_key_info "20240101_120000_000000" "1B") as Hsame.
  cbv zeta in Hsame. destruct Hsame as [Hsame _]; [vm_compute; reflexivity|].
  exact Hsame.
Defined.

Lemma update_section_as_write_tracker_file_witness :
  ∃ final_grid,
    fix_grid Ref.PLACEHOLDER_CHAR Ref.DIAGONAL_CHAR Ref.compress Ref.decompress
      (compress_grid Ref.compress Sample.decoded_grid)
      (ref_sorted_keys Sample.key_defs) = Some final_grid
    ∧ update_section Ref.PLACEHOLDER_CHAR Ref.DIAGONAL_CHAR Ref.compress
        Ref.decompress Ref.normalize_path Sample.key_defs
        (compress_grid Ref.compress Sample.decoded_grid)
        (ref_sorted_keys Sample.key_defs) "Initial keys" "Initial grid"
      = Some (tracker_content Ref.normalize_path Sample.key_defs final_grid
                (ref_sorted_keys Sample.key_defs)
                "Initial keys" "Initial grid").1.
Proof.
  apply (update_section_as_write_tracker_file
           Ref.PLACEHOLDER_CHAR Ref.DIAGONAL_CHAR Ref.compress Ref.decompress
           Ref_decompress_compress
           Ref.normalize_path Ref.sort_key_strings_hierarchically
           Ref_sort_Permutation).
  apply no_path_error_dec. vm_compute. reflexivity.
Defined.

Local Abbreviation ref_export_tracker :=
  (export_tracker Ref.PLACEHOLDER_CHAR Ref.DIAGONAL_CHAR Ref.decompress
     Ref.validate_key Ref.normalize_path Ref.sort_key_strings_hierarchically
     Ref.EMPTY_CHAR Ref.json_dump Ref.csv_writerow).

Lemma export_edges_spec_witness :
  ("1A", "1B", "<"%char)
  ∈ export_edges Ref.PLACEHOLDER_CHAR Ref.DIAGONAL_CHAR Ref.decompress
      Ref.EMPTY_CHAR Sample.grid Sample.keys_list.
Proof.
  apply (export_edges_spec
           Ref.PLACEHOLDER_CHAR Ref.DIAGONAL_CHAR Ref.decompress Ref.EMPTY_CHAR
           Sample.grid Sample.keys_list "1A" "1B" "<"%char);
    [compute_done|]. split_and!; compute_done.
Defined.

Lemma export_tracker_md_copies_witness :
  ∃ w',
    ref_export_tracker sample_world Sample.tracker_path "md"
      (Some Sample.other_path) = (Exported Sample.other_path, w')
    ∧ files w' !! Sample.other_path = files sample_world !! Sample.tracker_path.
Proof.
  destruct (export_tracker_md_copies
              Ref.PLACEHOLDER_CHAR Ref.DIAGONAL_CHAR Ref.decompress
              Ref.validate_key Ref.normalize_path
              Ref.sort_key_strings_hierarchically
              Ref.EMPTY_CHAR Ref.json_dump Ref.csv_writerow
              sample_world Sample.tracker_path Sample.other_path)
    as (w' & Hrun & Hcopy & _); [compute_done..|].
  exists w'. split; [exact Hrun | exact Hcopy].
Defined.

Lemma write_read_tracker_file_witness :
  td_keys (ref_read_tracker_file sample_world Sample.tracker_path)
    = Sample.key_defs
  ∧ grid_cell Ref.decompress
      (td_grid (ref_read_tracker_file sample_world Sample.tracker_path))
      (ref_sorted_keys Sample.key_defs) "1A" "1B" = Some "<"%char
  ∧ td_last_key_edit (ref_read_tracker_file sample_world Sample.tracker_path)
    = "Initial keys"%string
  ∧ td_last_grid_edit (ref_read_tracker_file sample_world Sample.tracker_path)
    = "Initial grid"%string.
Proof.
  destruct (write_read_tracker_file
              Ref.PLACEHOLDER_CHAR Ref.DIAGONAL_CHAR Ref.compress Ref.decompress
              Ref_decompress_compress
              Ref.validate_key Ref.normalize_path
              Ref.sort_key_strings_hierarchically
              Ref.validate_grid Ref_sort_Permutation Ref_validate_grid_square
              Sample.no_files sample_world Sample.tracker_path
              Sample.key_defs Sample.grid "Initial keys" "Initial grid")
    as (Hkeys & Hcells & Hkey_edit & Hgrid_edit).
  - change (map_Forall
              (λ k v, plain_key k = true ∧ Ref.validate_key k = true
                      ∧ plain_value (Ref.normalize_path v) = true
                      ∧ has_suffix_ci "---GRID_START---"
                          (Ref.normalize_path v) = false)
              Sample.key_defs).
    compute_done.
  - apply plain_rows_dec. compute_done.
  - reflexivity.
  - reflexivity.
  - reflexivity.
  - reflexivity.
  - by apply pair_eta_true; vm_compute.
  - split_and!; [|by rewrite Hcells; vm_compute|done..].
    rewrite Hkeys. vm_compute. reflexivity.
Defined.
